(** * charm_upgrade: a shallow embedding of [charm_upgrade.py]

    The development follows the source file top to bottom:

    - [Py]: the Python built-ins the script relies on ([str.strip],
      [str.split], [str.splitlines], [int], [str], truthiness), over strings
      whose characters are code points below 256;
    - [Dict]: insertion-ordered dictionaries, as [json.load] returns them and
      [json.dumps] prints them;
    - [Json]: the values of an answer, with the operations of Python on
      them and the exceptions these raise;
    - the static tables ([OPENSTACK_CHAMRS], [LMA_CHARMS], [ORDERS], ...);
    - [get_revision_commit] and [update_charm_revisions] over an abstract
      package registry (a state-passing interface) whose answers have the
      documented shape, and [Raw.get_revision_commit] on any answer;
    - [update_branch_revision] over the three persisted documents;
    - [mark_revs], the ordering of the report of [main] and its lines;
    - [get_repo_branch_commit_map] and [update_branch_commit] over the
      hosting API, [update_revision_commit], and the three passes in a
      row. *)

From Stdlib Require Import ZArith Ascii String List DecimalString DecimalPos.
From stdpp Require Import base strings list gmap sorting.

Open Scope Z_scope.
Open Scope string_scope.
Open Scope list_scope.

(** ** Python built-ins *)

Module Py.

(** Exceptions the modelled code can raise. [TypeError], [AttributeError]
    and [IndexError] come without their message; [KeyError] carries the key
    as text, also when the key is the number 0. [RequestException] stands
    for what [requests.get] and [resp.json()] raise themselves (no
    connection, a body that is not JSON). *)
Inductive exn : Type :=
  | ValueError (msg : string)
  | KeyError (key : string)
  | TypeError
  | AttributeError
  | IndexError
  | RequestException (msg : string).

(** The outcome of a call that may raise. *)
Inductive result (A : Type) : Type :=
  | Ok (a : A)
  | Raise (e : exn).
Arguments Ok {A} a.
Arguments Raise {A} e.

(** Sequencing: an exception skips the rest ([x ← r; k] below). *)
#[global] Instance result_ret : MRet result := fun A a => Ok a.
#[global] Instance result_bind : MBind result := fun A B k r =>
  match r with
  | Ok a => k a
  | Raise e => Raise e
  end.

(** [bool(s)] for a string: the empty string is the only falsy one. *)
Definition truthy (s : string) : bool :=
  match s with
  | EmptyString => false
  | String _ _ => true
  end.

(** [str.isspace] on one character: the code points below 256 that Python
    counts as white space (tab to carriage return, the four separators
    FS/GS/RS/US, space, NEL and the no-break space). *)
Definition is_space (c : ascii) : bool :=
  let n := N_of_ascii c in
  ((9 <=? n) && (n <=? 13) || (28 <=? n) && (n <=? 32)
   || (n =? 133) || (n =? 160))%N.

(** A line boundary of [str.splitlines]. *)
Definition is_linebreak (c : ascii) : bool :=
  let n := N_of_ascii c in
  ((10 <=? n) && (n <=? 13) || (28 <=? n) && (n <=? 30) || (n =? 133))%N.

Fixpoint lstrip (s : string) : string :=
  match s with
  | EmptyString => EmptyString
  | String c r => if is_space c then lstrip r else s
  end.

Fixpoint rstrip (s : string) : string :=
  match s with
  | EmptyString => EmptyString
  | String c r =>
      match rstrip r with
      | EmptyString => if is_space c then EmptyString else String c EmptyString
      | r' => String c r'
      end
  end.

(** [s.strip()] *)
Definition strip (s : string) : string := rstrip (lstrip s).

(** [c in s] for a one-character needle. *)
Fixpoint contains (c : ascii) (s : string) : bool :=
  match s with
  | EmptyString => false
  | String d r => Ascii.eqb c d || contains c r
  end.

(** [s.split(sep)] for a one-character separator: never empty. *)
Fixpoint split (sep : ascii) (s : string) : list string :=
  match s with
  | EmptyString => [EmptyString]
  | String c r =>
      if Ascii.eqb c sep then EmptyString :: split sep r
      else match split sep r with
           | [] => [String c EmptyString]
           | p :: ps => String c p :: ps
           end
  end.

(** [s.rsplit(sep)[-1]]: without [maxsplit], [rsplit] cuts at every
    separator, so this is the text after the last one. *)
Definition rsplit_last (sep : ascii) (s : string) : string :=
  List.last (split sep s) EmptyString.

(** [s.split(sep, maxsplit=1)] when [sep] occurs in [s]: the text before the
    first separator and the text after it. *)
Fixpoint split_once (sep : ascii) (s : string) : string * string :=
  match s with
  | EmptyString => (EmptyString, EmptyString)
  | String c r =>
      if Ascii.eqb c sep then (EmptyString, r)
      else let '(k, v) := split_once sep r in (String c k, v)
  end.

(** [s.splitlines()]: [cur] is the line being read, reversed. A carriage
    return followed by a line feed is one boundary; the text after the last
    boundary is a line only when it is not empty. *)
Fixpoint splitlines_from (cur : string) (s : string) : list string :=
  match s with
  | EmptyString =>
      match cur with
      | EmptyString => []
      | _ => [String.rev cur]
      end
  | String c r =>
      if is_linebreak c then
        String.rev cur ::
          match r with
          | String d r' =>
              if Ascii.eqb c "013" && Ascii.eqb d "010"
              then splitlines_from EmptyString r'
              else splitlines_from EmptyString r
          | EmptyString => splitlines_from EmptyString r
          end
      else splitlines_from (String c cur) r
  end.

Definition splitlines (s : string) : list string :=
  splitlines_from EmptyString s.

(** The value of a decimal digit. *)
Definition digit (c : ascii) : option Z :=
  let n := N_of_ascii c in
  if ((48 <=? n) && (n <=? 57))%N then Some (Z.of_N n - 48) else None.

(** The digits of an integer literal after its sign: [acc] is the value read
    so far, [prev] tells whether the previous character was a digit. One
    underscore may stand between two digits and nowhere else. *)
Fixpoint int_digits (acc : Z) (prev : bool) (s : string) : option Z :=
  match s with
  | EmptyString => if prev then Some acc else None
  | String c r =>
      match digit c with
      | Some d => int_digits (10 * acc + d) true r
      | None =>
          if Ascii.eqb c "_" && prev then
            match r with
            | EmptyString => None
            | String c' _ =>
                match digit c' with
                | Some _ => int_digits acc false r
                | None => None
                end
            end
          else None
      end
  end.

(** [int(s)] for a string, base ten: surrounding white space is dropped, one
    sign is allowed, and at least one digit is required. (The bound that
    recent interpreters put on the number of digits is not modelled.) *)
Definition int (s : string) : result Z :=
  let t := strip s in
  let parsed :=
    match t with
    | String "-" r => option_map Z.opp (int_digits 0 false r)
    | String "+" r => int_digits 0 false r
    | _ => int_digits 0 false t
    end in
  match parsed with
  | Some z => Ok z
  | None => Raise (ValueError s)
  end.

(** [str(n)] for an integer. *)
Definition str (n : Z) : string := NilZero.string_of_int (Z.to_int n).

End Py.

Import Py.

(** ** Insertion-ordered dictionaries

    A [dict] with string keys, as the list of its items in insertion order.
    The documents the script loads and saves are of this kind: their order is
    the order of the keys in the file. *)

Module Dict.

Definition t (V : Type) : Type := list (string * V).

Section Ops.
Context {V : Type}.

(** [d.get(k)] *)
Fixpoint get (k : string) (d : t V) : option V :=
  match d with
  | [] => None
  | (k', v) :: r => if bool_decide (k' = k) then Some v else get k r
  end.

(** [d[k] = v]: a key that is present keeps its place, a new one goes last. *)
Fixpoint set (k : string) (v : V) (d : t V) : t V :=
  match d with
  | [] => [(k, v)]
  | (k', v') :: r =>
      if bool_decide (k' = k) then (k', v) :: r else (k', v') :: set k v r
  end.

Definition keys (d : t V) : list string := d.*1.

End Ops.
End Dict.

(** ** JSON values

    What [json.loads] and [resp.json()] return, with the operations of Python
    that the script applies to such a value. An operation on a value of the
    wrong kind raises as the interpreter does. *)

Module Json.

(** [Null] is [None]. A number is held as an integer: the script does
    nothing with a number but test it for zero, and a number with a
    fraction behaves as any number other than 0. [Obj] holds the items of a
    dictionary in the order of the text. *)
#[warnings="-register-all"] Inductive value : Type :=
  | Null
  | Bool (b : bool)
  | Num (n : Z)
  | Str (s : string)
  | Arr (items : list value)
  | Obj (fields : list (string * value)).

(** [bool(v)] *)
Definition truthy (v : value) : bool :=
  match v with
  | Null => false
  | Bool b => b
  | Num n => negb (n =? 0)%Z
  | Str s => Py.truthy s
  | Arr [] => false
  | Arr (_ :: _) => true
  | Obj [] => false
  | Obj (_ :: _) => true
  end.

(** [v.get(key, dflt)]: a method of dictionaries only. A key that is there
    with the value [null] gives [None], not the default. *)
Definition get_or (key : string) (dflt : value) (v : value) : result value :=
  match v with
  | Obj d => Ok (default dflt (Dict.get key d))
  | _ => Raise AttributeError
  end.

(** [v.get(key)] *)
Definition get (key : string) (v : value) : result value :=
  get_or key Null v.

(** [v[key]] for a key that is a string: a dictionary raises [KeyError]
    when it has no such key; a list and a string want an integer, and the
    other values have no subscript. *)
Definition subscript (key : string) (v : value) : result value :=
  match v with
  | Obj d =>
      match Dict.get key d with
      | Some x => Ok x
      | None => Raise (KeyError key)
      end
  | _ => Raise TypeError
  end.

(** [v[0]]: the first item of a list, the first character of a string. The
    keys of a dictionary that comes from JSON are strings, so 0 is none of
    them. *)
Definition first (v : value) : result value :=
  match v with
  | Arr (x :: _) => Ok x
  | Arr [] => Raise IndexError
  | Str (String c _) => Ok (Str (String c EmptyString))
  | Str EmptyString => Raise IndexError
  | Obj _ => Raise (KeyError "0")
  | _ => Raise TypeError
  end.

(** [c in v] for a one-character string [c]: a substring of a string, an
    item of a list, a key of a dictionary. *)
Definition has (c : ascii) (v : value) : result bool :=
  match v with
  | Str s => Ok (contains c s)
  | Arr items =>
      Ok (existsb (fun x =>
                     match x with
                     | Str s => bool_decide (s = String c EmptyString)
                     | _ => false
                     end) items)
  | Obj d => Ok (bool_decide (is_Some (Dict.get (String c EmptyString) d)))
  | _ => Raise TypeError
  end.

(** [v.rsplit(sep)[-1]]: a method of strings only. *)
Definition rsplit_last (sep : ascii) (v : value) : result string :=
  match v with
  | Str s => Ok (Py.rsplit_last sep s)
  | _ => Raise AttributeError
  end.

(** The items [for x in v] runs over: those of a list, the keys of a
    dictionary, the characters of a string. *)
Definition iterate (v : value) : result (list value) :=
  match v with
  | Arr items => Ok items
  | Obj d => Ok (map Str (Dict.keys d))
  | Str s =>
      Ok (map (fun c => Str (String c EmptyString)) (list_ascii_of_string s))
  | _ => Raise TypeError
  end.

End Json.

(** ** Static configuration *)

Definition NA : string := "--".
Definition ORDER_MAX : Z := 999.

(** only care about these branches *)
Definition BRANCHES : list string :=
  ["19.04"; "19.07"; "19.10"; "20.02"; "20.05"].

(** will upgrade in this order *)
Definition OPENSTACK_CHAMRS : list string :=
  [ "barbican-vault"; "barbican";
    "keystone-ldap"; "keystone";
    "rabbitmq-server";
    "nova-cloud-controller";
    "nova-compute";
    "neutron-openvswitch";
    "neutron-api";
    "neutron-gateway";
    "octavia-dashboard"; "octavia";
    "cinder-backup"; "cinder-ceph"; "cinder";
    "glance";
    "heat";
    "aodh";
    "swift-proxy"; "swift-storage";
    "ceph-mon"; "ceph-radosgw"; "ceph-osd";
    "ceilometer-agent"; "ceilometer";
    "gnocchi";
    "designate-bind"; "designate";
    "openstack-dashboard";
    "hacluster";
    "vault" ].

(** lma charms will be upgraded after openstack charms, in this order *)
Definition LMA_CHARMS : list string :=
  [ "canonical-livepatch";
    "thruk-agent"; "nrpe"; "nagios";
    "grafana";
    "prometheus-ceph-exporter";
    "prometheus-libvirt-exporter";
    "prometheus-openstack-exporter";
    "prometheus";
    "prometheus2";
    "telegraf";
    "kibana"; "filebeat"; "graylog"; "elasticsearch";
    "etcd";
    "easyrsa";
    "mysql"; "percona-cluster";
    "mongodb";
    "ntp" ].

(** [enumerate(l)], counting from [i]. *)
Fixpoint enumerate_from {A : Type} (i : Z) (l : list A) : list (Z * A) :=
  match l with
  | [] => []
  | x :: r => (i, x) :: enumerate_from (i + 1) r
  end.

Definition enumerate {A : Type} (l : list A) : list (Z * A) :=
  enumerate_from 0 l.

(** [{charm: i for i, charm in pairs}]: the comprehension stores the pairs
    from left to right, so a repeated key keeps its last index. *)
Definition index_dict (pairs : list (Z * string)) : gmap string Z :=
  foldl (fun d p => <[p.2 := p.1]> d) ∅ pairs.

Definition ORDERS : gmap string Z :=
  index_dict (enumerate (OPENSTACK_CHAMRS ++ LMA_CHARMS)).

(** The 0-based position of a component in a catalog: that of its first
    occurrence, when it occurs. *)
Fixpoint position (x : string) (l : list string) : option Z :=
  match l with
  | [] => None
  | y :: r => if bool_decide (y = x) then Some 0 else Z.succ <$> position x r
  end.

(** [ORDERS.get(charm_name, ORDER_MAX)], as [main] computes an order. *)
Definition order_of (charm_name : string) : Z :=
  default ORDER_MAX (ORDERS !! charm_name).

(** ** The package registry *)

(** What the script reads in the answer of the [meta/any] end point: the
    [Id] field when the answer has one, and the [commit] fields of
    [Meta.extra-info.vcs-revisions] (empty when any of the three levels is
    absent, as the chained [get] calls default to an empty dictionary). *)
Record meta_any : Type := MetaAny {
  Id : option string;
  vcs_revisions : list string
}.

(** The remote side, as state passing over an abstract [World]: each request
    answers and leaves a new world, so that two requests for one address may
    answer differently. [get_url_output_json] is [get_url_output(url,
    is_json=True)], [get_url_output_text] is [get_url_output(url)]. *)
Class Registry (World : Type) : Type := {
  get_url_output_json : string -> World -> meta_any * World;
  get_url_output_text : string -> World -> string * World
}.

Definition meta_url (name : string) : string :=
  "https://api.jujucharms.com/charmstore/v5/" +:+ name
    +:+ "/meta/any?include=extra-info".

Definition repo_info_url (charm rev : string) : string :=
  "https://api.jujucharms.com/charmstore/v5/" +:+ charm +:+ "-" +:+ rev
    +:+ "/archive/repo-info".

(** The loop over the lines of the repo-info document: the value of the first
    [commit-sha-1] line, stripped; the empty string when there is none. *)
Fixpoint repo_info_commit (lines : list string) : string :=
  match lines with
  | [] => ""
  | line :: rest =>
      let line := strip line in
      if contains ":" line then
        let '(key, value) := split_once ":" line in
        if bool_decide (key = "commit-sha-1") then strip value
        else repo_info_commit rest
      else repo_info_commit rest
  end.

(** The same loop, telling whether it has found a [commit-sha-1] line: the
    value the loop assigns to [commit], if it assigns one. *)
Fixpoint repo_info_line (lines : list string) : option string :=
  match lines with
  | [] => None
  | line :: rest =>
      let line := strip line in
      if contains ":" line then
        let '(key, value) := split_once ":" line in
        if bool_decide (key = "commit-sha-1") then Some (strip value)
        else repo_info_line rest
      else repo_info_line rest
  end.

(** The identifier asked for: [charm-rev], or [charm] alone for the latest
    revision ([rev] is [None] or empty). *)
Definition request_name (charm : string) (rev : option string) : string :=
  match rev with
  | Some r => if truthy r then charm +:+ "-" +:+ r else charm
  | None => charm
  end.

(** The revision the script reads in an answer: the text after the last
    hyphen of [Id], when there is an [Id] with a hyphen in it. *)
Definition answered_rev (data : meta_any) : option string :=
  match Id data with
  | Some id =>
      if truthy id && contains "-" id then Some (rsplit_last "-" id) else None
  | None => None
  end.

(** A registry that answers from two fixed tables keyed by address, whatever
    was asked before: the stub of a test. An address that is in no table
    gets an answer without [Id], or an empty text. *)
Definition table_registry (meta : Dict.t meta_any) (text : Dict.t string)
    : Registry unit :=
  {| get_url_output_json url w := (default (MetaAny None []) (Dict.get url meta), w);
     get_url_output_text url w := (default "" (Dict.get url text), w) |}.

(** An entry of a table, given by the name its address asks for: when the
    name ends in a revision number, the answer names that revision, if it
    names one. *)
Definition echoes (entry : string * meta_any) : bool :=
  match int (rsplit_last "-" entry.1), answered_rev entry.2 with
  | Ok n, Some r => bool_decide (r = str n)
  | _, _ => true
  end.

Section Reconciler.

Context {World : Type} `{!Registry World}.

(** [get_revision_commit(charm, rev=None)]: the pair [(rev, commit)] and the
    world after the one or two requests made. *)
Definition get_revision_commit (charm : string) (rev : option string)
    (w : World) : (string * string) * World :=
  let '(data, w1) := get_url_output_json (meta_url (request_name charm rev)) w in
  match Id data with
  | Some id =>
      if truthy id && contains "-" id then
        let rev := rsplit_last "-" id in
        let commit :=
          match vcs_revisions data with
          | c :: _ => c
          | [] => ""
          end in
        if truthy commit then ((rev, commit), w1)
        else
          (* if Id exists, but no commit, fall back to use repo-info *)
          let '(text, w2) := get_url_output_text (repo_info_url charm rev) w1 in
          ((rev, repo_info_commit (splitlines (strip text))), w2)
      else (("", ""), w1)
  | None => (("", ""), w1)
  end.

(** The variables of [update_charm_revisions] while it runs: the dictionary
    [revisions] (the caller's object, updated in place), the two counters,
    the world, and the trace of the calls made to [get_revision_commit]
    (kept for the proofs; the script has no such list). *)
Record frame : Type := Frame {
  revisions : gmap string string;
  changed : Z;
  missing_revs : Z;
  world : World;
  calls : list (string * option string)
}.

(** One call of [get_revision_commit], recorded in the trace. *)
Definition fetch (charm : string) (rev : option string) (fr : frame)
    : (string * string) * frame :=
  let '(rc, w) := get_revision_commit charm rev (world fr) in
  (rc, Frame (revisions fr) (changed fr) (missing_revs fr) w
         (calls fr ++ [(charm, rev)])).

(** The results of a trace of calls made one after the other from the world
    [w], and the world they leave (for the proofs, as the trace is). *)
Fixpoint replay (trace : list (string * option string)) (w : World)
    : list (string * string) * World :=
  match trace with
  | [] => ([], w)
  | (charm, rev) :: rest =>
      let '(rc, w1) := get_revision_commit charm rev w in
      let '(rcs, w2) := replay rest w1 in
      (rc :: rcs, w2)
  end.

(** A result of [get_revision_commit] that the loop counts as a success:
    [rev and commit]. *)
Definition is_hit (rc : string * string) : bool := truthy rc.1 && truthy rc.2.

(** The writes of [update_charm_revisions], told from the dictionary it was
    given and the results of its calls in order: the first result is
    written when its revision is a new key, and each later one when it is a
    success. *)
Definition writes_of (revs : gmap string string)
    (results : list (string * string)) : list (string * string) :=
  match results with
  | [] => []
  | latest :: rest =>
      (if bool_decide (is_Some (revs !! latest.1)) then [] else [latest])
        ++ List.filter is_hit rest
  end.

(** How an iteration of the loop ends. *)
Inductive flow : Type := Continue | Break.

(** The body of the [while] loop, after [n_rev -= 1]. *)
Definition walk_body (charm : string) (n_rev : Z) (fr : frame)
    : frame * flow :=
  let rev := str n_rev in
  if bool_decide (is_Some (revisions fr !! rev)) then (fr, Continue)
  else
    let '((rev, commit), fr) := fetch charm (Some rev) fr in
    if is_hit (rev, commit) then
      (Frame (<[rev := commit]> (revisions fr)) (changed fr + 1) 0
             (world fr) (calls fr), Continue)
    else
      let missing := missing_revs fr + 1 in
      (Frame (revisions fr) (changed fr) missing (world fr) (calls fr),
       if (3 <=? missing)%Z then Break else Continue).

(** [while n_rev > 0: ...], for [n_rev = n]: the loop counts down, so the
    number of iterations left is the recursion argument. [Break] on the
    right tells that the loop was left by [break]. *)
Fixpoint walk (charm : string) (n : nat) (fr : frame) : frame * flow :=
  match n with
  | O => (fr, Continue)
  | S m =>
      match walk_body charm (Z.of_nat m) fr with
      | (fr', Break) => (fr', Break)
      | (fr', Continue) => walk charm m fr'
      end
  end.

(** The frame after the first three statements: the current/latest revision
    is fetched and stored when it is a new key. *)
Definition latest_step (charm : string) (revs : gmap string string)
    (w : World) : string * frame :=
  let '((rev, commit), fr) := fetch charm None (Frame revs 0 0 w []) in
  (rev,
   if bool_decide (is_Some (revisions fr !! rev)) then fr
   else Frame (<[rev := commit]> (revisions fr)) (changed fr + 1)
              (missing_revs fr) (world fr) (calls fr)).

(** [update_charm_revisions(charm, revisions)]: the final frame (whose
    [revisions] is what the caller sees in its dictionary, also when the call
    raises) and the returned count or the exception. *)
Definition update_charm_revisions (charm : string)
    (revs : gmap string string) (w : World) : frame * result Z :=
  let '(rev, fr) := latest_step charm revs w in
  match int rev with
  | Raise e => (fr, Raise e)
  | Ok n_rev =>
      let '(fr', _) := walk charm (Z.to_nat n_rev) fr in
      (fr', Ok (changed fr'))
  end.

(** What a frame of a run from [revs] and [w] holds is what the results of
    its trace tell: the world, the counter and the dictionary. *)
Definition accounted (revs : gmap string string) (w : World) (fr : frame)
    : Prop :=
  let results := (replay (calls fr) w).1 in
  results <> [] /\
  (replay (calls fr) w).2 = world fr /\
  changed fr = Z.of_nat (length (writes_of revs results)) /\
  revisions fr =
    foldl (fun m rc => <[rc.1 := rc.2]> m) revs (writes_of revs results).

End Reconciler.

Arguments frame World : clear implicits.

(** ** The fetcher on any answer

    [get_revision_commit] once more, statement by statement, on whatever
    JSON value the registry sends and with the exceptions of the
    interpreter. The reconciler above runs on answers of the documented
    shape; [documented] reads such an answer as a [meta_any], and
    [Raw.typed] is the registry that results. *)

Module Raw.

(** The remote side: each request answers with a value, or raises what
    [requests] raises. *)
Class Registry (World : Type) : Type := {
  get_url_output_json : string -> World -> result Json.value * World;
  get_url_output_text : string -> World -> result string * World
}.

(** [data.get('Meta', {}).get('extra-info', {}).get('vcs-revisions', {})] *)
Definition vcs_revisions_of (data : Json.value) : result Json.value :=
  meta ← Json.get_or "Meta" (Json.Obj []) data;
  extra_info ← Json.get_or "extra-info" (Json.Obj []) meta;
  Json.get_or "vcs-revisions" (Json.Obj []) extra_info.

(** [commit] after the lines that read the metadata: [''] unless
    [vcs_revisions] is truthy, and then [vcs_revisions[0].get('commit')]. *)
Definition vcs_commit (data : Json.value) : result Json.value :=
  vcs_revisions ← vcs_revisions_of data;
  if Json.truthy vcs_revisions then
    entry ← Json.first vcs_revisions;
    Json.get "commit" entry
  else mret (Json.Str "").

(** [rev] and [commit] as the metadata give them, when the test
    [Id and '-' in Id] holds; [None] when it fails. *)
Definition answered (data : Json.value)
    : result (option (string * Json.value)) :=
  Id ← Json.get "Id" data;
  named ← (if Json.truthy Id then Json.has "-" Id else mret false);
  if named : bool then
    rev ← Json.rsplit_last "-" Id;
    commit ← vcs_commit data;
    mret (Some (rev, commit))
  else mret None.

Section Fetcher.

Context {World : Type} `{!Registry World}.

(** [get_revision_commit(charm, rev=None)]: the pair returned or the
    exception raised, and the world after the requests made. The commit is
    a string, or whatever value the first entry of [vcs-revisions] has for
    [commit] ([None] when it has none). *)
Definition get_revision_commit (charm : string) (rev : option string)
    (w : World) : result (string * Json.value) * World :=
  let '(data, w1) := get_url_output_json (meta_url (request_name charm rev)) w in
  match data ≫= answered with
  | Raise e => (Raise e, w1)
  | Ok None => (Ok ("", Json.Str ""), w1)
  | Ok (Some (rev, commit)) =>
      if Json.truthy commit then (Ok (rev, commit), w1)
      else
        (* if Id exists, but no commit, fall back to use repo-info *)
        let '(text, w2) := get_url_output_text (repo_info_url charm rev) w1 in
        match text with
        | Raise e => (Raise e, w2)
        | Ok text =>
            (Ok (rev,
                 match repo_info_line (splitlines (strip text)) with
                 | Some value => Json.Str value
                 | None => commit
                 end), w2)
        end
  end.

End Fetcher.

End Raw.

(** The commit of one entry of [vcs-revisions], when it is a string. *)
Definition entry_commit (entry : Json.value) : option string :=
  match entry with
  | Json.Obj fields =>
      match Dict.get "commit" fields with
      | Some (Json.Str commit) => Some commit
      | _ => None
      end
  | _ => None
  end.

(** An answer of the documented shape, as the [meta_any] it stands for: a
    dictionary whose [Id], if it has one, is a string or [null], and whose
    [vcs-revisions], if it has them, are a list of dictionaries with a
    string for [commit]. Other answers give [None]. *)
Definition documented (data : Json.value) : option meta_any :=
  match data with
  | Json.Obj fields =>
      id ← match Dict.get "Id" fields with
            | None | Some Json.Null => Some None
            | Some (Json.Str id) => Some (Some id)
            | Some _ => None
            end;
      commits ← match Raw.vcs_revisions_of data with
                 | Ok (Json.Arr entries) => mapM entry_commit entries
                 | Ok (Json.Obj []) => Some []
                 | _ => None
                 end;
      Some (MetaAny id commits)
  | _ => None
  end.

(** The registry of documented answers that a registry of values stands
    for. An answer outside the documented shape, or an exception, has no
    counterpart; it is read as an answer without [Id], or an empty text. *)
Definition typed {World : Type} (R : Raw.Registry World) : Registry World :=
  {| get_url_output_json url w :=
       let '(data, w') := Raw.get_url_output_json url w in
       (match data with
        | Ok data => default (MetaAny None []) (documented data)
        | Raise _ => MetaAny None []
        end, w');
     get_url_output_text url w :=
       let '(text, w') := Raw.get_url_output_text url w in
       (match text with
        | Ok text => text
        | Raise _ => ""
        end, w') |}.


(** ** Printing a document: [pretty_json]

    [json.dumps(obj, indent=4)] on a dictionary of dictionaries of strings. *)

Definition quote : string := String "034" EmptyString.
Definition backslash : string := String "092" EmptyString.
Definition newline : string := String "010" EmptyString.

Definition hex_digit (n : N) : ascii :=
  if (n <? 10)%N then ascii_of_N (48 + n) else ascii_of_N (87 + n).

(** One character inside a JSON string ([ensure_ascii] is on): the quote and
    the backslash are escaped, the characters outside space..tilde are
    written with their short escape or as [\u00xx]. *)
Definition json_escape_char (c : ascii) : string :=
  let n := N_of_ascii c in
  if (n =? 34)%N then backslash +:+ quote
  else if (n =? 92)%N then backslash +:+ backslash
  else if (n =? 10)%N then backslash +:+ "n"
  else if (n =? 13)%N then backslash +:+ "r"
  else if (n =? 9)%N then backslash +:+ "t"
  else if (n =? 8)%N then backslash +:+ "b"
  else if (n =? 12)%N then backslash +:+ "f"
  else if ((32 <=? n) && (n <=? 126))%N then String c EmptyString
  else backslash +:+ "u00"
         +:+ String (hex_digit (n / 16)) (String (hex_digit (n mod 16)) "").

Fixpoint json_escape (s : string) : string :=
  match s with
  | EmptyString => EmptyString
  | String c r => json_escape_char c +:+ json_escape r
  end.

Definition json_string (s : string) : string :=
  quote +:+ json_escape s +:+ quote.

(** A dictionary at nesting [level], its values printed by [value]: [{}] when
    empty, otherwise one item per line, indented by four spaces a level. *)
Fixpoint indent (level : nat) : string :=
  match level with
  | O => ""
  | S l => "    " +:+ indent l
  end.

Fixpoint json_items {V : Type} (value : V -> string) (level : nat)
    (d : Dict.t V) : string :=
  match d with
  | [] => ""
  | (k, v) :: r =>
      json_string k +:+ ": " +:+ value v +:+
      match r with
      | [] => ""
      | _ => "," +:+ newline +:+ indent level +:+ json_items value level r
      end
  end.

Definition json_dict {V : Type} (value : V -> string) (level : nat)
    (d : Dict.t V) : string :=
  match d with
  | [] => "{}"
  | _ => "{" +:+ newline +:+ indent (S level) +:+ json_items value (S level) d
           +:+ newline +:+ indent level +:+ "}"
  end.

(** A document: component -> {key -> string}. *)
Definition doc : Type := Dict.t (Dict.t string).

Definition pretty_json (data : doc) : string :=
  json_dict (json_dict json_string 1) 0 data.

(** ** The persisted store and the derivation of branch -> revision *)

(** The three files. The two that [update_branch_revision] loads are held as
    what [load_json] returns for them; the one it saves is held as its text. *)
Record store : Type := Store {
  FILE_BRANCH_COMMIT : doc;
  FILE_REVISION_COMMIT : doc;
  FILE_BRANCH_REVISION : string
}.

(** A [for] loop whose body may raise. *)
Fixpoint for_each {A S : Type} (body : S -> A -> result S) (items : list A)
    (s : S) : result S :=
  match items with
  | [] => Ok s
  | x :: r => s' ← body s x; for_each body r s'
  end.

(** [if int(rev) > int(commits.get(commit, 0)): commits[commit] = rev] *)
Definition commit_revision_step (commits : Dict.t string)
    (item : string * string) : result (Dict.t string) :=
  let '(rev, commit) := item in
  n ← int rev;
  m ← match Dict.get commit commits with
       | Some r => int r
       | None => Ok 0
       end;
  mret (if (m <? n)%Z then Dict.set commit rev commits else commits).

(** convert rev -> commit mapping to commit -> max_rev, for one charm *)
Definition commit_revision (revisions : Dict.t string)
    : result (Dict.t string) :=
  for_each commit_revision_step revisions [].

(** What [commits] should hold once the items [seen] of one charm are read:
    a commit with an entry has the revision of a seen item with that commit,
    of positive number, and no seen item with that commit has a larger
    number; and every seen item of positive number has given its commit an
    entry. *)
Definition newest_revisions (seen commits : Dict.t string) : Prop :=
  (forall c r, Dict.get c commits = Some r ->
     In (r, c) seen /\
     exists n, int r = Ok n /\ (0 < n)%Z /\
       forall r' n', In (r', c) seen -> int r' = Ok n' -> (n' <= n)%Z) /\
  (forall r' c n', In (r', c) seen -> int r' = Ok n' -> (0 < n')%Z ->
     is_Some (Dict.get c commits)).

(** The body of the first loop, for one charm. *)
Definition charm_commit_revision (acc : doc)
    (item : string * Dict.t string) : result doc :=
  let '(charm, revisions) := item in
  commits ← commit_revision revisions;
  mret (Dict.set charm commits acc).

(** The first loop: [OPENSTACK_CHARMS_COMMIT_REVISION]. *)
Definition charms_commit_revision (revision_commit : doc) : result doc :=
  for_each charm_commit_revision revision_commit [].

(** The inner loop of the second one, for one branch of [charm]. The
    subscript [OPENSTACK_CHARMS_COMMIT_REVISION[charm]] is evaluated here,
    once per branch. *)
Definition branch_revision_step (commit_revision_of : doc) (charm : string)
    (dict_branch_revision : Dict.t string) (item : string * string)
    : result (Dict.t string) :=
  let '(branch, commit) := item in
  match Dict.get charm commit_revision_of with
  | None => Raise (KeyError charm)
  | Some commits =>
      let rev := default "" (Dict.get commit commits) in
      mret (if truthy rev then Dict.set branch rev dict_branch_revision
            else dict_branch_revision)
  end.

(** The body of the second loop, for one charm. *)
Definition charm_branch_revision (commit_revision_of : doc) (data : doc)
    (item : string * Dict.t string) : result doc :=
  let '(charm, dict_branch_commit) := item in
  dict_branch_revision ←
    for_each (branch_revision_step commit_revision_of charm)
             dict_branch_commit [];
  mret (Dict.set charm dict_branch_revision data).

(** The second loop: [data]. *)
Definition charms_branch_revision (commit_revision_of branch_commit : doc)
    : result doc :=
  for_each (charm_branch_revision commit_revision_of) branch_commit [].

(** A component that has branches and no entry in [commit_revision_of]: the
    case in which the subscript of the second loop fails. *)
Definition orphan (commit_revision_of : doc)
    (item : string * Dict.t string) : Prop :=
  item.2 <> [] /\ Dict.get item.1 commit_revision_of = None.

(** The dictionary [update_branch_revision] hands to [save_json]. *)
Definition branch_revision_data (s : store) : result doc :=
  commit_revision_of ← charms_commit_revision (FILE_REVISION_COMMIT s);
  charms_branch_revision commit_revision_of (FILE_BRANCH_COMMIT s).

(** [update_branch_revision()]: the store after the call and how the call
    ended. [save_json] is the last statement, so an exception leaves the
    store as it was. *)
Definition update_branch_revision (s : store) : store * result unit :=
  match branch_revision_data s with
  | Ok data =>
      (Store (FILE_BRANCH_COMMIT s) (FILE_REVISION_COMMIT s)
             (pretty_json data), Ok tt)
  | Raise e => (s, Raise e)
  end.

(** ** The report *)

(** [yesno(boolean, yes, no)]: ternary in python. *)
Definition yesno {A : Type} (boolean : bool) (yes no : A) : A :=
  if boolean then yes else no.

(** The [charm-rev] field of an application: the status document gives a
    number, a hand-written one may give a string; [mark_revs] accepts both. *)
Inductive rev_value : Type :=
  | RevInt (n : Z)
  | RevStr (s : string).

(** [bool(current_rev)] *)
Definition rev_truthy (r : rev_value) : bool :=
  match r with
  | RevInt n => negb (n =? 0)%Z
  | RevStr s => truthy s
  end.

(** [str(current_rev)] *)
Definition rev_str (r : rev_value) : string :=
  match r with
  | RevInt n => str n
  | RevStr s => s
  end.

(** [mark_revs(revs, current_rev)]: add * before current rev. *)
Definition mark_revs (revs : list string) (current_rev : rev_value)
    : list string :=
  if rev_truthy current_rev then
    map (fun rev =>
           yesno (bool_decide (rev_str current_rev = rev)) "*" "" +:+ rev)
        revs
  else revs.

(** One entry of [juju_status['applications']], and the entry [main] makes of
    it for the list [apps]. *)
Record app_data : Type := AppData {
  data_charm_name : string;
  data_charm : string;
  data_charm_rev : rev_value;
  data_can_upgrade_to : option string;
  data_units : nat
}.

Record application : Type := Application {
  name : string;
  charm_name : string;
  charm_uri : string;
  charm_rev : rev_value;
  can_upgrade_to : option string;
  order : Z;
  units : nat
}.

(** The body of the loop that fills [apps]. *)
Definition make_app (item : string * app_data) : application :=
  let '(app_name, d) := item in
  Application app_name (data_charm_name d) (data_charm d) (data_charm_rev d)
      (data_can_upgrade_to d) (order_of (data_charm_name d)) (data_units d).

(** [sorted(apps, key=lambda app: app['order'])]. Python's sort is stable, and
    a stable sort has one possible result, so insertion from the right, each
    element going before the first one that is not smaller, computes it. *)
Fixpoint insert_by_order (a : application) (l : list application)
    : list application :=
  match l with
  | [] => [a]
  | b :: r =>
      if (order a <=? order b)%Z then a :: l else b :: insert_by_order a r
  end.

Definition sorted_by_order (apps : list application) : list application :=
  foldr insert_by_order [] apps.

(** The applications in the order [main] prints them. *)
Definition report_apps (applications : Dict.t app_data)
    : list application :=
  sorted_by_order (map make_app applications).

(** The cells of one printed line, before [print_app] pads them. *)
Record row : Type := Row {
  row_order : string;
  row_app : string;
  row_current : string;
  row_latest : string;
  row_revs : list string;
  row_units : string
}.

(** [s[:n]] *)
Fixpoint prefix (n : nat) (s : string) : string :=
  match n, s with
  | S m, String c r => String c (prefix m r)
  | _, _ => EmptyString
  end.

(** The body of the printing loop of [main]. *)
Definition make_row (branch_to_revision : doc) (a : application) : row :=
  let shown_order := if (order a =? ORDER_MAX)%Z then NA else str (order a) in
  let revs :=
    map (fun branch =>
           default "" (Dict.get branch
                         (default [] (Dict.get (charm_name a)
                                        branch_to_revision))))
        BRANCHES in
  let latest_rev :=
    match can_upgrade_to a with
    | Some c => if truthy c && contains "-" c then rsplit_last "-" c else NA
    | None => NA
    end in
  Row shown_order (name a) (prefix 40 (charm_uri a)) latest_rev
      (mark_revs revs (charm_rev a))
      (if (units a =? 0)%nat then "" else str (Z.of_nat (units a))).

Definition report (applications : Dict.t app_data) (branch_to_revision : doc)
    : list row :=
  map (make_row branch_to_revision) (report_apps applications).

(** ** Registries used as examples *)

Module Stub.

(** The latest revision of [cinder] is 6; revision 2 has a commit; every
    other address (5, 4 and 3 among them) has no [Id]. *)
Definition gap_below_latest : Registry unit :=
  table_registry
    [ (meta_url "cinder", MetaAny (Some "cs:cinder-6") ["c6"]);
      (meta_url "cinder-2", MetaAny (Some "cs:cinder-2") ["c2"]) ]
    [].

(** No address has an [Id]: the charm is unknown to the registry. *)
Definition unknown_charm : Registry unit := table_registry [] [].

(** The latest revision of [cinder] is 15, with no commit in its metadata
    and no [commit-sha-1] line in its repo-info document. *)
Definition latest_without_commit : Registry unit :=
  table_registry
    [ (meta_url "cinder", MetaAny (Some "cs:cinder-15") []) ]
    [ (repo_info_url "cinder" "15", "branch: HEAD") ].

(** The latest revision of [cinder] is 2; asked for revision 0, the registry
    answers with revision 1. *)
Definition answers_another_revision : Registry unit :=
  table_registry
    [ (meta_url "cinder", MetaAny (Some "cs:cinder-2") ["c2"]);
      (meta_url "cinder-0", MetaAny (Some "cs:cinder-1") ["new"]) ]
    [].

(** Every revision of [cinder] up to 3 is there, and each answer names the
    revision asked for. *)
Definition three_revisions : Registry unit :=
  table_registry
    [ (meta_url "cinder", MetaAny (Some "cs:cinder-3") ["c3"]);
      (meta_url "cinder-3", MetaAny (Some "cs:cinder-3") ["c3"]);
      (meta_url "cinder-2", MetaAny (Some "cs:cinder-2") ["c2"]);
      (meta_url "cinder-1", MetaAny (Some "cs:cinder-1") ["c1"]);
      (meta_url "cinder-0", MetaAny (Some "cs:cinder-0") ["c0"]) ]
    [].

(** Revision 15 of [barbican-vault] has an [Id], no commit in its metadata
    and no repo-info document. *)
Definition id_without_commit : Registry unit :=
  table_registry
    [ (meta_url "barbican-vault-15",
       MetaAny (Some "cs:barbican-vault-15") []) ]
    [].

End Stub.

(** ** A status document used as an example *)

(** Two applications: one of a charm that is in no catalog, whose name
    sorts first, and one of [keystone], whose name sorts last. *)
Definition example_applications : Dict.t app_data :=
  [ ("aaa", AppData "my-own-charm" "local:my-own-charm-0" (RevInt 0) None 1);
    ("zzz", AppData "keystone" "cs:keystone-310" (RevInt 310)
              (Some "cs:keystone-312") 3) ].

(** ** Printing the report: [print_app] *)

(** [n] spaces. *)
Fixpoint spaces (n : nat) : string :=
  match n with
  | O => ""
  | S m => String " " (spaces m)
  end.

(** ['{:>n}'.format(s)]: [s] pushed to the right of a field of [n]
    characters; a longer [s] is left as it is. *)
Definition rjust (n : nat) (s : string) : string :=
  spaces (n - String.length s) +:+ s.

(** ['{:<n}'.format(s)] *)
Definition ljust (n : nat) (s : string) : string :=
  s +:+ spaces (n - String.length s).

(** [''.join(l)] *)
Fixpoint join (l : list string) : string :=
  match l with
  | [] => ""
  | s :: r => s +:+ join r
  end.

(** The line [print_app(order, app, current, latest, revs, units)] prints.
    The order and the number of units are given as the text [format] makes
    of them. *)
Definition print_app (order app current latest : string)
    (revs : list string) (units : string) : string :=
  let revs := map (rjust 7) revs in
  rjust 2 order +:+ "  " +:+ ljust 30 app +:+ " " +:+ ljust 40 current
    +:+ " " +:+ rjust 7 latest +:+ " " +:+ join revs +:+ " "
    +:+ rjust 5 units.

(** The line of a row, and the lines [main] prints: the help line, the
    title and one line per application. *)
Definition print_row (r : row) : string :=
  print_app (row_order r) (row_app r) (row_current r) (row_latest r)
            (row_revs r) (row_units r).

Definition title_line : string :=
  print_app "N" "app" "current" "latest" BRANCHES "units".

Definition report_lines (applications : Dict.t app_data)
    (branch_to_revision : doc) : list string :=
  ("[help: N: order, *: current, " +:+ NA +:+ ": NA]")
    :: title_line
    :: map print_row (report applications branch_to_revision).

(** ** The source-hosting API and the branch -> commit pass *)

(** What the script reads in one reference of the answer of the
    [matching-refs] end point: [branch['ref']] and
    [branch['object']['sha']]. *)
Record ref_item : Type := RefItem {
  ref : string;
  sha : string
}.

(** The three environment variables, as [getenv] gives them. *)
Record environ : Type := Environ {
  GITHUB_TOKEN : option string;
  GITHUB_USER : option string;
  GITHUB_PASS : option string
}.

(** How a request is authenticated. *)
Inductive auth : Type :=
  | Token (token : string)
  | Basic (user pass : string)
  | Anonymous.

(** [bool(getenv(...))]: unset and empty are falsy. *)
Definition env_truthy (v : option string) : bool :=
  match v with
  | Some s => truthy s
  | None => false
  end.

(** The choice between the three requests of
    [get_repo_branch_commit_map]: the token first, then user and password
    when both are there, else no authentication (after a pause of three
    seconds, which the model leaves out). *)
Definition github_auth (env : environ) : auth :=
  if env_truthy (GITHUB_TOKEN env) then Token (default "" (GITHUB_TOKEN env))
  else if env_truthy (GITHUB_USER env) && env_truthy (GITHUB_PASS env)
  then Basic (default "" (GITHUB_USER env)) (default "" (GITHUB_PASS env))
  else Anonymous.

(** The hosting side: [requests.get(url, ...).json()], as state passing.
    The answer is whatever JSON value the API sends (a list of references,
    or the dictionary of an error such as a rate limit), or the exception
    of [requests]. *)
Class Hosting (World : Type) : Type := {
  requests_get_json : string -> auth -> World -> result Json.value * World
}.

Definition refs_url (owner repo branch_prefix : string) : string :=
  "https://api.github.com/repos/" +:+ owner +:+ "/" +:+ repo
    +:+ "/git/matching-refs/heads/" +:+ branch_prefix.

(** [{branch['ref'].rsplit('/')[-1]: branch['object']['sha'] for branch in
    items}] on a list of references that have both fields. *)
Definition branch_commit_map (items : list ref_item) : Dict.t string :=
  foldl (fun d branch => Dict.set (rsplit_last "/" (ref branch)) (sha branch) d)
        [] items.

(** One turn of the same comprehension on any value: the key is evaluated
    first, then the commit. *)
Definition branch_commit_item (d : Dict.t Json.value) (branch : Json.value)
    : result (Dict.t Json.value) :=
  r ← Json.subscript "ref" branch;
  label ← Json.rsplit_last "/" r;
  object ← Json.subscript "object" branch;
  commit ← Json.subscript "sha" object;
  mret (Dict.set label commit d).

(** The comprehension on the answer, whatever it is. *)
Definition branch_commit_items (items : Json.value)
    : result (Dict.t Json.value) :=
  branches ← Json.iterate items;
  for_each branch_commit_item branches [].

(** A reference of the answer that has the two fields the script reads,
    both strings: the [ref_item] it stands for. *)
Definition stands_for (b : ref_item) (branch : Json.value) : Prop :=
  Json.subscript "ref" branch = Ok (Json.Str (ref b)) /\
  (Json.subscript "object" branch ≫= Json.subscript "sha")
    = Ok (Json.Str (sha b)).

(** A reference of that kind, with the fields of the documented answer. *)
Definition ref_json (b : ref_item) : Json.value :=
  Json.Obj [ ("ref", Json.Str (ref b));
             ("object", Json.Obj [ ("sha", Json.Str (sha b));
                                   ("type", Json.Str "commit") ]) ].

(** A branch map whose commits are all strings, as a map of strings. *)
Definition commit_strings (m : Dict.t Json.value) : option (Dict.t string) :=
  mapM (fun item : string * Json.value =>
          match item.2 with
          | Json.Str commit => Some (item.1, commit)
          | _ => None
          end) m.

(** The branch document that [store] holds for the dictionary handed to
    [save_json]: defined when every commit in it is a string. *)
Definition branch_document (data : Dict.t (Dict.t Json.value)) : option doc :=
  mapM (fun item : string * Dict.t Json.value =>
          m ← commit_strings item.2; Some (item.1, m)) data.

(** The other way round: a branch map and a branch document of strings, as
    the dictionaries of values they are in the script. *)
Definition commits_as_values (m : Dict.t string) : Dict.t Json.value :=
  map (prod_map id Json.Str) m.

Definition document_as_values (d : doc) : Dict.t (Dict.t Json.value) :=
  map (prod_map id commits_as_values) d.

Section BranchCommit.

Context {World : Type} `{!Hosting World}.

(** [get_repo_branch_commit_map(repo, owner, branch_prefix)] *)
Definition get_repo_branch_commit_map (env : environ)
    (repo owner branch_prefix : string) (w : World)
    : result (Dict.t Json.value) * World :=
  let '(items, w') :=
    requests_get_json (refs_url owner repo branch_prefix) (github_auth env) w in
  (items ≫= branch_commit_items, w').

(** The comprehension of [update_branch_commit] over a list of charms:
    [{charm: get_repo_branch_commit_map('charm-' + charm) for charm in
    charms}], the calls made from left to right; the first call that raises
    ends it. *)
Fixpoint branch_commit_of (env : environ) (charms : list string)
    (data : Dict.t (Dict.t Json.value)) (w : World)
    : result (Dict.t (Dict.t Json.value)) * World :=
  match charms with
  | [] => (Ok data, w)
  | charm :: rest =>
      let '(m, w') :=
        get_repo_branch_commit_map env ("charm-" +:+ charm)
                                   "openstack" "stable" w in
      match m with
      | Raise e => (Raise e, w')
      | Ok m => branch_commit_of env rest (Dict.set charm m data) w'
      end
  end.

(** [update_branch_commit()]: the store and the world after the call, and
    how the call ended. [save_json] is the last statement, so an exception
    leaves the store as it was. The result is [None] when the call returns
    with a commit that is not a string: the script saves that document as
    well, but the documents of [store] hold strings, so the model says
    nothing of such a run. *)
Definition update_branch_commit (env : environ) (s : store) (w : World)
    : option (store * World * result unit) :=
  let '(data, w') := branch_commit_of env OPENSTACK_CHAMRS [] w in
  match data with
  | Raise e => Some (s, w', Raise e)
  | Ok data =>
      d ← branch_document data;
      Some (Store d (FILE_REVISION_COMMIT s) (FILE_BRANCH_REVISION s), w',
            Ok tt)
  end.

End BranchCommit.

(** ** The reconciler on the dictionary of the document

    [update_revision_commit] hands [update_charm_revisions] the dictionary
    it has loaded and saves what the call has made of it, so the order of
    the keys matters there. [InPlace] is [update_charm_revisions] once more,
    statement by statement, over an insertion-ordered dictionary; [as_map]
    forgets the order and relates it to the version above. *)

Module InPlace.

Section Ordered.

Context {World : Type} `{!Registry World}.

Record frame : Type := Frame {
  revisions : Dict.t string;
  changed : Z;
  missing_revs : Z;
  world : World;
  calls : list (string * option string)
}.

Definition fetch (charm : string) (rev : option string) (fr : frame)
    : (string * string) * frame :=
  let '(rc, w) := get_revision_commit charm rev (world fr) in
  (rc, Frame (revisions fr) (changed fr) (missing_revs fr) w
         (calls fr ++ [(charm, rev)])).

Definition walk_body (charm : string) (n_rev : Z) (fr : frame)
    : frame * flow :=
  let rev := str n_rev in
  if bool_decide (is_Some (Dict.get rev (revisions fr))) then (fr, Continue)
  else
    let '((rev, commit), fr) := fetch charm (Some rev) fr in
    if is_hit (rev, commit) then
      (Frame (Dict.set rev commit (revisions fr)) (changed fr + 1) 0
             (world fr) (calls fr), Continue)
    else
      let missing := missing_revs fr + 1 in
      (Frame (revisions fr) (changed fr) missing (world fr) (calls fr),
       if (3 <=? missing)%Z then Break else Continue).

Fixpoint walk (charm : string) (n : nat) (fr : frame) : frame * flow :=
  match n with
  | O => (fr, Continue)
  | S m =>
      match walk_body charm (Z.of_nat m) fr with
      | (fr', Break) => (fr', Break)
      | (fr', Continue) => walk charm m fr'
      end
  end.

Definition latest_step (charm : string) (revs : Dict.t string)
    (w : World) : string * frame :=
  let '((rev, commit), fr) := fetch charm None (Frame revs 0 0 w []) in
  (rev,
   if bool_decide (is_Some (Dict.get rev (revisions fr))) then fr
   else Frame (Dict.set rev commit (revisions fr)) (changed fr + 1)
              (missing_revs fr) (world fr) (calls fr)).

Definition update_charm_revisions (charm : string)
    (revs : Dict.t string) (w : World) : frame * result Z :=
  let '(rev, fr) := latest_step charm revs w in
  match int rev with
  | Raise e => (fr, Raise e)
  | Ok n_rev =>
      let '(fr', _) := walk charm (Z.to_nat n_rev) fr in
      (fr', Ok (changed fr'))
  end.

End Ordered.

Arguments frame World : clear implicits.

End InPlace.

(** The frame over a map that an in-place frame stands for. *)
Definition as_map {World : Type} (fr : InPlace.frame World) : frame World :=
  Frame (list_to_map (InPlace.revisions fr)) (InPlace.changed fr)
        (InPlace.missing_revs fr) (InPlace.world fr) (InPlace.calls fr).

(** ** The revision -> commit pass and the full refresh *)

Section RevisionCommit.

Context {World : Type} `{!Registry World}.

(** The body of the loop of [update_revision_commit] for one charm: the
    document is loaded, the charm gets an empty dictionary when it is new,
    the reconciler runs on the charm's dictionary, and the document is saved
    when the count returned is not 0. An exception leaves the files as they
    are. *)
Definition update_revision_commit_charm (charm : string) (s : store)
    (w : World) : store * World * result unit :=
  let current_revisions := FILE_REVISION_COMMIT s in
  let current_revisions :=
    if bool_decide (is_Some (Dict.get charm current_revisions))
    then current_revisions
    else Dict.set charm [] current_revisions in
  let '(fr, res) :=
    InPlace.update_charm_revisions
      charm (default [] (Dict.get charm current_revisions)) w in
  match res with
  | Raise e => (s, InPlace.world fr, Raise e)
  | Ok changed =>
      (if (changed =? 0)%Z then s
       else Store (FILE_BRANCH_COMMIT s)
                  (Dict.set charm (InPlace.revisions fr) current_revisions)
                  (FILE_BRANCH_REVISION s),
       InPlace.world fr, Ok tt)
  end.

(** The loop of [update_revision_commit] over a list of charms. *)
Fixpoint update_revision_commit_over (charms : list string) (s : store)
    (w : World) : store * World * result unit :=
  match charms with
  | [] => (s, w, Ok tt)
  | charm :: rest =>
      match update_revision_commit_charm charm s w with
      | (s', w', Ok _) => update_revision_commit_over rest s' w'
      | (s', w', Raise e) => (s', w', Raise e)
      end
  end.

(** [update_revision_commit()] *)
Definition update_revision_commit (s : store) (w : World)
    : store * World * result unit :=
  update_revision_commit_over OPENSTACK_CHAMRS s w.

Context `{!Hosting World}.

(** The three passes in a row, as [main] runs them for [--update-all]; an
    exception ends the run. [None] as for [update_branch_commit]. *)
Definition update_all (env : environ) (s : store) (w : World)
    : option (store * World * result unit) :=
  first ← update_branch_commit env s w;
  match first with
  | (s1, w1, Raise e) => Some (s1, w1, Raise e)
  | (s1, w1, Ok _) =>
      match update_revision_commit s1 w1 with
      | (s2, w2, Raise e) => Some (s2, w2, Raise e)
      | (s2, w2, Ok _) =>
          let '(s3, r) := update_branch_revision s2 in Some (s3, w2, r)
      end
  end.

End RevisionCommit.

(** ** Stubs for the passes *)

(** A registry that knows revision 0 of every charm of the primary catalog,
    with one commit for all, and nothing else. *)
Definition catalog_at_revision_zero : Registry unit :=
  table_registry
    (map (fun charm =>
            (meta_url charm, MetaAny (Some ("cs:" +:+ charm +:+ "-0")) ["c0"]))
         OPENSTACK_CHAMRS)
    [].

(** A hosting side on which every repository has the one branch 20.05. *)
Definition one_branch_each : Hosting unit :=
  {| requests_get_json url a w :=
       (Ok (Json.Arr [ref_json (RefItem "refs/heads/stable/20.05" "c0")]), w) |}.

(** A hosting side that answers every request with the dictionary of
    GitHub's rate-limit error. *)
Definition rate_limited : Hosting unit :=
  {| requests_get_json url a w :=
       (Ok (Json.Obj
              [ ("message", Json.Str "API rate limit exceeded");
                ("documentation_url",
                 Json.Str "https://developer.github.com/v3/#rate-limiting") ]),
        w) |}.

(** A registry that knows every charm of the primary catalog: revision 0 of
    each is the latest, except for [barbican-vault], whose revisions 0 to 2
    are there. Each answer names the revision asked for. *)
Definition history_entries : list (string * meta_any) :=
  [ ("barbican-vault", MetaAny (Some "cs:barbican-vault-2") ["b2"]);
    ("barbican-vault-2", MetaAny (Some "cs:barbican-vault-2") ["b2"]);
    ("barbican-vault-1", MetaAny (Some "cs:barbican-vault-1") ["b1"]);
    ("barbican-vault-0", MetaAny (Some "cs:barbican-vault-0") ["b0"]) ]
  ++ map (fun charm => (charm, MetaAny (Some ("cs:" +:+ charm +:+ "-0")) ["c0"]))
         (tail OPENSTACK_CHAMRS).

Definition catalog_with_history : Registry unit :=
  table_registry (map (fun entry => (meta_url entry.1, entry.2)) history_entries)
                 [].


(** Revision 4 of [barbican-vault] has no commit in its metadata; its
    repo-info document is of the documented form. *)
Definition commit_in_repo_info : Registry unit :=
  table_registry
    [ (meta_url "barbican-vault-4", MetaAny (Some "cs:barbican-vault-4") []) ]
    [ (repo_info_url "barbican-vault" "4",
       "note: built charm" +:+ newline +:+
       "commit-sha-1: a52f533b54abce67fb3df642cda5695568fbfb90" +:+ newline +:+
       "commit-short: a52f533" +:+ newline +:+
       "branch: HEAD" +:+ newline) ].

(** * Properties *)

(** ** Strings *)

Lemma length_append (a b : string) :
  String.length (a +:+ b) = (String.length a + String.length b)%nat.
Proof. induction a as [|c a IH]; simpl; [done|by rewrite IH]. Qed.

Lemma append_inj_r (a b s : string) : a +:+ s = b +:+ s -> a = b.
Proof.
  intros H.
  assert (Hlen : String.length a = String.length b).
  { apply (f_equal String.length) in H.
    rewrite !length_append in H. lia. }
  revert b H Hlen. induction a as [|c a IH]; intros [|d b] H Hlen;
    try done.
  simpl in *. injection H as -> H. f_equal. apply IH; [done|lia].
Qed.

Lemma meta_url_inj (a b : string) : meta_url a = meta_url b -> a = b.
Proof.
  unfold meta_url. intros H. apply String.app_inj in H.
  by apply append_inj_r in H.
Qed.

(** [str(n)] is never the empty string. *)
Lemma str_nonempty (n : Z) : str n <> "".
Proof.
  unfold str. destruct n as [|p|p]; [done| |done].
  simpl. pose proof (Unsigned.to_uint_nonnil p) as Hp.
  by destruct (Pos.to_uint p).
Qed.

(** ** The reconciler: [update_charm_revisions] *)

Section ReconcilerFacts.

Context {World : Type} `{!Registry World}.

Implicit Types (fr : frame World) (charm : string) (revs : gmap string string).

Lemma fetch_unfold charm (rev : option string) fr :
  fetch charm rev fr =
    ((get_revision_commit charm rev (world fr)).1,
     Frame (revisions fr) (changed fr) (missing_revs fr)
           (get_revision_commit charm rev (world fr)).2
           (calls fr ++ [(charm, rev)])).
Proof. unfold fetch. by destruct (get_revision_commit charm rev (world fr)). Qed.

(** The three ways through the loop body. *)
Lemma walk_body_skip charm n fr :
  is_Some (revisions fr !! str n) ->
  walk_body charm n fr = (fr, Continue).
Proof. intros Hin. unfold walk_body. by rewrite bool_decide_eq_true_2. Qed.

Lemma walk_body_hit charm n fr :
  revisions fr !! str n = None ->
  let rc := (get_revision_commit charm (Some (str n)) (world fr)).1 in
  is_hit rc = true ->
  walk_body charm n fr =
    (Frame (<[rc.1 := rc.2]> (revisions fr)) (changed fr + 1) 0
           (get_revision_commit charm (Some (str n)) (world fr)).2
           (calls fr ++ [(charm, Some (str n))]),
     Continue).
Proof.
  intros Hnew rc Hhit. unfold walk_body.
  rewrite bool_decide_eq_false_2; [|by rewrite Hnew; intros [? ?]].
  rewrite fetch_unfold. fold rc. destruct rc as [r c] eqn:Erc.
  simpl in *. by rewrite Hhit.
Qed.

Lemma walk_body_miss charm n fr :
  revisions fr !! str n = None ->
  is_hit (get_revision_commit charm (Some (str n)) (world fr)).1 = false ->
  walk_body charm n fr =
    (Frame (revisions fr) (changed fr) (missing_revs fr + 1)
           (get_revision_commit charm (Some (str n)) (world fr)).2
           (calls fr ++ [(charm, Some (str n))]),
     if (3 <=? missing_revs fr + 1)%Z then Break else Continue).
Proof.
  intros Hnew Hmiss. unfold walk_body.
  rewrite bool_decide_eq_false_2; [|by rewrite Hnew; intros [? ?]].
  rewrite fetch_unfold.
  destruct (get_revision_commit charm (Some (str n)) (world fr)).1 as [r c].
  simpl in *. by rewrite Hmiss.
Qed.

(** A property kept by every iteration is kept by the whole loop. *)
Lemma walk_invariant (P : frame World -> Prop) charm :
  (forall n fr, P fr -> P (walk_body charm n fr).1) ->
  forall n fr, P fr -> P (walk charm n fr).1.
Proof.
  intros Hbody n. induction n as [|m IH]; intros fr HP; [done|].
  simpl. specialize (Hbody (Z.of_nat m) fr HP).
  destruct (walk_body charm (Z.of_nat m) fr) as [fr' []]; [|done].
  by apply IH.
Qed.

(** The frame of [update_charm_revisions] is the one the loop ends in, or
    the one before the loop when [int(rev)] raises. *)
Lemma update_charm_revisions_frame (P : frame World -> Prop) charm revs w :
  P (latest_step charm revs w).2 ->
  (forall n fr, P fr -> P (walk_body charm n fr).1) ->
  P (update_charm_revisions charm revs w).1.
Proof.
  intros H0 Hbody. unfold update_charm_revisions.
  destruct (latest_step charm revs w) as [rev fr]. simpl in H0.
  destruct (int rev) as [n_rev|e]; [|done].
  pose proof (walk_invariant P charm Hbody (Z.to_nat n_rev) fr H0) as Hw.
  by destruct (walk charm (Z.to_nat n_rev) fr).
Qed.

(** The same for a property kept by the iterations of a revision that is
    not negative, which are the ones the loop runs. *)
Lemma walk_invariant_nonneg (P : frame World -> Prop) charm :
  (forall n fr, (0 <= n)%Z -> P fr -> P (walk_body charm n fr).1) ->
  forall n fr, P fr -> P (walk charm n fr).1.
Proof.
  intros Hbody n. induction n as [|m IH]; intros fr HP; [done|].
  simpl. specialize (Hbody (Z.of_nat m) fr (Nat2Z.is_nonneg m) HP).
  destruct (walk_body charm (Z.of_nat m) fr) as [fr' []]; [|done].
  by apply IH.
Qed.

Lemma update_charm_revisions_frame_nonneg (P : frame World -> Prop)
    charm revs w :
  P (latest_step charm revs w).2 ->
  (forall n fr, (0 <= n)%Z -> P fr -> P (walk_body charm n fr).1) ->
  P (update_charm_revisions charm revs w).1.
Proof.
  intros H0 Hbody. unfold update_charm_revisions.
  destruct (latest_step charm revs w) as [rev fr]. simpl in H0.
  destruct (int rev) as [n_rev|e]; [|done].
  pose proof (walk_invariant_nonneg P charm Hbody (Z.to_nat n_rev) fr H0) as Hw.
  by destruct (walk charm (Z.to_nat n_rev) fr).
Qed.

Lemma latest_step_unfold charm revs w :
  let rc := (get_revision_commit charm None w).1 in
  latest_step charm revs w =
    (rc.1,
     Frame (if bool_decide (is_Some (revs !! rc.1)) then revs
            else <[rc.1 := rc.2]> revs)
           (if bool_decide (is_Some (revs !! rc.1)) then 0 else 1) 0
           (get_revision_commit charm None w).2 [(charm, None)]).
Proof.
  intros rc. unfold latest_step. rewrite fetch_unfold. simpl. fold rc.
  destruct rc as [r c]. simpl. by case_bool_decide.
Qed.

End ReconcilerFacts.

Section EarlyStop.

Context {World : Type} `{!Registry World}.

Implicit Types (fr : frame World) (charm : string) (revs : gmap string string).

(** The frame a miss leaves behind. *)
Lemma walk_miss charm m fr :
  revisions fr !! str (Z.of_nat m) = None ->
  is_hit (get_revision_commit charm (Some (str (Z.of_nat m))) (world fr)).1
    = false ->
  walk charm (S m) fr =
    let fr' :=
      Frame (revisions fr) (changed fr) (missing_revs fr + 1)
            (get_revision_commit charm (Some (str (Z.of_nat m))) (world fr)).2
            (calls fr ++ [(charm, Some (str (Z.of_nat m)))]) in
    if (3 <=? missing_revs fr + 1)%Z then (fr', Break) else walk charm m fr'.
Proof.
  intros Hnew Hmiss. cbn [walk]. rewrite walk_body_miss by done.
  by destruct (3 <=? missing_revs fr + 1)%Z.
Qed.

(** The counter stays within 0..3, and it is 3 exactly when the loop was
    left by [break]. *)
Lemma walk_counter charm n fr :
  (0 <= missing_revs fr < 3)%Z ->
  (walk charm n fr).2 = Break /\ missing_revs (walk charm n fr).1 = 3%Z \/
  (walk charm n fr).2 = Continue /\
    (0 <= missing_revs (walk charm n fr).1 < 3)%Z.
Proof.
  revert fr. induction n as [|m IH]; intros fr Hfr; [by right|].
  cbn [walk].
  destruct (decide (is_Some (revisions fr !! str (Z.of_nat m)))) as [Hin|Hnew].
  { rewrite walk_body_skip by done. by apply IH. }
  apply eq_None_not_Some in Hnew.
  destruct (is_hit (get_revision_commit charm (Some (str (Z.of_nat m)))
                      (world fr)).1) eqn:Hhit.
  - rewrite walk_body_hit by done. apply IH. simpl. lia.
  - rewrite walk_body_miss by done.
    destruct (Z.leb_spec 3 (missing_revs fr + 1)) as [Hge|Hlt].
    + left. simpl. split; [done|lia].
    + apply IH. simpl. lia.
Qed.

(** C2. Early stop of the reconciler. (1) When the latest revision is 6,
    the revisions 5, 4 and 3 are not stored yet and their fetches come back
    empty, [update_charm_revisions] makes exactly four calls (the latest, 5,
    4, 3; so none for revision 2 or below), counts three misses, leaves the
    loop by [break] and returns normally. (2) In every iteration that
    fetches, an empty result adds one to the counter and a success sets it
    to 0; the iteration breaks exactly when the counter is then at least 3.
    (3) In every run the counter stays between 0 and 3, and the loop was
    left by [break] exactly when it is 3. *)
Theorem early_stop_after_three_misses charm revs (w : World) :
  (let w1 := (get_revision_commit charm None w).2 in
   let w2 := (get_revision_commit charm (Some "5") w1).2 in
   let w3 := (get_revision_commit charm (Some "4") w2).2 in
   (get_revision_commit charm None w).1.1 = "6" ->
   revs !! "5" = None -> revs !! "4" = None -> revs !! "3" = None ->
   is_hit (get_revision_commit charm (Some "5") w1).1 = false ->
   is_hit (get_revision_commit charm (Some "4") w2).1 = false ->
   is_hit (get_revision_commit charm (Some "3") w3).1 = false ->
   let fr0 := (latest_step charm revs w).2 in
   let fr := (update_charm_revisions charm revs w).1 in
   walk charm 6 fr0 = (fr, Break) /\
   (update_charm_revisions charm revs w).2 = Ok (changed fr0) /\
   calls fr =
     [(charm, None); (charm, Some "5"); (charm, Some "4"); (charm, Some "3")] /\
   missing_revs fr = 3%Z /\
   revisions fr = revisions fr0) /\
  (forall n fr,
     revisions fr !! str n = None ->
     let rc := (get_revision_commit charm (Some (str n)) (world fr)).1 in
     let step := walk_body charm n fr in
     if is_hit rc
     then missing_revs step.1 = 0%Z /\ step.2 = Continue
     else missing_revs step.1 = (missing_revs fr + 1)%Z /\
          (step.2 = Break <-> (3 <= missing_revs step.1)%Z)) /\
  (forall n,
     let run := walk charm n (latest_step charm revs w).2 in
     (0 <= missing_revs run.1 <= 3)%Z /\
     (run.2 = Break <-> missing_revs run.1 = 3%Z)).
Proof.
  split; [|split].
  - intros w1 w2 w3 H6 H5 H4 H3 M5 M4 M3 fr0 fr.
    assert (Hfr0 : latest_step charm revs w = ("6", fr0)).
    { subst fr0. rewrite latest_step_unfold. simpl. by rewrite H6. }
    assert (Hrevs : forall k, k <> "6" -> revisions fr0 !! k = revs !! k).
    { intros k Hk. subst fr0. rewrite latest_step_unfold. simpl.
      rewrite H6. case_bool_decide; [done|]. by rewrite lookup_insert_ne. }
    assert (Hw : world fr0 = w1 /\ calls fr0 = [(charm, None)] /\
                 missing_revs fr0 = 0%Z).
    { subst fr0. by rewrite latest_step_unfold. }
    destruct Hw as (Hw & Hc & Hm).
    assert (Hwalk : walk charm 6 fr0 =
      (Frame (revisions fr0) (changed fr0) 3
             (get_revision_commit charm (Some "3") w3).2
             [(charm, None); (charm, Some "5"); (charm, Some "4");
              (charm, Some "3")], Break)).
    { rewrite walk_miss; change (str (Z.of_nat 5)) with "5";
        [|by rewrite Hrevs|by rewrite Hw].
      cbn zeta. rewrite Hm, Hw, Hc. simpl (3 <=? _)%Z. cbn iota.
      rewrite walk_miss; change (str (Z.of_nat 4)) with "4"; cbn [revisions world];
        [|by rewrite Hrevs|done].
      cbn zeta. cbn [missing_revs changed calls revisions world].
      simpl (3 <=? _)%Z. cbn iota.
      rewrite walk_miss; change (str (Z.of_nat 3)) with "3"; cbn [revisions world];
        [|by rewrite Hrevs|done].
      cbn zeta. cbn [missing_revs changed calls revisions world].
      simpl (3 <=? _)%Z. cbn iota. done. }
    assert (Hupd : update_charm_revisions charm revs w =
                   ((walk charm 6 fr0).1, Ok (changed (walk charm 6 fr0).1))).
    { unfold update_charm_revisions. rewrite Hfr0. cbn beta iota.
      change (int "6") with (Ok 6%Z). cbn beta iota.
      change (Z.to_nat 6) with 6%nat.
      by destruct (walk charm 6 fr0). }
    subst fr. rewrite Hupd, Hwalk. simpl. done.
  - intros n fr Hnew rc step. subst step.
    destruct (is_hit rc) eqn:Hhit.
    + subst rc. by rewrite walk_body_hit.
    + subst rc. rewrite walk_body_miss by done. simpl. split; [done|].
      destruct (Z.leb_spec 3 (missing_revs fr + 1)); split; (done || lia).
  - intros n run. subst run.
    destruct (walk_counter charm n (latest_step charm revs w).2) as [[-> ->]|[-> ?]].
    + rewrite latest_step_unfold. simpl. lia.
    + done.
    + split; [lia|]. split; [done|lia].
Qed.

End EarlyStop.

(** The scenario of C2 on a concrete registry: revision 2 could be
    fetched, and is never asked for. *)
Lemma early_stop_after_three_misses_witness :
  let fr := (@update_charm_revisions unit Stub.gap_below_latest "cinder" ∅ tt).1 in
  @get_revision_commit unit Stub.gap_below_latest "cinder" (Some "2") tt
    = (("2", "c2"), tt) /\
  calls fr = [("cinder", None); ("cinder", Some "5"); ("cinder", Some "4");
              ("cinder", Some "3")] /\
  missing_revs fr = 3%Z.
Proof.
  split; [vm_compute; reflexivity|].
  pose proof (proj1 (@early_stop_after_three_misses unit Stub.gap_below_latest
                       "cinder" ∅ tt)) as H.
  cbv zeta in H.
  destruct H as (_ & _ & Hcalls & Hmiss & _); try (vm_compute; reflexivity).
  split; assumption.
Defined.

Section AppendOnly.

Context {World : Type} `{!Registry World}.

Implicit Types (fr : frame World) (charm : string) (revs : gmap string string).

(** The loop never fetches a key that is stored, and never drops one. *)
Lemma walk_body_keeps_keys charm revs n fr :
  (forall k, is_Some (revs !! k) -> is_Some (revisions fr !! k)) /\
  (forall k, is_Some (revs !! k) -> (charm, Some k) ∉ calls fr) ->
  (forall k, is_Some (revs !! k) ->
     is_Some (revisions (walk_body charm n fr).1 !! k)) /\
  (forall k, is_Some (revs !! k) ->
     (charm, Some k) ∉ calls (walk_body charm n fr).1).
Proof.
  intros [Hkeys Hcalls].
  destruct (decide (is_Some (revisions fr !! str n))) as [Hin|Hnew].
  { by rewrite walk_body_skip. }
  apply eq_None_not_Some in Hnew.
  assert (Hfresh : forall k, is_Some (revs !! k) ->
            (charm, Some k) ∉ (calls fr ++ [(charm, Some (str n))])%list).
  { intros k Hk. rewrite elem_of_app, list_elem_of_singleton.
    intros [Hold|Heq]; [by eapply Hcalls|].
    injection Heq as ->. apply Hkeys in Hk. rewrite Hnew in Hk.
    by destruct Hk. }
  destruct (is_hit (get_revision_commit charm (Some (str n)) (world fr)).1)
    eqn:Hhit.
  - rewrite walk_body_hit by done. simpl. split; [|done].
    intros k Hk. rewrite lookup_insert_is_Some. destruct (decide
      ((get_revision_commit charm (Some (str n)) (world fr)).1.1 = k));
      [by left|right; split; [done|by apply Hkeys]].
  - rewrite walk_body_miss by done. simpl. split; [|done]. apply Hkeys.
Qed.

(** When every successful answer to a request for a numbered revision
    names that revision, the loop leaves the stored commits alone. *)
Lemma walk_body_keeps_commits charm revs n fr :
  (forall m w, (0 <= m)%Z ->
     is_hit (get_revision_commit charm (Some (str m)) w).1 = true ->
     (get_revision_commit charm (Some (str m)) w).1.1 = str m) ->
  (0 <= n)%Z ->
  (forall k v, revs !! k = Some v -> revisions fr !! k = Some v) ->
  forall k v, revs !! k = Some v ->
    revisions (walk_body charm n fr).1 !! k = Some v.
Proof.
  intros Hecho Hn Hkept k v Hk.
  destruct (decide (is_Some (revisions fr !! str n))) as [Hin|Hnew].
  { rewrite walk_body_skip by done. by apply Hkept. }
  apply eq_None_not_Some in Hnew.
  destruct (is_hit (get_revision_commit charm (Some (str n)) (world fr)).1)
    eqn:Hhit.
  - rewrite walk_body_hit by done. simpl.
    rewrite Hecho by done.
    rewrite lookup_insert_ne; [by apply Hkept|].
    intros <-. apply Hkept in Hk. congruence.
  - rewrite walk_body_miss by done. simpl. by apply Hkept.
Qed.

(** C4 (amended). [update_charm_revisions] never deletes a key that was in
    the dictionary, and never calls [get_revision_commit] for the revision
    of such a key: the loop skips it. The commit stored under such a key is
    unchanged provided every successful answer of the registry to a request
    for a revision [n] of this charm, [n] a number that is not negative,
    names revision [n]; the requests of the walk are all of this kind. The
    proviso is needed: the loop stores a commit under the revision of the
    answer, not under the one it asked for. *)
Theorem existing_revisions_kept charm revs (w : World) :
  let fr := (update_charm_revisions charm revs w).1 in
  (forall k, is_Some (revs !! k) -> is_Some (revisions fr !! k)) /\
  (forall k, is_Some (revs !! k) -> (charm, Some k) ∉ calls fr) /\
  ((forall n w', (0 <= n)%Z ->
      is_hit (get_revision_commit charm (Some (str n)) w').1 = true ->
      (get_revision_commit charm (Some (str n)) w').1.1 = str n) ->
   forall k v, revs !! k = Some v -> revisions fr !! k = Some v).
Proof.
  intros fr. subst fr.
  assert (Hkeys :
    (forall k, is_Some (revs !! k) ->
       is_Some (revisions (update_charm_revisions charm revs w).1 !! k)) /\
    (forall k, is_Some (revs !! k) ->
       (charm, Some k) ∉ calls (update_charm_revisions charm revs w).1)).
  { apply (update_charm_revisions_frame (fun fr =>
      (forall k, is_Some (revs !! k) -> is_Some (revisions fr !! k)) /\
      (forall k, is_Some (revs !! k) -> (charm, Some k) ∉ calls fr))).
    - rewrite latest_step_unfold. simpl. split.
      + intros k Hk. case_bool_decide; [done|].
        rewrite lookup_insert_is_Some'. by right.
      + intros k Hk. rewrite list_elem_of_singleton. congruence.
    - intros n fr. apply walk_body_keeps_keys. }
  destruct Hkeys as [Hkeys Hcalls]. split; [done|split; [done|]].
  intros Hecho.
  apply (update_charm_revisions_frame_nonneg (fun fr =>
    forall k v, revs !! k = Some v -> revisions fr !! k = Some v)).
  - rewrite latest_step_unfold. simpl. intros k v Hk.
    case_bool_decide as Hin; [done|].
    rewrite lookup_insert_ne; [done|]. intros <-.
    destruct Hin. rewrite Hk. by eexists.
  - intros n fr Hn. by apply walk_body_keeps_commits.
Qed.

(** The commits the loop writes are never empty: a key of the dictionary
    after an iteration either was there with the same commit, or holds a
    non-empty commit under a non-empty revision. *)
Lemma walk_body_writes_nonempty charm n fr k v :
  revisions (walk_body charm n fr).1 !! k = Some v ->
  revisions fr !! k = Some v \/ (k <> "" /\ v <> "").
Proof.
  destruct (decide (is_Some (revisions fr !! str n))) as [Hin|Hnew].
  { rewrite walk_body_skip by done. by left. }
  apply eq_None_not_Some in Hnew.
  destruct (is_hit (get_revision_commit charm (Some (str n)) (world fr)).1)
    eqn:Hhit.
  - rewrite walk_body_hit by done. simpl.
    destruct (get_revision_commit charm (Some (str n)) (world fr)).1
      as [r c]. simpl in *.
    rewrite lookup_insert. case_decide as Hk; [|by left].
    intros [= <-]. subst k. right. unfold is_hit in Hhit. simpl in Hhit.
    by destruct r, c.
  - rewrite walk_body_miss by done. by left.
Qed.

Lemma walk_writes_nonempty charm n fr k v :
  revisions (walk charm n fr).1 !! k = Some v ->
  revisions fr !! k = Some v \/ (k <> "" /\ v <> "").
Proof.
  revert fr. induction n as [|m IH]; intros fr; [by left|].
  cbn [walk].
  destruct (walk_body charm (Z.of_nat m) fr) as [fr' fl] eqn:Hbody.
  assert (Hstep : revisions fr' !! k = Some v ->
            revisions fr !! k = Some v \/ (k <> "" /\ v <> "")).
  { intros H. apply (walk_body_writes_nonempty charm (Z.of_nat m)).
    by rewrite Hbody. }
  destruct fl; [|done].
  intros H. destruct (IH _ H) as [H'|H']; [by apply Hstep|by right].
Qed.

(** An empty latest revision makes [int(rev)] raise, after the empty key was
    stored. *)
Lemma update_charm_revisions_empty_latest charm revs (w : World) :
  (get_revision_commit charm None w).1.1 = "" ->
  (update_charm_revisions charm revs w).2 = Raise (ValueError "").
Proof.
  intros Hrev. unfold update_charm_revisions.
  rewrite latest_step_unfold. cbn zeta. rewrite Hrev. done.
Qed.

End AppendOnly.

(** The stub [Stub.three_revisions] names the revision asked for in every
    successful answer. *)
Lemma three_revisions_echo r (w : unit) :
  r <> "" ->
  is_hit (@get_revision_commit unit Stub.three_revisions "cinder" (Some r) w).1
    = true ->
  (@get_revision_commit unit Stub.three_revisions "cinder" (Some r) w).1.1 = r.
Proof.
  intros Hr. unfold get_revision_commit, request_name.
  destruct r as [|c r]; [done|]. cbn [truthy].
  cbn [get_url_output_json Stub.three_revisions table_registry Dict.get].
  repeat (case_bool_decide;
          [match goal with
           | H : meta_url _ = meta_url _ |- _ =>
               apply meta_url_inj in H; cbv in H; simplify_eq
           end; vm_compute; done|]).
  vm_compute. done.
Qed.

(** A registry of the kind C4 asks for, on which the stored commit of
    revision 1 survives a run that adds the revisions 3, 2 and 0. *)
Lemma existing_revisions_kept_witness :
  let revs : gmap string string := {[ "1" := "old" ]} in
  let fr := (@update_charm_revisions unit Stub.three_revisions "cinder" revs tt).1 in
  revisions fr !! "1" = Some "old" /\
  (("cinder", Some "1") ∉ calls fr) /\
  revisions fr !! "0" = Some "c0".
Proof.
  intros revs fr.
  destruct (@existing_revisions_kept unit Stub.three_revisions "cinder" revs tt)
    as (_ & Hcalls & Hkept).
  split; [|split].
  - apply Hkept; [|reflexivity].
    intros n w' _. apply three_revisions_echo, str_nonempty.
  - apply Hcalls. by exists "old".
  - vm_compute. reflexivity.
Defined.

(** C4, as stated, fails: with revision 1 stored as [old], a registry that
    answers the request for revision 0 with revision 1 makes the loop store
    the new commit over the old one. *)
Lemma existing_revision_overwritten :
  let revs : gmap string string := {[ "1" := "old" ]} in
  let fr :=
    (@update_charm_revisions unit Stub.answers_another_revision
       "cinder" revs tt).1 in
  revs !! "1" = Some "old" /\ revisions fr !! "1" = Some "new".
Proof. vm_compute. done. Qed.

(** C3. The code at the failing input: when the registry does not know the
    charm, the first fetch gives the empty pair, the empty key is stored
    with the empty commit, and [int('')] raises [ValueError]; the call does
    not return. *)
Theorem empty_latest_fetch_raises :
  @get_revision_commit unit Stub.unknown_charm "cinder" None tt
    = (("", ""), tt) /\
  (@update_charm_revisions unit Stub.unknown_charm "cinder" ∅ tt).2
    = Raise (ValueError "") /\
  revisions (@update_charm_revisions unit Stub.unknown_charm "cinder" ∅ tt).1
    = {[ "" := "" ]}.
Proof. vm_compute. done. Qed.

(** C5. The code at the failing input: the latest revision 15 comes back
    without a commit, and the first write stores the empty commit under the
    key 15 (the call returns 1, so the caller saves the document). The
    writes of the loop, in contrast, are never empty. *)
Theorem latest_revision_written_with_empty_commit :
  @get_revision_commit unit Stub.latest_without_commit "cinder" None tt
    = (("15", ""), tt) /\
  (@update_charm_revisions unit Stub.latest_without_commit "cinder" ∅ tt).2
    = Ok 1%Z /\
  revisions
    (@update_charm_revisions unit Stub.latest_without_commit "cinder" ∅ tt).1
    !! "15" = Some "" /\
  (forall (World : Type) (R : Registry World) charm n (fr : frame World) k v,
     revisions (walk charm n fr).1 !! k = Some v ->
     revisions fr !! k = Some v \/ (k <> "" /\ v <> "")).
Proof.
  split; [vm_compute; done|]. split; [vm_compute; done|].
  split; [vm_compute; done|].
  intros World R charm n fr k v. apply walk_writes_nonempty.
Qed.

(** ** The fetcher: [get_revision_commit] *)


Section Fetcher.

Context {World : Type} `{!Raw.Registry World}.


End Fetcher.



(** The two readings of the repo-info document agree. *)
Lemma repo_info_commit_line (lines : list string) :
  repo_info_commit lines = default "" (repo_info_line lines).
Proof.
  induction lines as [|line rest IH]; simpl; [done|].
  destruct (contains ":" (strip line)); [|done].
  destruct (split_once ":" (strip line)) as [key value].
  by case_bool_decide.
Qed.

(** On an answer of the documented shape, the fetcher on values returns
    what the fetcher on [meta_any] returns, in the same world: the model of
    the reconciler is the script on such answers. (The repo-info request,
    when one is made, is supposed to return.) *)
Lemma get_revision_commit_documented {World : Type} (R : Raw.Registry World)
    (charm : string) (rev : option string) (w w1 : World)
    (data : Json.value) (m : meta_any) :
  Raw.get_url_output_json (meta_url (request_name charm rev)) w
    = (Ok data, w1) ->
  documented data = Some m ->
  (forall url w', exists text w'',
     Raw.get_url_output_text url w' = (Ok text, w'')) ->
  Raw.get_revision_commit charm rev w =
    (Ok ((@get_revision_commit World (typed R) charm rev w).1.1,
         Json.Str (@get_revision_commit World (typed R) charm rev w).1.2),
     (@get_revision_commit World (typed R) charm rev w).2).
Proof.
  intros Hanswer Hdoc Htext.
  unfold Raw.get_revision_commit, get_revision_commit.
  cbn [get_url_output_json typed]. rewrite Hanswer. cbn [mbind result_bind].
  rewrite Hdoc. cbn [default].
  destruct data as [| | | | |fields]; try done.
  unfold documented in Hdoc.
  assert (Hid : Json.get "Id" (Json.Obj fields)
                = Ok (default Json.Null (Dict.get "Id" fields))) by done.
  unfold Raw.answered. rewrite Hid. clear Hid.
  destruct (Dict.get "Id" fields) as [[| | |id| |]|] eqn:HId;
    simpl in Hdoc; try done.
  - (* Id is null *)
    destruct (match Raw.vcs_revisions_of (Json.Obj fields) with
              | Ok (Json.Arr entries) => mapM entry_commit entries
              | Ok (Json.Obj []) => Some []
              | _ => None
              end); [|done].
    simpl in Hdoc. by injection Hdoc as <-.
  - (* Id is a string *)
    unfold Raw.vcs_commit.
    destruct (Raw.vcs_revisions_of (Json.Obj fields))
      as [[| | | |entries|[|? ?]]|e]; try done.
    + (* a list of entries *)
      destruct entries as [|entry entries].
      * simpl in Hdoc. injection Hdoc as <-. simpl.
        destruct id as [|c id]; [done|]. cbn [Json.truthy Py.truthy andb].
        cbn [Json.has mbind result_bind].
        destruct (contains "-" (String c id)); [|done]. cbn [mret result_ret].
        cbn [Json.rsplit_last mbind result_bind Json.truthy Py.truthy].
        destruct (Htext (repo_info_url charm
                   (rsplit_last "-" (String c id))) w1) as (text' & w2' & Ht').
        rewrite Ht'. simpl. rewrite repo_info_commit_line.
        by destruct (repo_info_line (splitlines (strip text'))).
      * simpl in Hdoc.
        destruct entry as [| | | | |e]; try done.
        simpl in Hdoc.
        destruct (Dict.get "commit" e) as [[| | |commit| |]|] eqn:Hc;
          try done.
        simpl in Hdoc.
        destruct (mapM entry_commit entries) as [commits|]; [|done].
        simpl in Hdoc. injection Hdoc as <-. simpl.
        destruct id as [|c id]; [done|]. cbn [Json.truthy Py.truthy andb].
        cbn [Json.has mbind result_bind].
        destruct (contains "-" (String c id)); [|done]. cbn [mret result_ret].
        cbn [Json.rsplit_last mbind result_bind Json.truthy Py.truthy
             Json.first].
        unfold Json.get, Json.get_or. rewrite Hc.
        cbn -[repo_info_url rsplit_last splitlines strip].
        destruct (truthy commit) eqn:Htruthy; [done|].
        destruct (Htext (repo_info_url charm
                   (rsplit_last "-" (String c id))) w1) as (text' & w2' & Ht').
        rewrite Ht'. simpl. rewrite repo_info_commit_line.
        destruct commit; [|done].
        by destruct (repo_info_line (splitlines (strip text'))).
    + (* no entry *)
      simpl in Hdoc. injection Hdoc as <-. simpl.
      destruct id as [|c id]; [done|]. cbn [Json.truthy Py.truthy andb].
      cbn [Json.has mbind result_bind].
      destruct (contains "-" (String c id)); [|done]. cbn [mret result_ret].
      cbn [Json.rsplit_last mbind result_bind Json.truthy Py.truthy].
      destruct (Htext (repo_info_url charm
                 (rsplit_last "-" (String c id))) w1) as (text' & w2' & Ht').
      rewrite Ht'. simpl. rewrite repo_info_commit_line.
      by destruct (repo_info_line (splitlines (strip text'))).
  - (* no Id *)
    destruct (match Raw.vcs_revisions_of (Json.Obj fields) with
              | Ok (Json.Arr entries) => mapM entry_commit entries
              | Ok (Json.Obj []) => Some []
              | _ => None
              end); [|done].
    simpl in Hdoc. by injection Hdoc as <-.
Qed.

(** ** Dictionaries *)

Section DictFacts.

Context {V : Type}.

Implicit Types (d : Dict.t V) (k : string) (v : V).

Lemma dict_get_set k k' v d :
  Dict.get k (Dict.set k' v d) =
    if bool_decide (k' = k) then Some v else Dict.get k d.
Proof.
  induction d as [|[k0 v0] d IH]; simpl.
  - by case_bool_decide.
  - destruct (bool_decide (k0 = k')) eqn:E0; simpl.
    + apply bool_decide_eq_true_1 in E0 as ->. by case_bool_decide.
    + rewrite IH. apply bool_decide_eq_false_1 in E0.
      repeat case_bool_decide; congruence.
Qed.

Lemma dict_get_set_eq k v d : Dict.get k (Dict.set k v d) = Some v.
Proof. rewrite dict_get_set. by rewrite bool_decide_eq_true_2. Qed.

Lemma dict_get_set_ne k k' v d :
  k' <> k -> Dict.get k (Dict.set k' v d) = Dict.get k d.
Proof. intros. rewrite dict_get_set. by rewrite bool_decide_eq_false_2. Qed.

(** A key with a value is the key of an item, and the other way round. *)
Lemma dict_get_Some_In k v d : Dict.get k d = Some v -> In (k, v) d.
Proof.
  induction d as [|[k0 v0] d IH]; simpl; [done|].
  case_bool_decide as E; [intros [= ->]; subst; by left|].
  intros H. right. by apply IH.
Qed.

Lemma dict_In_get k v d : In (k, v) d -> is_Some (Dict.get k d).
Proof.
  induction d as [|[k0 v0] d IH]; simpl; [done|].
  intros [[= -> ->]|Hin].
  - rewrite bool_decide_eq_true_2 by done. by eexists.
  - case_bool_decide; [by eexists|by apply IH].
Qed.

End DictFacts.

(** ** The derivation: [update_branch_revision] *)

(** The first loop gives every charm of the revision document an entry, and
    no other charm. *)
Lemma charms_commit_revision_keys_from (items acc cr : doc) charm :
  for_each charm_commit_revision items acc = Ok cr ->
  is_Some (Dict.get charm cr) <->
  is_Some (Dict.get charm acc) \/ is_Some (Dict.get charm items).
Proof.
  revert acc. induction items as [|[c revisions] items IH]; intros acc; simpl.
  - intros [= ->]. split; [by left|]. by intros [?|[? ?]].
  - destruct (commit_revision revisions) as [commits|e]; simpl; [|done].
    intros H. rewrite (IH _ H), dict_get_set.
    case_bool_decide; split; intros [?|?]; eauto.
Qed.

Lemma charms_commit_revision_keys (revision_commit cr : doc) charm :
  charms_commit_revision revision_commit = Ok cr ->
  is_Some (Dict.get charm cr) <-> is_Some (Dict.get charm revision_commit).
Proof.
  intros H. rewrite (charms_commit_revision_keys_from _ _ _ _ H). simpl.
  split; [by intros [[? ?]|?]|by right].
Qed.

(** The branches of a charm that has an entry never raise. *)
Lemma branch_revision_steps_ok (cr : doc) charm commits branches acc :
  Dict.get charm cr = Some commits ->
  exists dbr, for_each (branch_revision_step cr charm) branches acc = Ok dbr.
Proof.
  intros Hc. revert acc.
  induction branches as [|[branch commit] branches IH]; intros acc; simpl.
  - by eexists.
  - rewrite Hc. simpl. apply IH.
Qed.

(** The first branch of a charm that has no entry raises. *)
Lemma branch_revision_steps_raise (cr : doc) charm branches acc :
  Dict.get charm cr = None -> branches <> [] ->
  for_each (branch_revision_step cr charm) branches acc
    = Raise (KeyError charm).
Proof.
  intros Hc Hne. destruct branches as [|[branch commit] branches]; [done|].
  simpl. by rewrite Hc.
Qed.

Lemma charms_branch_revision_from (cr items data : doc) :
  match for_each (charm_branch_revision cr) items data with
  | Ok _ => forall item, In item items -> ~ orphan cr item
  | Raise (KeyError c) => exists bs, In (c, bs) items /\ orphan cr (c, bs)
  | Raise _ => False
  end.
Proof.
  revert data. induction items as [|[c bs] items IH]; intros data; simpl.
  - by intros item [].
  - destruct (Dict.get c cr) as [commits|] eqn:Hc.
    + destruct (branch_revision_steps_ok cr c commits bs [] Hc) as [dbr ->].
      simpl. specialize (IH (Dict.set c dbr data)).
      destruct (for_each (charm_branch_revision cr) items _)
        as [?|[?|c'| | | |?]]; try done.
      * intros item [<-|Hin]; [|by apply IH].
        intros [_ Habs]. simpl in Habs. congruence.
      * destruct IH as (bs' & Hin & Ho). exists bs'. by split; [right|].
    + destruct bs as [|b bs].
      * simpl. specialize (IH (Dict.set c [] data)).
        destruct (for_each (charm_branch_revision cr) items _)
          as [?|[?|c'| | | |?]]; try done.
        -- intros item [<-|Hin]; [|by apply IH]. by intros [Habs _].
        -- destruct IH as (bs' & Hin & Ho). exists bs'. by split; [right|].
      * rewrite branch_revision_steps_raise by done. simpl.
        exists (b :: bs). split; [by left|]. by split.
Qed.

(** The call never leaves a store other than the one it found or the one
    with the new document. *)
Lemma update_branch_revision_unfold (s : store) :
  update_branch_revision s =
    match charms_commit_revision (FILE_REVISION_COMMIT s) with
    | Ok cr =>
        match charms_branch_revision cr (FILE_BRANCH_COMMIT s) with
        | Ok data =>
            (Store (FILE_BRANCH_COMMIT s) (FILE_REVISION_COMMIT s)
                   (pretty_json data), Ok tt)
        | Raise e => (s, Raise e)
        end
    | Raise e => (s, Raise e)
    end.
Proof.
  unfold update_branch_revision, branch_revision_data.
  by destruct (charms_commit_revision (FILE_REVISION_COMMIT s)).
Qed.

(** C10 (amended). With [BCM] the branch document and [RCM] the revision
    document: (1) [update_branch_revision] succeeds only when every
    component of [BCM] that has at least one branch is a key of [RCM];
    (2) when some component of [BCM] with at least one branch is no key of
    [RCM], the call raises and leaves the store as it was, and the exception
    is a [KeyError] for such a component as soon as the first loop went
    through (every revision key is an integer); (3) when the first loop went
    through and every component with a branch is a key of [RCM], the call
    succeeds, so a component without branches needs no entry in [RCM]. *)
Theorem branch_revision_needs_revisions (s : store) :
  let BCM := FILE_BRANCH_COMMIT s in
  let RCM := FILE_REVISION_COMMIT s in
  let out := update_branch_revision s in
  (out.2 = Ok tt ->
   forall c bs, In (c, bs) BCM -> bs <> [] -> is_Some (Dict.get c RCM)) /\
  (forall c bs, In (c, bs) BCM -> bs <> [] -> Dict.get c RCM = None ->
   out.1 = s /\
   exists e, out.2 = Raise e /\
     ((exists cr, charms_commit_revision RCM = Ok cr) ->
      exists c' bs', e = KeyError c' /\ In (c', bs') BCM /\ bs' <> [] /\
                     Dict.get c' RCM = None)) /\
  ((exists cr, charms_commit_revision RCM = Ok cr) ->
   (forall c bs, In (c, bs) BCM -> bs <> [] -> is_Some (Dict.get c RCM)) ->
   out.2 = Ok tt).
Proof.
  intros BCM RCM out. subst out. rewrite update_branch_revision_unfold.
  fold BCM RCM.
  destruct (charms_commit_revision RCM) as [cr|e0] eqn:Hcr.
  - assert (Hkeys : forall c, Dict.get c cr = None <-> Dict.get c RCM = None).
    { intros c. rewrite !eq_None_not_Some.
      by rewrite (charms_commit_revision_keys RCM cr c Hcr). }
    pose proof (charms_branch_revision_from cr BCM []) as Hloop.
    fold (charms_branch_revision cr BCM) in Hloop.
    destruct (charms_branch_revision cr BCM) as [data|[msg|c'| | | |msg]];
      simpl; try done.
    + split; [|split; [|done]].
      * intros _ c bs Hin Hbs. apply not_eq_None_Some. intros Hnone.
        apply (Hloop (c, bs) Hin). split; [done|]. by apply Hkeys.
      * intros c bs Hin Hbs Hnone. destruct (Hloop (c, bs) Hin).
        split; [done|]. by apply Hkeys.
    + destruct Hloop as (bs' & Hin' & Hbs' & Hnone'). simpl in *.
      split; [done|split].
      * intros c bs Hin Hbs Hnone. split; [done|].
        exists (KeyError c'). split; [done|]. intros _.
        exists c', bs'. repeat split; try done. by apply Hkeys.
      * intros _ Hall. destruct (Hall c' bs' Hin' Hbs') as [x Hx].
        apply Hkeys in Hnone'. congruence.
  - simpl. split; [done|split].
    + intros c bs Hin Hbs Hnone. split; [done|].
      exists e0. split; [done|]. by intros [? ?].
    + by intros [? ?].
Qed.

(** C10, as stated, fails: a component without branches that is no key of
    the revision document does not make the call raise; it is stored with
    an empty dictionary. *)
Lemma component_without_branches_succeeds :
  let s := Store [("foo", [])] [] "" in
  In "foo" (Dict.keys (FILE_BRANCH_COMMIT s)) /\
  ~ In "foo" (Dict.keys (FILE_REVISION_COMMIT s)) /\
  branch_revision_data s = Ok [("foo", [])] /\
  (update_branch_revision s).2 = Ok tt.
Proof. vm_compute. split; [by left|]. split; [by intros []|done]. Qed.

(** A component with a branch and no revisions: the call raises [KeyError]
    and the document stays as it was. *)
Lemma branch_revision_needs_revisions_witness :
  let s := Store [("foo", [("20.05", "c0ffee")])] [] "old text" in
  update_branch_revision s = (s, Raise (KeyError "foo")).
Proof.
  intros s.
  destruct (branch_revision_needs_revisions s) as (_ & Hraise & _).
  destruct (Hraise "foo" [("20.05", "c0ffee")]) as (Hs & e & He & Hkey);
    [by left|done|reflexivity|].
  destruct Hkey as (c' & bs' & -> & [[= <- <-]|[]] & _); [by eexists|].
  by destruct (update_branch_revision s) as [s' r]; simpl in *; subst.
Defined.

(** C6. The scenario: with [{cinder: {20.05: C1}}] as branches and
    [{cinder: {10: C1, 9: C0}}] as revisions, the derived dictionary is
    [{cinder: {20.05: 10}}] and the document saved is its JSON text. And the
    pass is idempotent: it leaves the two documents it reads as they are,
    and a second run on the store the first one left ends the same way with
    the same store, so with the same bytes in the saved document. *)
Theorem branch_revision_example_and_idempotence :
  (let s := Store [("cinder", [("20.05", "C1")])]
                  [("cinder", [("10", "C1"); ("9", "C0")])] "" in
   branch_revision_data s = Ok [("cinder", [("20.05", "10")])] /\
   (update_branch_revision s).2 = Ok tt /\
   FILE_BRANCH_REVISION (update_branch_revision s).1 =
     "{" +:+ newline +:+
     "    " +:+ quote +:+ "cinder" +:+ quote +:+ ": {" +:+ newline +:+
     "        " +:+ quote +:+ "20.05" +:+ quote +:+ ": "
                +:+ quote +:+ "10" +:+ quote +:+ newline +:+
     "    }" +:+ newline +:+
     "}") /\
  (forall s : store,
     FILE_BRANCH_COMMIT (update_branch_revision s).1 = FILE_BRANCH_COMMIT s /\
     FILE_REVISION_COMMIT (update_branch_revision s).1
       = FILE_REVISION_COMMIT s /\
     update_branch_revision (update_branch_revision s).1
       = update_branch_revision s).
Proof.
  split; [vm_compute; done|].
  intros s. rewrite (update_branch_revision_unfold s).
  destruct (charms_commit_revision (FILE_REVISION_COMMIT s)) as [cr|e] eqn:Hcr.
  - destruct (charms_branch_revision cr (FILE_BRANCH_COMMIT s))
      as [data|e] eqn:Hdata.
    + simpl. repeat split. rewrite update_branch_revision_unfold. simpl.
      by rewrite Hcr, Hdata.
    + simpl. repeat split. rewrite update_branch_revision_unfold.
      by rewrite Hcr, Hdata.
  - simpl. repeat split. rewrite update_branch_revision_unfold.
    by rewrite Hcr.
Qed.

(** One item more keeps [newest_revisions]. *)
Lemma commit_revision_step_newest (seen acc acc' : Dict.t string)
    (rev commit : string) :
  newest_revisions seen acc ->
  commit_revision_step acc (rev, commit) = Ok acc' ->
  newest_revisions (seen ++ [(rev, commit)]) acc'.
Proof.
  intros [Hmax Hall]. unfold commit_revision_step.
  destruct (int rev) as [n|e] eqn:Hn; simpl; [|done].
  destruct (Dict.get commit acc) as [r0|] eqn:Hget.
  - (* the commit has an entry [r0], of number [n0] *)
    destruct (Hmax _ _ Hget) as (Hin0 & n0 & Hn0 & Hpos0 & Hle0).
    rewrite Hn0. simpl. intros [= <-].
    destruct (Z.ltb_spec n0 n) as [Hlt|Hge]; split.
    + intros c r. rewrite dict_get_set. case_bool_decide as Hc.
      * intros Hr. simplify_eq. split; [apply in_app_iff; right; by left|].
        exists n. repeat split; [done|lia|].
        intros r' n' Hin' Hn'. apply in_app_iff in Hin'.
        destruct Hin' as [Hin'|[Heq|[]]].
        -- specialize (Hle0 _ _ Hin' Hn'). lia.
        -- simplify_eq. assert (n' = n) by congruence. lia.
      * intros Hr. destruct (Hmax _ _ Hr) as (Hin & m & Hm & Hpos & Hle).
        split; [apply in_app_iff; by left|].
        exists m. repeat split; [done|done|].
        intros r' n' Hin' Hn'. apply in_app_iff in Hin'.
        destruct Hin' as [Hin'|[Heq|[]]]; [by eapply Hle|]. by simplify_eq.
    + intros r' c n' Hin' Hn' Hpos. rewrite dict_get_set.
      case_bool_decide; [by eexists|].
      apply in_app_iff in Hin'. destruct Hin' as [Hin'|[Heq|[]]];
        [by eapply Hall|by simplify_eq].
    + intros c r Hr. destruct (Hmax _ _ Hr) as (Hin & m & Hm & Hpos & Hle).
      split; [apply in_app_iff; by left|].
      exists m. repeat split; [done|done|].
      intros r' n' Hin' Hn'. apply in_app_iff in Hin'.
      destruct Hin' as [Hin'|[Heq|[]]]; [by eapply Hle|]. simplify_eq.
      assert (n' = n) by congruence. assert (m = n0) by congruence. lia.
    + intros r' c n' Hin' Hn' Hpos.
      apply in_app_iff in Hin'. destruct Hin' as [Hin'|[Heq|[]]];
        [by eapply Hall|]. simplify_eq. by eexists.
  - (* the commit has no entry: no seen item of it has a positive number *)
    assert (Hle0 : forall r' n', In (r', commit) seen -> int r' = Ok n' ->
              (n' <= 0)%Z).
    { intros r' n' Hin' Hn'. destruct (Z_lt_le_dec 0 n') as [Hpos|]; [|done].
      destruct (Hall _ _ _ Hin' Hn' Hpos) as [x Hx]. congruence. }
    simpl. intros [= <-].
    destruct (Z.ltb_spec 0 n) as [Hlt|Hge]; split.
    + intros c r. rewrite dict_get_set. case_bool_decide as Hc.
      * intros Hr. simplify_eq. split; [apply in_app_iff; right; by left|].
        exists n. repeat split; [done|lia|].
        intros r' n' Hin' Hn'. apply in_app_iff in Hin'.
        destruct Hin' as [Hin'|[Heq|[]]].
        -- specialize (Hle0 _ _ Hin' Hn'). lia.
        -- simplify_eq. assert (n' = n) by congruence. lia.
      * intros Hr. destruct (Hmax _ _ Hr) as (Hin & m & Hm & Hpos & Hle).
        split; [apply in_app_iff; by left|].
        exists m. repeat split; [done|done|].
        intros r' n' Hin' Hn'. apply in_app_iff in Hin'.
        destruct Hin' as [Hin'|[Heq|[]]]; [by eapply Hle|]. by simplify_eq.
    + intros r' c n' Hin' Hn' Hpos. rewrite dict_get_set.
      case_bool_decide; [by eexists|].
      apply in_app_iff in Hin'. destruct Hin' as [Hin'|[Heq|[]]];
        [by eapply Hall|by simplify_eq].
    + intros c r Hr. destruct (Hmax _ _ Hr) as (Hin & m & Hm & Hpos & Hle).
      split; [apply in_app_iff; by left|].
      exists m. repeat split; [done|done|].
      intros r' n' Hin' Hn'. apply in_app_iff in Hin'.
      destruct Hin' as [Hin'|[Heq|[]]]; [by eapply Hle|]. simplify_eq.
    + intros r' c n' Hin' Hn' Hpos.
      apply in_app_iff in Hin'. destruct Hin' as [Hin'|[Heq|[]]];
        [by eapply Hall|]. simplify_eq. assert (n' = n) by congruence. lia.
Qed.

Lemma commit_revision_newest_from (seen items acc commits : Dict.t string) :
  newest_revisions seen acc ->
  for_each commit_revision_step items acc = Ok commits ->
  newest_revisions (seen ++ items) commits.
Proof.
  revert seen acc. induction items as [|[rev commit] items IH];
    intros seen acc Hinv; cbn [for_each].
  - intros [= <-]. by rewrite app_nil_r.
  - destruct (commit_revision_step acc (rev, commit)) as [acc'|e] eqn:Hstep;
      simpl; [|done].
    intros Hrest.
    replace (seen ++ (rev, commit) :: items)%list
      with ((seen ++ [(rev, commit)]) ++ items)%list
      by (by rewrite <- app_assoc).
    eapply IH; [|done]. by eapply commit_revision_step_newest.
Qed.

(** The inversion of one charm's revisions takes, for every commit that some
    revision of positive number produced, a revision of the largest number;
    a commit that only revisions of number 0 or less produced gets no
    entry. *)
Lemma commit_revision_newest (revisions commits : Dict.t string) :
  commit_revision revisions = Ok commits ->
  newest_revisions revisions commits.
Proof.
  intros H. apply (commit_revision_newest_from [] revisions [] commits);
    [|done].
  split; [done|]. by intros r' c n' [].
Qed.

Lemma for_each_cons_ok {A S : Type} (body : S -> A -> result S) x r s s' :
  body s x = Ok s' -> for_each body (x :: r) s = for_each body r s'.
Proof. intros H. cbn [for_each]. by rewrite H. Qed.

Lemma branch_revision_step_present (cr : doc) charm commits acc branch commit :
  Dict.get charm cr = Some commits ->
  branch_revision_step cr charm acc (branch, commit) =
    Ok (if truthy (default "" (Dict.get commit commits))
        then Dict.set branch (default "" (Dict.get commit commits)) acc
        else acc).
Proof. intros Hc. unfold branch_revision_step. by rewrite Hc. Qed.

(** The second loop stores a branch only with a non-empty revision, the one
    [commits] holds for a commit of that branch: a branch whose commit has
    no revision is left out. *)
Lemma branch_revision_steps_sound (cr : doc) charm commits branches acc dbr :
  Dict.get charm cr = Some commits ->
  for_each (branch_revision_step cr charm) branches acc = Ok dbr ->
  forall branch r, Dict.get branch dbr = Some r ->
    Dict.get branch acc = Some r \/
    (r <> "" /\ exists commit,
       In (branch, commit) branches /\ Dict.get commit commits = Some r).
Proof.
  intros Hc. revert acc.
  induction branches as [|[b commit] branches IH]; intros acc.
  - intros [= <-] branch r Hr. by left.
  - rewrite (for_each_cons_ok _ _ _ _ _
               (branch_revision_step_present cr charm commits acc b commit Hc)).
    intros Hrest branch r Hr.
    destruct (IH _ Hrest branch r Hr) as [Hacc|(Hne & c' & Hin & Hget)].
    + destruct (Dict.get commit commits) as [rev|] eqn:Hrev; simpl in Hacc;
        [|by left].
      destruct rev as [|a rev]; simpl in Hacc; [by left|].
      rewrite dict_get_set in Hacc. case_bool_decide; [|by left].
      simplify_eq. right. split; [done|]. exists commit. split; [by left|done].
    + right. split; [done|]. exists c'. split; [by right|done].
Qed.

(** A branch whose commit has a non-empty revision is stored. *)
Lemma branch_revision_steps_complete (cr : doc) charm commits branches acc dbr :
  Dict.get charm cr = Some commits ->
  for_each (branch_revision_step cr charm) branches acc = Ok dbr ->
  forall branch,
    is_Some (Dict.get branch acc) \/
    (exists commit r, In (branch, commit) branches /\
       Dict.get commit commits = Some r /\ r <> "") ->
    is_Some (Dict.get branch dbr).
Proof.
  intros Hc. revert acc.
  induction branches as [|[b commit] branches IH]; intros acc.
  - intros [= <-] branch [?|(? & ? & [] & _)]. done.
  - rewrite (for_each_cons_ok _ _ _ _ _
               (branch_revision_step_present cr charm commits acc b commit Hc)).
    intros Hrest branch Hbranch. apply (IH _ Hrest).
    destruct Hbranch as [Hacc|(c' & r & [Heq|Hin] & Hget & Hne)].
    + left. destruct (truthy _); [|done].
      rewrite dict_get_set. by case_bool_decide.
    + simplify_eq. left. rewrite Hget. simpl.
      destruct r; [done|]. simpl. rewrite dict_get_set_eq. by eexists.
    + right. by exists c', r.
Qed.

(** C1. The code at the failing input: a commit that only revision 0
    produced gets no revision, so its branch is left out, where the claim
    asks for revision 0. On the example of the claim, commit X resolves to
    revision 2 and commit Y, of revision 0, to nothing. For revisions of
    positive number the inversion does take the largest
    ([newest_revisions]). *)
Theorem revision_zero_is_never_chosen :
  commit_revision [("0", "Y")] = Ok [] /\
  branch_revision_data
    (Store [("cinder", [("20.05", "Y")])] [("cinder", [("0", "Y")])] "")
    = Ok [("cinder", [])] /\
  commit_revision [("1", "X"); ("2", "X"); ("0", "Y")] = Ok [("X", "2")] /\
  (forall revisions commits : Dict.t string,
     commit_revision revisions = Ok commits ->
     newest_revisions revisions commits).
Proof.
  split; [vm_compute; done|]. split; [vm_compute; done|].
  split; [vm_compute; done|]. apply commit_revision_newest.
Qed.

(** ** The upgrade order and the report *)

Lemma position_None x (l : list string) : x ∉ l -> position x l = None.
Proof.
  induction l as [|y l IH]; [done|]. rewrite not_elem_of_cons.
  intros [Hne Hnot]. simpl. rewrite bool_decide_eq_false_2 by done.
  by rewrite IH.
Qed.

Lemma position_range x (l : list string) j :
  position x l = Some j -> (0 <= j < Z.of_nat (length l))%Z.
Proof.
  revert j. induction l as [|y l IH]; intros j; simpl; [done|].
  case_bool_decide; [intros [= <-]; lia|].
  destruct (position x l) as [i|]; simpl; [|done].
  intros [= <-]. specialize (IH i eq_refl). lia.
Qed.

(** The comprehension over a catalog without repetition maps a component to
    its position. *)
Lemma index_dict_lookup (l : list string) (i : Z) (d : gmap string Z) x :
  NoDup l ->
  foldl (fun d p => <[p.2 := p.1]> d) d (enumerate_from i l) !! x =
    match position x l with
    | Some j => Some (i + j)%Z
    | None => d !! x
    end.
Proof.
  intros Hnd. revert i d.
  induction Hnd as [|y l Hnot Hnd IH]; intros i d; simpl; [done|].
  rewrite IH. case_bool_decide as Hy.
  - subst y. rewrite position_None by done. simpl.
    rewrite lookup_insert_eq. f_equal. lia.
  - destruct (position x l) as [j|]; simpl; [f_equal; lia|].
    by rewrite lookup_insert_ne.
Qed.

Lemma catalog_NoDup : NoDup (OPENSTACK_CHAMRS ++ LMA_CHARMS).
Proof. apply (bool_decide_unpack _). vm_compute. exact I. Qed.

Lemma order_of_position (c : string) :
  order_of c = default ORDER_MAX (position c (OPENSTACK_CHAMRS ++ LMA_CHARMS)).
Proof.
  unfold order_of, ORDERS, index_dict, enumerate.
  rewrite (index_dict_lookup _ _ _ _ catalog_NoDup).
  destruct (position c _); simpl; [f_equal; lia|done].
Qed.

(** Insertion and sorting keep the elements. *)
Lemma insert_by_order_perm a l : insert_by_order a l ≡ₚ a :: l.
Proof.
  induction l as [|b l IH]; simpl; [done|].
  destruct (order a <=? order b)%Z; [done|].
  rewrite IH. apply Permutation_swap.
Qed.

Lemma sorted_by_order_perm l : sorted_by_order l ≡ₚ l.
Proof.
  induction l as [|a l IH]; simpl; [done|].
  fold (sorted_by_order l). by rewrite insert_by_order_perm, IH.
Qed.

(** Insertion and sorting give a list in ascending order. *)
Lemma insert_by_order_sorted a l :
  StronglySorted (fun x y => (order x <= order y)%Z) l ->
  StronglySorted (fun x y => (order x <= order y)%Z) (insert_by_order a l).
Proof.
  induction 1 as [|b l Hl IH Hb]; simpl.
  - constructor; [constructor|done].
  - destruct (Z.leb_spec (order a) (order b)) as [Hle|Hgt].
    + constructor; [by constructor|].
      constructor; [done|].
      eapply Forall_impl; [exact Hb|]. simpl. intros; lia.
    + constructor; [done|].
      rewrite insert_by_order_perm. constructor; [lia|done].
Qed.

Lemma sorted_by_order_sorted l :
  StronglySorted (fun x y => (order x <= order y)%Z) (sorted_by_order l).
Proof.
  induction l as [|a l IH]; simpl; [constructor|].
  by apply insert_by_order_sorted.
Qed.

Lemma StronglySorted_lookup_le (l : list application) i j a b :
  StronglySorted (fun x y => (order x <= order y)%Z) l ->
  l !! i = Some a -> l !! j = Some b -> (i < j)%nat ->
  (order a <= order b)%Z.
Proof.
  intros Hl. revert i j. induction Hl as [|x l Hl IH Hx]; intros i j;
    [done|].
  destruct i as [|i], j as [|j]; simpl; try lia.
  - intros [= <-] Hb _. rewrite Forall_lookup in Hx. by eapply Hx.
  - intros Ha Hb Hij. apply (IH i j); [done|done|lia].
Qed.

(** Sorting is stable: the elements of one order keep their sequence. *)
Lemma insert_by_order_filter k a l :
  filter (fun x => order x = k) (insert_by_order a l) =
  filter (fun x => order x = k) (a :: l).
Proof.
  induction l as [|b l IH]; simpl; [done|].
  destruct (Z.leb_spec (order a) (order b)) as [Hle|Hgt]; [done|].
  rewrite !filter_cons in *. rewrite IH.
  repeat case_decide; try done; lia.
Qed.

Lemma sorted_by_order_filter k l :
  filter (fun x => order x = k) (sorted_by_order l) =
  filter (fun x => order x = k) l.
Proof.
  induction l as [|a l IH]; simpl; [done|].
  fold (sorted_by_order l). rewrite insert_by_order_filter.
  rewrite !filter_cons. by rewrite IH.
Qed.

Lemma make_app_order item :
  order (make_app item) = order_of (data_charm_name item.2).
Proof. by destruct item. Qed.

(** C8. (1) The order of a component is its 0-based position in the primary
    catalog followed by the auxiliary one, and [ORDER_MAX] when it is in
    neither; a position is below [ORDER_MAX], so the sentinel tells the
    unranked components apart. (2) In the report the orders ascend, so an
    application after an unranked one is unranked too, whatever the names
    are. (3) The report holds the applications of the status document, and
    those of equal order in the sequence the document has them. *)
Theorem order_is_position_and_unranked_last :
  (forall c : string,
     order_of c =
       default ORDER_MAX (position c (OPENSTACK_CHAMRS ++ LMA_CHARMS)) /\
     (order_of c = ORDER_MAX <->
        position c (OPENSTACK_CHAMRS ++ LMA_CHARMS) = None)) /\
  (forall (applications : Dict.t app_data) (i j : nat) (a b : application),
     report_apps applications !! i = Some a ->
     report_apps applications !! j = Some b ->
     (i < j)%nat ->
     (order a <= order b)%Z /\
     (order a = ORDER_MAX -> order b = ORDER_MAX)) /\
  (forall (applications : Dict.t app_data),
     report_apps applications ≡ₚ map make_app applications /\
     forall k : Z,
       filter (fun x => order x = k) (report_apps applications) =
       filter (fun x => order x = k) (map make_app applications)).
Proof.
  split; [|split].
  - intros c. split; [apply order_of_position|].
    rewrite order_of_position.
    destruct (position c _) as [j|] eqn:Hj; simpl; [|done].
    apply position_range in Hj. change (length _) with 52%nat in Hj.
    unfold ORDER_MAX. split; [lia|done].
  - intros applications i j a b Ha Hb Hij.
    assert (Hle : (order a <= order b)%Z).
    { eapply StronglySorted_lookup_le; [apply sorted_by_order_sorted|..];
        done. }
    split; [done|]. intros Hmax.
    assert (Hb' : b ∈ map make_app applications).
    { rewrite <- (sorted_by_order_perm (map make_app applications)).
      by eapply list_elem_of_lookup_2. }
    apply list_elem_of_fmap in Hb' as (item & -> & _).
    rewrite make_app_order in *.
    pose proof (order_of_position (data_charm_name item.2)) as Hpos.
    destruct (position _ _) as [p|] eqn:Hp; simpl in Hpos; [|done].
    apply position_range in Hp. change (length _) with 52%nat in Hp.
    unfold ORDER_MAX in *. lia.
  - intros applications. split; [apply sorted_by_order_perm|].
    intros k. apply sorted_by_order_filter.
Qed.

(** The report of [example_applications]: the application of [keystone]
    comes first although its name sorts last. *)
Lemma order_is_position_and_unranked_last_witness :
  map name (report_apps example_applications) = ["zzz"; "aaa"] /\
  (order_of "keystone" <= order_of "my-own-charm")%Z.
Proof.
  split; [vm_compute; reflexivity|].
  destruct (proj1 (proj2 order_is_position_and_unranked_last)
              example_applications 0%nat 1%nat
              (Application "zzz" "keystone" "cs:keystone-310" (RevInt 310)
                 (Some "cs:keystone-312") (order_of "keystone") 3)
              (Application "aaa" "my-own-charm" "local:my-own-charm-0"
                 (RevInt 0) None (order_of "my-own-charm") 1))
    as [Hle _]; [vm_compute; reflexivity|vm_compute; reflexivity|lia|].
  exact Hle.
Defined.

(** C9. With a truthy deployed revision (a non-empty string, or a number
    other than 0), [mark_revs] keeps the number of cells and puts the marker
    before exactly the cells that equal the deployed revision as strings;
    the other cells are unchanged. With a falsy one no cell is marked.
    Deployed at 10, the cell 10 of the last branch is the marked one. *)
Theorem mark_revs_marks_current (revs : list string) (current_rev : rev_value) :
  (rev_truthy current_rev = true ->
   length (mark_revs revs current_rev) = length revs /\
   forall (i : nat) (rev : string), revs !! i = Some rev ->
     mark_revs revs current_rev !! i =
       Some (if bool_decide (rev_str current_rev = rev)
             then "*" +:+ rev else rev)) /\
  (rev_truthy current_rev = false -> mark_revs revs current_rev = revs) /\
  mark_revs [""; "9"; ""; "100"; "10"] (RevInt 10)
    = [""; "9"; ""; "100"; "*10"] /\
  mark_revs [""; "9"; ""; "100"; "10"] (RevStr "10")
    = [""; "9"; ""; "100"; "*10"].
Proof.
  split; [|split; [|split; vm_compute; reflexivity]].
  - intros Ht. unfold mark_revs. rewrite Ht. split; [by rewrite length_map|].
    intros i rev Hi. rewrite list_lookup_fmap, Hi. simpl.
    unfold yesno. by case_bool_decide.
  - intros Hf. unfold mark_revs. by rewrite Hf.
Qed.

Lemma mark_revs_marks_current_witness :
  mark_revs ["12"; "10"] (RevInt 10) !! 1%nat = Some "*10" /\
  mark_revs ["12"; "10"] (RevInt 10) !! 0%nat = Some "12" /\
  mark_revs ["0"; "10"] (RevInt 0) = ["0"; "10"].
Proof.
  destruct (mark_revs_marks_current ["12"; "10"] (RevInt 10))
    as ([_ Hcell] & _); [reflexivity|].
  split; [exact (Hcell 1%nat "10" eq_refl)|].
  split; [exact (Hcell 0%nat "12" eq_refl)|].
  apply (mark_revs_marks_current ["0"; "10"] (RevInt 0)). reflexivity.
Defined.

(** * Further properties *)

(** ** The reconciler: what the returned count and the trace tell *)

Section ReconcilerAccounting.

Context {World : Type} `{!Registry World}.

Implicit Types (fr : frame World) (charm : string) (revs : gmap string string).

(** The count returned is the counter of the final frame. *)
Lemma update_charm_revisions_returns charm revs (w : World) n :
  (update_charm_revisions charm revs w).2 = Ok n ->
  n = changed (update_charm_revisions charm revs w).1.
Proof.
  unfold update_charm_revisions.
  destruct (latest_step charm revs w) as [rev fr].
  destruct (int rev) as [n_rev|e]; [|done].
  destruct (walk charm (Z.to_nat n_rev) fr) as [fr' fl]. simpl. congruence.
Qed.

(** One iteration: the counter never goes down, it moves by one with every
    write and only then, and the dictionary grows by one key at most. *)
Lemma walk_body_accounting charm revs n fr :
  (0 <= changed fr <= Z.of_nat (length (calls fr)))%Z /\
  (Z.of_nat (size (revisions fr)) <= Z.of_nat (size revs) + changed fr)%Z /\
  (changed fr = 0%Z -> revisions fr = revs) ->
  let fr' := (walk_body charm n fr).1 in
  (0 <= changed fr' <= Z.of_nat (length (calls fr')))%Z /\
  (Z.of_nat (size (revisions fr')) <= Z.of_nat (size revs) + changed fr')%Z /\
  (changed fr' = 0%Z -> revisions fr' = revs).
Proof.
  intros (Hc & Hsize & Hzero) fr'. subst fr'.
  destruct (decide (is_Some (revisions fr !! str n))) as [Hin|Hnew].
  { by rewrite walk_body_skip. }
  apply eq_None_not_Some in Hnew.
  destruct (is_hit (get_revision_commit charm (Some (str n)) (world fr)).1)
    eqn:Hhit.
  - rewrite walk_body_hit by done. simpl. rewrite length_app. simpl.
    split; [lia|]. split; [|lia].
    assert (Hins : forall k v (m : gmap string string),
              (size (<[k := v]> m) <= S (size m))%nat).
    { intros k v m. rewrite map_size_insert.
      destruct (m !! k); unfold id; lia. }
    specialize (Hins
      (get_revision_commit charm (Some (str n)) (world fr)).1.1
      (get_revision_commit charm (Some (str n)) (world fr)).1.2
      (revisions fr)). lia.
  - rewrite walk_body_miss by done. simpl. rewrite length_app. simpl.
    split; [lia|]. split; [lia|done].
Qed.

(** The results of a trace in two parts. *)
Lemma replay_app (trace1 trace2 : list (string * option string)) (w : World) :
  replay (trace1 ++ trace2) w =
    ((replay trace1 w).1 ++ (replay trace2 (replay trace1 w).2).1,
     (replay trace2 (replay trace1 w).2).2).
Proof.
  revert w. induction trace1 as [|[c r] trace1 IH]; intros w; simpl.
  - by destruct (replay trace2 w).
  - destruct (get_revision_commit c r w) as [rc w1]. rewrite IH.
    by destruct (replay trace1 w1).
Qed.

Lemma writes_of_snoc revs (results : list (string * string)) rc :
  results <> [] ->
  writes_of revs (results ++ [rc]) =
    writes_of revs results ++ (if is_hit rc then [rc] else []).
Proof.
  destruct results as [|latest rest]; [done|]. intros _. simpl.
  rewrite List.filter_app. simpl. rewrite <- app_assoc.
  by destruct (is_hit rc).
Qed.

Lemma walk_body_accounted charm revs (w : World) n fr :
  accounted revs w fr -> accounted revs w (walk_body charm n fr).1.
Proof.
  intros (Hne & Hworld & Hcount & Hrevs).
  destruct (decide (is_Some (revisions fr !! str n))) as [Hin|Hnew].
  { by rewrite walk_body_skip. }
  apply eq_None_not_Some in Hnew.
  assert (Hreplay : replay (calls fr ++ [(charm, Some (str n))]) w =
    ((replay (calls fr) w).1
       ++ [(get_revision_commit charm (Some (str n)) (world fr)).1],
     (get_revision_commit charm (Some (str n)) (world fr)).2)).
  { rewrite replay_app, Hworld. simpl.
    by destruct (get_revision_commit charm (Some (str n)) (world fr)). }
  destruct (is_hit (get_revision_commit charm (Some (str n)) (world fr)).1)
    eqn:Hhit.
  - rewrite walk_body_hit by done. unfold accounted. simpl.
    rewrite Hreplay. simpl. rewrite writes_of_snoc, Hhit by done.
    split; [by destruct (replay (calls fr) w).1|]. split; [done|].
    rewrite length_app, foldl_app, <- Hrevs. simpl. split; [lia|done].
  - rewrite walk_body_miss by done. unfold accounted. simpl.
    rewrite Hreplay. simpl. rewrite writes_of_snoc, Hhit, app_nil_r by done.
    split; [by destruct (replay (calls fr) w).1|]. done.
Qed.

(** X1. The count returned by [update_charm_revisions] is the number of
    writes it made. The writes are told from the results of the calls of
    the run, in order: the latest revision when it was a new key, and every
    success of the walk. The count is their number, and the dictionary at
    the end is the one at the start with these writes made in order. So the
    count is never negative and never above the number of requests made,
    the dictionary has at most that many keys more, and a count of 0 means
    that the dictionary is as it was: the caller, who saves the document
    only when the count is not 0, leaves no write unsaved. *)
Theorem changed_counts_the_writes charm revs (w : World) n :
  (update_charm_revisions charm revs w).2 = Ok n ->
  let fr := (update_charm_revisions charm revs w).1 in
  let writes := writes_of revs (replay (calls fr) w).1 in
  n = Z.of_nat (length writes) /\
  revisions fr = foldl (fun m rc => <[rc.1 := rc.2]> m) revs writes /\
  (0 <= n <= Z.of_nat (length (calls fr)))%Z /\
  (Z.of_nat (size (revisions fr)) <= Z.of_nat (size revs) + n)%Z /\
  (n = 0%Z -> revisions fr = revs).
Proof.
  intros Hn fr writes. subst fr writes.
  apply update_charm_revisions_returns in Hn. rewrite Hn.
  assert (Hacc : accounted revs w (update_charm_revisions charm revs w).1).
  { apply update_charm_revisions_frame.
    - rewrite latest_step_unfold. unfold accounted. simpl.
      destruct (get_revision_commit charm None w) as [[rev commit] w1].
      simpl. split; [done|]. split; [done|].
      case_bool_decide; simpl; done.
    - intros k fr. apply walk_body_accounted. }
  destruct Hacc as (_ & _ & Hcount & Hrevs).
  split; [done|]. split; [done|].
  apply (update_charm_revisions_frame (fun fr =>
    (0 <= changed fr <= Z.of_nat (length (calls fr)))%Z /\
    (Z.of_nat (size (revisions fr)) <= Z.of_nat (size revs) + changed fr)%Z /\
    (changed fr = 0%Z -> revisions fr = revs))).
  - rewrite latest_step_unfold. simpl. case_bool_decide as Hin; simpl.
    + split; [lia|]. split; [lia|done].
    + split; [lia|]. split; [|lia].
      rewrite map_size_insert_None; [lia|]. by apply eq_None_not_Some.
  - intros k fr. apply walk_body_accounting.
Qed.

End ReconcilerAccounting.

(** A run of four calls of which the first is the only success: the count
    is 1, not 4. *)
Lemma changed_counts_the_writes_witness :
  let fr := (@update_charm_revisions unit Stub.gap_below_latest "cinder"
               ∅ tt).1 in
  length (calls fr) = 4%nat /\
  1%Z = Z.of_nat (length (writes_of ∅
                            (@replay unit Stub.gap_below_latest
                               (calls fr) tt).1)) /\
  revisions fr = {[ "6" := "c6" ]}.
Proof.
  intros fr.
  destruct (@changed_counts_the_writes unit Stub.gap_below_latest "cinder"
              ∅ tt 1%Z) as (Hcount & Hrevs & _);
    [vm_compute; reflexivity|].
  split; [vm_compute; reflexivity|]. split; [exact Hcount|].
  etrans; [exact Hrevs|]. vm_compute. reflexivity.
Defined.

Section ReconcilerTrace.

Context {World : Type} `{!Registry World}.

Implicit Types (fr : frame World) (charm : string) (revs : gmap string string).

(** What one iteration does to the trace and to a stored key. *)
Lemma walk_body_trace charm n fr :
  (calls (walk_body charm n fr).1 = calls fr /\
   is_Some (revisions fr !! str n) /\ (walk_body charm n fr).2 = Continue) \/
  calls (walk_body charm n fr).1 = calls fr ++ [(charm, Some (str n))].
Proof.
  destruct (decide (is_Some (revisions fr !! str n))) as [Hin|Hnew].
  { left. by rewrite walk_body_skip. }
  apply eq_None_not_Some in Hnew. right.
  destruct (is_hit (get_revision_commit charm (Some (str n)) (world fr)).1)
    eqn:Hhit.
  - by rewrite walk_body_hit.
  - by rewrite walk_body_miss.
Qed.

Lemma walk_body_key_persists charm n fr k :
  is_Some (revisions fr !! k) ->
  is_Some (revisions (walk_body charm n fr).1 !! k).
Proof.
  intros Hk.
  destruct (decide (is_Some (revisions fr !! str n))) as [Hin|Hnew].
  { by rewrite walk_body_skip. }
  apply eq_None_not_Some in Hnew.
  destruct (is_hit (get_revision_commit charm (Some (str n)) (world fr)).1)
    eqn:Hhit.
  - rewrite walk_body_hit by done. simpl.
    rewrite lookup_insert_is_Some'. by right.
  - by rewrite walk_body_miss.
Qed.

(** The requests of the loop: one per revision at most, in descending
    order, all below the number the loop started from. *)
Lemma walk_trace charm k fr :
  exists ns : list Z,
    calls (walk charm k fr).1 =
      calls fr ++ map (fun n => (charm, Some (str n))) ns /\
    StronglySorted (fun a b => (b < a)%Z) ns /\
    Forall (fun n => (0 <= n < Z.of_nat k)%Z) ns.
Proof.
  revert fr. induction k as [|m IH]; intros fr.
  { exists []. simpl. rewrite app_nil_r. repeat split; constructor. }
  cbn [walk].
  destruct (walk_body_trace charm (Z.of_nat m) fr) as [(Hc & _ & Hfl)|Hc].
  - destruct (walk_body charm (Z.of_nat m) fr) as [fr' fl]. simpl in *.
    subst fl. destruct (IH fr') as (ns & Hns & Hsorted & Hbound).
    exists ns. rewrite Hns, Hc. repeat split; [done|].
    eapply Forall_impl; [exact Hbound|]. simpl. intros; lia.
  - destruct (walk_body charm (Z.of_nat m) fr) as [fr' fl]. simpl in *.
    destruct fl.
    + destruct (IH fr') as (ns & Hns & Hsorted & Hbound).
      exists (Z.of_nat m :: ns). rewrite Hns, Hc. simpl.
      rewrite <- app_assoc. repeat split; [|constructor; [lia|]].
      * constructor; [done|].
        eapply Forall_impl; [exact Hbound|]. simpl. intros; lia.
      * eapply Forall_impl; [exact Hbound|]. simpl. intros; lia.
    + exists [Z.of_nat m]. simpl. rewrite Hc. repeat split.
      * repeat constructor.
      * repeat constructor; lia.
Qed.

(** X2. The requests [update_charm_revisions] makes: first the one for the
    latest revision, then requests for single revisions in strictly
    descending order, each of them for a number from 0 up to the latest
    revision excluded. So no revision is asked for twice, and a latest
    revision [n_rev] costs [n_rev + 1] requests at most. *)
Theorem requests_descend charm revs (w : World) :
  exists ns : list Z,
    calls (update_charm_revisions charm revs w).1 =
      (charm, None) :: map (fun n => (charm, Some (str n))) ns /\
    StronglySorted (fun a b => (b < a)%Z) ns /\
    Forall (fun n => exists n_rev,
              int (get_revision_commit charm None w).1.1 = Ok n_rev /\
              (0 <= n < n_rev)%Z) ns.
Proof.
  unfold update_charm_revisions. rewrite latest_step_unfold. cbn zeta.
  destruct (int (get_revision_commit charm None w).1.1) as [n_rev|e] eqn:Hint.
  - match goal with
    | |- context [walk charm ?k ?fr] =>
        destruct (walk_trace charm k fr) as (ns & Hns & Hsorted & Hbound);
        destruct (walk charm k fr) as [fr' fl]
    end.
    simpl in *. exists ns. rewrite Hns. repeat split; [done|].
    eapply Forall_impl; [exact Hbound|]. simpl. intros n Hn.
    exists n_rev. split; [done|lia].
  - exists []. simpl. repeat split; constructor.
Qed.

(** Unless the loop was left by [break], it has dealt with every revision
    below the latest one: each is a key of the dictionary or was asked
    for. *)
Lemma walk_covers charm k fr :
  (walk charm k fr).2 = Continue ->
  forall n, (0 <= n < Z.of_nat k)%Z ->
    is_Some (revisions (walk charm k fr).1 !! str n) \/
    (charm, Some (str n)) ∈ calls (walk charm k fr).1.
Proof.
  revert fr. induction k as [|m IH]; intros fr; [intros _ n; lia|].
  cbn [walk]. intros Hfl n Hn.
  pose proof (walk_body_trace charm (Z.of_nat m) fr) as Hbody.
  pose proof (fun k => walk_body_key_persists charm (Z.of_nat m) fr k) as Hkeep.
  destruct (walk_body charm (Z.of_nat m) fr) as [fr' fl]. simpl in *.
  destruct fl; [|done].
  destruct (decide (n = Z.of_nat m)) as [Heq|Hne].
  - subst n. destruct Hbody as [(_ & Hin & _)|Hc].
    + left. apply Hkeep in Hin.
      apply (walk_invariant (fun fr => is_Some (revisions fr !! _)) charm);
        [|done]. intros; by apply walk_body_key_persists.
    + right. destruct (walk_trace charm m fr') as (ns & -> & _).
      rewrite Hc. apply elem_of_app. left. apply elem_of_app. right.
      by apply list_elem_of_singleton.
  - apply IH; [done|lia].
Qed.

(** X3. Unless the loop was left by [break] (the counter of misses is below 3
    at the end), [update_charm_revisions] has dealt with every revision from
    0 up to the latest excluded: each one is a key of the dictionary or was
    asked for in this run. *)
Theorem no_revision_skipped charm revs (w : World) (n_rev : Z) :
  int (get_revision_commit charm None w).1.1 = Ok n_rev ->
  (missing_revs (update_charm_revisions charm revs w).1 < 3)%Z ->
  forall n, (0 <= n < n_rev)%Z ->
    is_Some (revisions (update_charm_revisions charm revs w).1 !! str n) \/
    (charm, Some (str n)) ∈ calls (update_charm_revisions charm revs w).1.
Proof.
  unfold update_charm_revisions.
  pose proof (walk_counter charm (Z.to_nat n_rev) (latest_step charm revs w).2)
    as Hcount.
  pose proof (walk_covers charm (Z.to_nat n_rev) (latest_step charm revs w).2)
    as Hcov.
  rewrite latest_step_unfold in *. cbn zeta in *. simpl in Hcount, Hcov.
  intros ->.
  match goal with
  | |- context [walk charm ?k ?fr] => destruct (walk charm k fr) as [fr' fl]
  end.
  simpl in *. intros Hlt n Hn. apply Hcov; [|lia].
  destruct Hcount as [[_ Hthree]|[Hfl _]]; [lia|lia|done].
Qed.

End ReconcilerTrace.

Lemma no_revision_skipped_witness :
  let fr := (@update_charm_revisions unit Stub.three_revisions "cinder"
               {[ "1" := "old" ]} tt).1 in
  is_Some (revisions fr !! "1") \/ ("cinder", Some "1") ∈ calls fr.
Proof.
  intros fr.
  assert (Hlt : (missing_revs fr < 3)%Z) by (vm_compute; reflexivity).
  apply (@no_revision_skipped unit Stub.three_revisions "cinder"
           {[ "1" := "old" ]} tt 3%Z eq_refl Hlt 1%Z). lia.
Defined.

(** ** Strings: what [split] and [int] give *)

Lemma split_nonempty sep s : split sep s <> [].
Proof.
  destruct s as [|c r]; simpl; [done|].
  destruct (Ascii.eqb c sep); [done|]. by destruct (split sep r).
Qed.

(** No piece of [s.split(sep)] holds the separator. *)
Lemma split_pieces sep s :
  Forall (fun p => contains sep p = false) (split sep s).
Proof.
  induction s as [|c r IH]; simpl; [by repeat constructor|].
  destruct (Ascii.eqb c sep) eqn:Hc; [by constructor|].
  destruct (split sep r) as [|p ps].
  - constructor; [|constructor]. simpl. by rewrite Ascii.eqb_sym, Hc.
  - inversion IH; subst. constructor; [|done]. simpl.
    by rewrite Ascii.eqb_sym, Hc.
Qed.

Lemma rsplit_last_no_sep sep s : contains sep (rsplit_last sep s) = false.
Proof.
  unfold rsplit_last. pose proof (split_pieces sep s) as Hall.
  pose proof (split_nonempty sep s) as Hne.
  induction (split sep s) as [|p ps IH]; [done|].
  inversion Hall; subst. destruct ps as [|q ps]; [done|].
  apply IH; [done|done].
Qed.

(** A string without the separator is its own only piece. *)
Lemma split_no_sep sep s : contains sep s = false -> split sep s = [s].
Proof.
  induction s as [|c r IH]; simpl; [done|].
  rewrite Ascii.eqb_sym. destruct (Ascii.eqb c sep); [done|].
  simpl. intros Hr. by rewrite IH.
Qed.

(** Cutting at a separator cuts the pieces in two groups. *)
Lemma split_app sep a b :
  split sep (a +:+ String sep b) = split sep a ++ split sep b.
Proof.
  induction a as [|c a IH]; simpl.
  - by rewrite Ascii.eqb_refl.
  - destruct (Ascii.eqb c sep); [by rewrite IH|].
    rewrite IH. pose proof (split_nonempty sep a).
    by destruct (split sep a).
Qed.

(** [(a + sep + b).rsplit(sep)[-1]] is [b] when [b] has no separator. *)
Lemma rsplit_last_app sep a b :
  contains sep b = false -> rsplit_last sep (a +:+ String sep b) = b.
Proof.
  intros Hb. unfold rsplit_last. rewrite split_app, (split_no_sep sep b Hb).
  by rewrite last_last.
Qed.

(** Reading decimal digits. *)
Lemma int_digits_digit acc prev c r k :
  digit c = Some k ->
  int_digits acc prev (String c r) = int_digits (10 * acc + k) true r.
Proof. intros Hk. simpl. by rewrite Hk. Qed.

Lemma int_digits_uint_acc (d : Decimal.uint) (acc : positive) :
  int_digits (Z.pos acc) true (NilEmpty.string_of_uint d)
    = Some (Z.pos (Pos.of_uint_acc d acc)).
Proof.
  revert acc.
  induction d as [|d IH|d IH|d IH|d IH|d IH|d IH|d IH|d IH|d IH|d IH];
    intros acc; [done|..];
    cbn [NilEmpty.string_of_uint Pos.of_uint_acc];
    erewrite int_digits_digit by reflexivity;
    rewrite <- IH; f_equal;
    try match goal with
    | |- context [Z.of_N (N_of_ascii ?c)] =>
        let v := eval vm_compute in (Z.of_N (N_of_ascii c)) in
        change (Z.of_N (N_of_ascii c)) with v
    end; lia.
Qed.

Lemma int_digits_uint (d : Decimal.uint) (prev : bool) :
  prev = true \/ d <> Decimal.Nil ->
  int_digits 0 prev (NilEmpty.string_of_uint d)
    = Some (Z.of_N (Pos.of_uint d)).
Proof.
  revert prev.
  induction d as [|d IH|d IH|d IH|d IH|d IH|d IH|d IH|d IH|d IH|d IH];
    intros prev Hprev.
  - destruct Hprev as [->|?]; done.
  - cbn [NilEmpty.string_of_uint Pos.of_uint].
    erewrite int_digits_digit by reflexivity. apply IH. by left.
  - cbn [NilEmpty.string_of_uint Pos.of_uint].
    erewrite int_digits_digit by reflexivity. apply int_digits_uint_acc.
  - cbn [NilEmpty.string_of_uint Pos.of_uint].
    erewrite int_digits_digit by reflexivity. apply int_digits_uint_acc.
  - cbn [NilEmpty.string_of_uint Pos.of_uint].
    erewrite int_digits_digit by reflexivity. apply int_digits_uint_acc.
  - cbn [NilEmpty.string_of_uint Pos.of_uint].
    erewrite int_digits_digit by reflexivity. apply int_digits_uint_acc.
  - cbn [NilEmpty.string_of_uint Pos.of_uint].
    erewrite int_digits_digit by reflexivity. apply int_digits_uint_acc.
  - cbn [NilEmpty.string_of_uint Pos.of_uint].
    erewrite int_digits_digit by reflexivity. apply int_digits_uint_acc.
  - cbn [NilEmpty.string_of_uint Pos.of_uint].
    erewrite int_digits_digit by reflexivity. apply int_digits_uint_acc.
  - cbn [NilEmpty.string_of_uint Pos.of_uint].
    erewrite int_digits_digit by reflexivity. apply int_digits_uint_acc.
  - cbn [NilEmpty.string_of_uint Pos.of_uint].
    erewrite int_digits_digit by reflexivity. apply int_digits_uint_acc.
Qed.

Lemma rstrip_cons c r :
  is_space c = false -> rstrip r = r -> rstrip (String c r) = String c r.
Proof. intros Hc Hr. simpl. rewrite Hr, Hc. by destruct r. Qed.

Lemma rstrip_uint (d : Decimal.uint) :
  rstrip (NilEmpty.string_of_uint d) = NilEmpty.string_of_uint d.
Proof.
  induction d; [done|..]; cbn [NilEmpty.string_of_uint];
    by apply rstrip_cons.
Qed.

(** The digits of a positive number, as [str] writes them. *)
Lemma str_pos (p : positive) :
  exists c r, NilEmpty.string_of_uint (Pos.to_uint p) = String c r /\
    str (Z.pos p) = String c r /\ is_space c = false /\
    c <> "-"%char /\ c <> "+"%char.
Proof.
  unfold str. simpl. pose proof (Unsigned.to_uint_nonnil p) as Hp.
  destruct (Pos.to_uint p); [done|..]; simpl; eexists _, _;
    repeat split; done.
Qed.

(** [int(str(n)) == n]: the text [str] writes for an integer reads back as
    that integer. *)
Lemma int_str (n : Z) : int (str n) = Ok n.
Proof.
  destruct n as [|p|p]; [done| |].
  - destruct (str_pos p) as (c & r & Huint & Hstr & Hc & Hminus & Hplus).
    pose proof (int_digits_uint (Pos.to_uint p) false
                  (or_intror (Unsigned.to_uint_nonnil p))) as Hdigits.
    pose proof (rstrip_uint (Pos.to_uint p)) as Hstrip.
    rewrite Unsigned.of_to in Hdigits. rewrite Huint in Hdigits, Hstrip.
    unfold int, strip. rewrite Hstr. cbn [lstrip]. rewrite Hc, Hstrip.
    assert (Hdefault :
      match String c r with
      | String "-" s => option_map Z.opp (int_digits 0 false s)
      | String "+" s => int_digits 0 false s
      | _ => int_digits 0 false (String c r)
      end = int_digits 0 false (String c r)).
    { destruct c as [[] [] [] [] [] [] [] []]; try done. }
    cbv zeta. rewrite Hdefault, Hdigits. done.
  - destruct (str_pos p) as (c & r & Huint & Hstr & Hc & Hminus & Hplus).
    pose proof (int_digits_uint (Pos.to_uint p) false
                  (or_intror (Unsigned.to_uint_nonnil p))) as Hdigits.
    pose proof (rstrip_uint (Pos.to_uint p)) as Hstrip.
    rewrite Unsigned.of_to in Hdigits.
    assert (Hneg : str (Z.neg p) = String "-" (str (Z.pos p))) by done.
    rewrite Hneg, Hstr. rewrite Huint in Hdigits, Hstrip.
    unfold int, strip. cbn [lstrip].
    change (is_space "-") with false. cbv iota.
    rewrite (rstrip_cons "-" (String c r) eq_refl Hstrip).
    cbv zeta. cbv iota. rewrite Hdigits. done.
Qed.

(** ** The fetcher: the revision it reads *)

Lemma contains_app c a b : contains c (a +:+ String c b) = true.
Proof.
  induction a as [|d a IH]; simpl.
  - by rewrite Ascii.eqb_refl.
  - rewrite IH. by destruct (Ascii.eqb c d).
Qed.

Section FetcherRevision.

Context {World : Type} `{!Registry World}.

(** The revision returned is the one of the answer, whatever the commit. *)
Lemma get_revision_commit_rev (charm : string) (rev : option string)
    (w : World) :
  (get_revision_commit charm rev w).1.1 =
    default ""
      (answered_rev
         (get_url_output_json (meta_url (request_name charm rev)) w).1).
Proof.
  unfold get_revision_commit, answered_rev.
  destruct (get_url_output_json (meta_url (request_name charm rev)) w)
    as [data w1]. simpl.
  destruct (Id data) as [id|]; [|done].
  destruct (truthy id && contains "-" id); [|done].
  destruct (truthy _); [done|].
  by destruct (get_url_output_text _ w1).
Qed.

(** X4. The revision [get_revision_commit] returns never holds a hyphen, and
    for an [Id] of the form [name-r] with no hyphen in [r] it is [r], also
    when [name] has hyphens of its own (as in [cs:barbican-vault-15]). *)
Theorem fetched_revision_is_last_segment (charm : string)
    (rev : option string) (w : World) :
  contains "-" (get_revision_commit charm rev w).1.1 = false /\
  (forall name r : string,
     Id (get_url_output_json (meta_url (request_name charm rev)) w).1
       = Some (name +:+ "-" +:+ r) ->
     contains "-" r = false ->
     (get_revision_commit charm rev w).1.1 = r).
Proof.
  rewrite get_revision_commit_rev. unfold answered_rev. split.
  - destruct (Id _) as [id|]; [|done].
    destruct (truthy id && contains "-" id); [|done].
    simpl. apply rsplit_last_no_sep.
  - intros name r -> Hr.
    change (name +:+ "-" +:+ r) with (name +:+ String "-" r).
    rewrite contains_app, rsplit_last_app by done.
    by destruct name.
Qed.

End FetcherRevision.

Lemma fetched_revision_is_last_segment_witness :
  (@get_revision_commit unit Stub.id_without_commit
     "barbican-vault" (Some "15") tt).1.1 = "15".
Proof.
  apply (proj2 (@fetched_revision_is_last_segment unit Stub.id_without_commit
                  "barbican-vault" (Some "15") tt) "cs:barbican-vault" "15");
    reflexivity.
Defined.

(** ** The derivation: where its entries come from *)

Lemma dict_get_None_keys {V : Type} (k : string) (d : Dict.t V) :
  Dict.get k d = None <-> k ∉ Dict.keys d.
Proof.
  unfold Dict.keys. induction d as [|[k0 v0] d IH]; simpl.
  - split; [intros _; apply not_elem_of_nil|done].
  - rewrite not_elem_of_cons. case_bool_decide as Hk.
    + split; [done|]. intros [Hne _]. by destruct Hne.
    + rewrite IH. split; [by intros ?; split|by intros [_ ?]].
Qed.

(** A new key goes last. *)
Lemma dict_keys_set_new {V : Type} (k : string) (v : V) (d : Dict.t V) :
  Dict.get k d = None -> Dict.keys (Dict.set k v d) = Dict.keys d ++ [k].
Proof.
  induction d as [|[k0 v0] d IH]; [done|]. cbn [Dict.get Dict.set].
  case_bool_decide; [done|]. intros Hk. unfold Dict.keys in *.
  by rewrite !fmap_cons, IH.
Qed.

Lemma for_each_cons_raise {A S : Type} (body : S -> A -> result S) x r s e :
  body s x = Raise e -> for_each body (x :: r) s = Raise e.
Proof. intros H. cbn [for_each]. by rewrite H. Qed.

Lemma charm_commit_revision_unfold (acc : doc) c revisions :
  charm_commit_revision acc (c, revisions) =
    match commit_revision revisions with
    | Ok commits => Ok (Dict.set c commits acc)
    | Raise e => Raise e
    end.
Proof.
  unfold charm_commit_revision. by destruct (commit_revision revisions).
Qed.

Lemma charm_branch_revision_unfold (cr data : doc) c branches :
  charm_branch_revision cr data (c, branches) =
    match for_each (branch_revision_step cr c) branches [] with
    | Ok dbr => Ok (Dict.set c dbr data)
    | Raise e => Raise e
    end.
Proof.
  unfold charm_branch_revision.
  by destruct (for_each (branch_revision_step cr c) branches []).
Qed.

(** The entry of a charm after the first loop is the inversion of one of
    its items. *)
Lemma charms_commit_revision_entry (items acc cr : doc) c commits :
  for_each charm_commit_revision items acc = Ok cr ->
  Dict.get c cr = Some commits ->
  Dict.get c acc = Some commits \/
  exists revisions,
    In (c, revisions) items /\ commit_revision revisions = Ok commits.
Proof.
  revert acc. induction items as [|[c0 revisions] items IH]; intros acc.
  - intros [= <-]. by left.
  - pose proof (charm_commit_revision_unfold acc c0 revisions) as Hbody.
    destruct (commit_revision revisions) as [commits0|e] eqn:Hinv;
      [rewrite (for_each_cons_ok _ _ _ _ _ Hbody)
      |by rewrite (for_each_cons_raise _ _ _ _ _ Hbody)].
    intros Hrest Hget. destruct (IH _ Hrest Hget) as [Hacc|(rs & Hin & Hrs)].
    + rewrite dict_get_set in Hacc. case_bool_decide; [|by left].
      simplify_eq. right. exists revisions. split; [by left|done].
    + right. exists rs. split; [by right|done].
Qed.

(** The entry of a charm after the second loop comes from one of its items,
    and the charms come out in the order they came in. *)
Lemma charms_branch_revision_entry (cr items acc data : doc) c dbr :
  for_each (charm_branch_revision cr) items acc = Ok data ->
  Dict.get c data = Some dbr ->
  Dict.get c acc = Some dbr \/
  exists branches,
    In (c, branches) items /\
    for_each (branch_revision_step cr c) branches [] = Ok dbr.
Proof.
  revert acc. induction items as [|[c0 branches] items IH]; intros acc.
  - intros [= <-]. by left.
  - pose proof (charm_branch_revision_unfold cr acc c0 branches) as Hbody.
    destruct (for_each (branch_revision_step cr c0) branches [])
      as [dbr0|e] eqn:Hinner;
      [rewrite (for_each_cons_ok _ _ _ _ _ Hbody)
      |by rewrite (for_each_cons_raise _ _ _ _ _ Hbody)].
    intros Hrest Hget. destruct (IH _ Hrest Hget) as [Hacc|(bs & Hin & Hbs)].
    + rewrite dict_get_set in Hacc. case_bool_decide; [|by left].
      simplify_eq. right. exists branches. split; [by left|done].
    + right. exists bs. split; [by right|done].
Qed.

Lemma charms_branch_revision_keys (cr items acc data : doc) :
  for_each (charm_branch_revision cr) items acc = Ok data ->
  NoDup (Dict.keys acc ++ Dict.keys items) ->
  Dict.keys data = Dict.keys acc ++ Dict.keys items.
Proof.
  revert acc. induction items as [|[c0 branches] items IH]; intros acc.
  - intros [= <-] _. unfold Dict.keys. simpl. by rewrite app_nil_r.
  - pose proof (charm_branch_revision_unfold cr acc c0 branches) as Hbody.
    destruct (for_each (branch_revision_step cr c0) branches [])
      as [dbr0|e] eqn:Hinner;
      [rewrite (for_each_cons_ok _ _ _ _ _ Hbody)
      |by rewrite (for_each_cons_raise _ _ _ _ _ Hbody)].
    intros Hrest Hnd.
    assert (Hnew : Dict.get c0 acc = None).
    { apply dict_get_None_keys. apply NoDup_app in Hnd as (_ & Hdisj & _).
      intros Hin. apply (Hdisj c0 Hin). unfold Dict.keys. simpl. by left. }
    rewrite (IH _ Hrest); rewrite (dict_keys_set_new _ _ _ Hnew).
    + unfold Dict.keys. simpl. by rewrite <- app_assoc.
    + unfold Dict.keys in *. simpl in *. by rewrite <- app_assoc.
Qed.

(** X5. The derived document has the components of the branch document, in the
    same order (the branch document is a dictionary: no key twice). *)
Theorem derived_components_are_those_of_branches (s : store) (data : doc) :
  branch_revision_data s = Ok data ->
  NoDup (Dict.keys (FILE_BRANCH_COMMIT s)) ->
  Dict.keys data = Dict.keys (FILE_BRANCH_COMMIT s).
Proof.
  unfold branch_revision_data.
  destruct (charms_commit_revision (FILE_REVISION_COMMIT s)) as [cr|e];
    simpl; [|done].
  intros Hdata Hnd.
  by rewrite (charms_branch_revision_keys cr _ [] data Hdata).
Qed.

(** X6. Every revision of the derived document is backed by the two documents
    it was derived from: the branch has a commit in the branch document,
    the revision is a revision of that very commit in the revision
    document, its number is positive, and no revision of that commit there
    has a larger number. *)
Theorem derived_revision_is_sound (s : store) (data : doc)
    (c b r : string) (dbr : Dict.t string) :
  branch_revision_data s = Ok data ->
  Dict.get c data = Some dbr ->
  Dict.get b dbr = Some r ->
  exists (branches revisions : Dict.t string) (commit : string) (n : Z),
    In (c, branches) (FILE_BRANCH_COMMIT s) /\
    In (b, commit) branches /\
    In (c, revisions) (FILE_REVISION_COMMIT s) /\
    In (r, commit) revisions /\
    int r = Ok n /\ (0 < n)%Z /\
    forall r' n', In (r', commit) revisions -> int r' = Ok n' -> (n' <= n)%Z.
Proof.
  unfold branch_revision_data.
  destruct (charms_commit_revision (FILE_REVISION_COMMIT s)) as [cr|e]
    eqn:Hcr; simpl; [|done].
  intros Hdata Hc Hb.
  destruct (charms_branch_revision_entry cr _ [] data c dbr Hdata Hc)
    as [Habs|(branches & Hin & Hinner)]; [done|].
  destruct (Dict.get c cr) as [commits|] eqn:Hcommits.
  - destruct (branch_revision_steps_sound cr c commits branches [] dbr
                Hcommits Hinner b r Hb) as [Habs|(_ & commit & Hbin & Hr)];
      [done|].
    destruct (charms_commit_revision_entry _ [] cr c commits Hcr Hcommits)
      as [Habs|(revisions & Hrin & Hinv)]; [done|].
    destruct (commit_revision_newest revisions commits Hinv) as [Hmax _].
    destruct (Hmax commit r Hr) as (Hrc & n & Hn & Hpos & Hle).
    by exists branches, revisions, commit, n.
  - destruct branches as [|[b0 c0] branches].
    + simpl in Hinner. by simplify_eq.
    + by rewrite branch_revision_steps_raise in Hinner.
Qed.

Lemma derived_components_are_those_of_branches_witness :
  Dict.keys [("cinder", [("20.05", "10")]); ("glance", [])]
    = ["cinder"; "glance"].
Proof.
  apply (derived_components_are_those_of_branches
           (Store [("cinder", [("20.05", "C1")]); ("glance", [])]
                  [("cinder", [("10", "C1"); ("9", "C0")])] "")
           [("cinder", [("20.05", "10")]); ("glance", [])]).
  - vm_compute. reflexivity.
  - apply (bool_decide_unpack _). vm_compute. exact I.
Defined.

Lemma derived_revision_is_sound_witness :
  exists (branches revisions : Dict.t string) (commit : string) (n : Z),
    In ("cinder", branches) [("cinder", [("20.05", "C1")])] /\
    In ("20.05", commit) branches /\
    In ("cinder", revisions)
       [("cinder", [("10", "C1"); ("7", "C1"); ("9", "C0")])] /\
    In ("10", commit) revisions /\
    int "10" = Ok n /\ (0 < n)%Z /\
    forall r' n', In (r', commit) revisions -> int r' = Ok n' -> (n' <= n)%Z.
Proof.
  apply (derived_revision_is_sound
           (Store [("cinder", [("20.05", "C1")])]
                  [("cinder", [("10", "C1"); ("7", "C1"); ("9", "C0")])] "")
           [("cinder", [("20.05", "10")])] "cinder" "20.05" "10"
           [("20.05", "10")]); vm_compute; reflexivity.
Defined.

(** ** The derivation: when it succeeds *)

Lemma int_raise (s : string) (e : exn) : int s = Raise e -> e = ValueError s.
Proof.
  unfold int. destruct (match strip s with
                        | String "-" r => option_map Z.opp (int_digits 0 false r)
                        | String "+" r => int_digits 0 false r
                        | _ => int_digits 0 false (strip s)
                        end); [done|]. by intros [= <-].
Qed.

(** The inversion of one charm raises exactly when [int] rejects one of the
    revision keys, and with the exception of [int]. *)
Lemma commit_revision_outcome_from (seen items acc : Dict.t string) :
  newest_revisions seen acc ->
  match for_each commit_revision_step items acc with
  | Ok _ => forall rev commit, In (rev, commit) items ->
              exists n, int rev = Ok n
  | Raise e => exists rev commit, In (rev, commit) items /\ int rev = Raise e
  end.
Proof.
  revert seen acc. induction items as [|[rev commit] items IH];
    intros seen acc Hinv; [by intros ? ? []|].
  destruct (int rev) as [n|e] eqn:Hn.
  - assert (Hstep : exists acc', commit_revision_step acc (rev, commit) = Ok acc').
    { unfold commit_revision_step. rewrite Hn. simpl.
      destruct (Dict.get commit acc) as [r0|] eqn:Hget; [|by eexists].
      destruct Hinv as [Hmax _].
      destruct (Hmax _ _ Hget) as (_ & n0 & -> & _). by eexists. }
    destruct Hstep as [acc' Hstep].
    rewrite (for_each_cons_ok _ _ _ _ _ Hstep).
    specialize (IH _ acc' (commit_revision_step_newest _ _ _ _ _ Hinv Hstep)).
    destruct (for_each commit_revision_step items acc') as [?|e].
    + intros rev' commit' [[= <- <-]|Hin]; [by eexists|by eapply IH].
    + destruct IH as (rev' & commit' & Hin & Hraise).
      exists rev', commit'. by split; [right|].
  - assert (Hstep : commit_revision_step acc (rev, commit) = Raise e).
    { unfold commit_revision_step. by rewrite Hn. }
    rewrite (for_each_cons_raise _ _ _ _ _ Hstep).
    exists rev, commit. by split; [left|].
Qed.

Lemma commit_revision_outcome (revisions : Dict.t string) :
  match commit_revision revisions with
  | Ok _ => forall rev commit, In (rev, commit) revisions ->
              exists n, int rev = Ok n
  | Raise e =>
      exists rev commit, In (rev, commit) revisions /\ int rev = Raise e
  end.
Proof.
  apply (commit_revision_outcome_from [] revisions []).
  split; [done|]. by intros r' c n' [].
Qed.

Lemma charms_commit_revision_outcome_from (items acc : doc) :
  match for_each charm_commit_revision items acc with
  | Ok _ => forall c revisions rev commit,
      In (c, revisions) items -> In (rev, commit) revisions ->
      exists n, int rev = Ok n
  | Raise e => exists c revisions rev commit,
      In (c, revisions) items /\ In (rev, commit) revisions /\
      int rev = Raise e
  end.
Proof.
  revert acc. induction items as [|[c revisions] items IH]; intros acc;
    [by intros ? ? ? ? []|].
  pose proof (charm_commit_revision_unfold acc c revisions) as Hbody.
  pose proof (commit_revision_outcome revisions) as Hone.
  destruct (commit_revision revisions) as [commits|e].
  - rewrite (for_each_cons_ok _ _ _ _ _ Hbody).
    specialize (IH (Dict.set c commits acc)).
    destruct (for_each charm_commit_revision items _) as [?|e].
    + intros c' revisions' rev commit [[= <- <-]|Hin] Hrev;
        [by eapply Hone|by eapply IH].
    + destruct IH as (c' & revisions' & rev & commit & Hin & Hrev & Hraise).
      exists c', revisions', rev, commit. by split; [right|].
  - rewrite (for_each_cons_raise _ _ _ _ _ Hbody).
    destruct Hone as (rev & commit & Hrev & Hraise).
    exists c, revisions, rev, commit. by split; [left|].
Qed.

(** X7. [update_branch_revision] succeeds exactly when [int] accepts every
    revision key of the revision document and every component of the branch
    document that has a branch is a key of the revision document. When it
    raises [ValueError], the message is a revision key that [int] rejects. *)
Theorem derivation_succeeds_iff (s : store) :
  ((update_branch_revision s).2 = Ok tt <->
   (forall c revisions rev commit,
      In (c, revisions) (FILE_REVISION_COMMIT s) ->
      In (rev, commit) revisions -> exists n, int rev = Ok n) /\
   (forall c bs, In (c, bs) (FILE_BRANCH_COMMIT s) -> bs <> [] ->
      is_Some (Dict.get c (FILE_REVISION_COMMIT s)))) /\
  (forall msg, (update_branch_revision s).2 = Raise (ValueError msg) ->
     exists c revisions commit,
       In (c, revisions) (FILE_REVISION_COMMIT s) /\
       In (msg, commit) revisions /\ int msg = Raise (ValueError msg)).
Proof.
  rewrite update_branch_revision_unfold.
  pose proof (charms_commit_revision_outcome_from (FILE_REVISION_COMMIT s) [])
    as Hfirst.
  fold (charms_commit_revision (FILE_REVISION_COMMIT s)) in Hfirst.
  destruct (charms_commit_revision (FILE_REVISION_COMMIT s)) as [cr|e] eqn:Hcr.
  - assert (Hkeys : forall c, Dict.get c cr = None <->
                              Dict.get c (FILE_REVISION_COMMIT s) = None).
    { intros c. rewrite !eq_None_not_Some.
      by rewrite (charms_commit_revision_keys _ cr c Hcr). }
    pose proof (charms_branch_revision_from cr (FILE_BRANCH_COMMIT s) [])
      as Hsecond.
    fold (charms_branch_revision cr (FILE_BRANCH_COMMIT s)) in Hsecond.
    destruct (charms_branch_revision cr (FILE_BRANCH_COMMIT s))
      as [data|[msg|c'| | | |msg]]; simpl; try done.
    + split; [|done]. split; [|done]. intros _. split; [done|].
      intros c bs Hin Hbs. apply not_eq_None_Some. intros Hnone.
      apply (Hsecond (c, bs) Hin). split; [done|]. by apply Hkeys.
    + destruct Hsecond as (bs & Hin & Hbs & Hnone). simpl in *.
      split; [|done]. split; [done|]. intros [_ Hall].
      destruct (Hall c' bs Hin Hbs) as [x Hx]. apply Hkeys in Hnone.
      congruence.
  - simpl. destruct Hfirst as (c & revisions & rev & commit & Hin & Hrev & He).
    split.
    + split; [done|]. intros [Hall _].
      destruct (Hall c revisions rev commit Hin Hrev) as [n Hn]. congruence.
    + intros msg [= ->]. pose proof (int_raise _ _ He) as [= ->].
      by exists c, revisions, commit.
Qed.

Lemma derivation_succeeds_iff_witness :
  exists c revisions commit,
    In (c, revisions) [("cinder", [("10", "C1"); ("1o", "C0")])] /\
    In ("1o", commit) revisions /\ int "1o" = Raise (ValueError "1o").
Proof.
  apply (proj2 (derivation_succeeds_iff
                  (Store [] [("cinder", [("10", "C1"); ("1o", "C0")])] ""))
               "1o").
  vm_compute. reflexivity.
Defined.

(** ** The report: its cells *)

(** A blank cell is never marked. *)
Lemma mark_revs_blank (revs : list string) (current_rev : rev_value) (i : nat) :
  revs !! i = Some "" -> mark_revs revs current_rev !! i = Some "".
Proof.
  intros Hi. unfold mark_revs.
  destruct (rev_truthy current_rev) eqn:Ht; [|done].
  rewrite list_lookup_fmap, Hi. simpl. unfold yesno.
  case_bool_decide as Heq; [|done].
  destruct current_rev as [n|s]; simpl in *.
  - by destruct (str_nonempty n).
  - by subst s.
Qed.

(** X8. Missing derived data gives a blank cell: a row has one cell per tracked
    branch, and the cell of a branch for which the derived document has no
    revision of the component (the component or the branch is missing) is
    the empty string, never marked. *)
Theorem missing_revision_is_blank (branch_to_revision : doc)
    (a : application) (i : nat) (branch : string) :
  BRANCHES !! i = Some branch ->
  Dict.get branch
    (default [] (Dict.get (charm_name a) branch_to_revision)) = None ->
  length (row_revs (make_row branch_to_revision a)) = length BRANCHES /\
  row_revs (make_row branch_to_revision a) !! i = Some "".
Proof.
  intros Hi Hnone. unfold make_row. cbn [row_revs]. split.
  - unfold mark_revs. destruct (rev_truthy _); by rewrite ?length_map.
  - apply mark_revs_blank. rewrite list_lookup_fmap, Hi. simpl.
    by rewrite Hnone.
Qed.

Lemma missing_revision_is_blank_witness :
  row_revs (make_row [("keystone", [("20.05", "310")])]
              (Application "zzz" "keystone" "cs:keystone-310" (RevInt 310)
                 None 3 3)) !! 0%nat = Some "".
Proof.
  apply (missing_revision_is_blank [("keystone", [("20.05", "310")])]
           (Application "zzz" "keystone" "cs:keystone-310" (RevInt 310)
              None 3 3) 0%nat "19.04"); reflexivity.
Defined.

(** [str] of a number that is not negative never is the sentinel [NA]. *)
Lemma str_not_NA (n : Z) : str n <> NA.
Proof.
  intros Heq. pose proof (int_str n) as Hint. rewrite Heq in Hint.
  by vm_compute in Hint.
Qed.

(** X9. The order column shows [NA] exactly for the applications whose charm is
    in neither catalog; for the others it shows the position of the charm
    in the catalogs. *)
Theorem order_column (branch_to_revision : doc) (item : string * app_data) :
  let shown := row_order (make_row branch_to_revision (make_app item)) in
  let catalog := OPENSTACK_CHAMRS ++ LMA_CHARMS in
  (shown = NA <-> position (data_charm_name item.2) catalog = None) /\
  (forall j, position (data_charm_name item.2) catalog = Some j ->
             shown = str j).
Proof.
  intros shown catalog. subst shown. unfold make_row. cbn [row_order].
  rewrite make_app_order, order_of_position. fold catalog.
  destruct (position (data_charm_name item.2) catalog) as [j|] eqn:Hj; simpl.
  - apply position_range in Hj. subst catalog.
    change (length _) with 52%nat in Hj.
    destruct (Z.eqb_spec j ORDER_MAX) as [->|Hne];
      [unfold ORDER_MAX in Hj; lia|].
    split; [|by intros ? [= <-]]. split; [|done].
    intros Habs. by destruct (str_not_NA j).
  - split; [done|]. done.
Qed.

Lemma order_column_witness :
  row_order (make_row [] (make_app
    ("zzz", AppData "keystone" "cs:keystone-310" (RevInt 310) None 3)))
  = "3".
Proof.
  apply (proj2 (order_column []
    ("zzz", AppData "keystone" "cs:keystone-310" (RevInt 310) None 3)) 3%Z).
  reflexivity.
Defined.

(** X10. The column of the latest revision: the text after the last hyphen of
    the [can-upgrade-to] hint, and [NA] when there is no hint or no hyphen
    in it. *)
Theorem latest_column (branch_to_revision : doc) (a : application) :
  (forall name r, can_upgrade_to a = Some (name +:+ "-" +:+ r) ->
     contains "-" r = false ->
     row_latest (make_row branch_to_revision a) = r) /\
  (can_upgrade_to a = None ->
     row_latest (make_row branch_to_revision a) = NA) /\
  (forall c, can_upgrade_to a = Some c -> contains "-" c = false ->
     row_latest (make_row branch_to_revision a) = NA).
Proof.
  unfold make_row. cbn [row_latest]. split; [|split].
  - intros name r -> Hr.
    change (name +:+ "-" +:+ r) with (name +:+ String "-" r).
    rewrite contains_app, rsplit_last_app by done. by destruct name.
  - by intros ->.
  - intros c -> Hc. rewrite Hc. by rewrite andb_false_r.
Qed.

Lemma latest_column_witness :
  row_latest (make_row [] (Application "zzz" "keystone" "cs:keystone-310"
                             (RevInt 310) (Some "cs:keystone-312") 3 3))
  = "312".
Proof.
  apply (proj1 (latest_column [] (Application "zzz" "keystone"
           "cs:keystone-310" (RevInt 310) (Some "cs:keystone-312") 3 3))
           "cs:keystone" "312"); reflexivity.
Defined.

(** ** The report: the width of its lines *)

Lemma length_spaces (n : nat) : String.length (spaces n) = n.
Proof. induction n as [|n IH]; simpl; [done|by rewrite IH]. Qed.

Lemma length_rjust (n : nat) (s : string) :
  String.length (rjust n s) = Nat.max n (String.length s).
Proof. unfold rjust. rewrite length_append, length_spaces. lia. Qed.

Lemma length_ljust (n : nat) (s : string) :
  String.length (ljust n s) = Nat.max n (String.length s).
Proof. unfold ljust. rewrite length_append, length_spaces. lia. Qed.

Lemma length_join_rjust (n : nat) (cells : list string) :
  Forall (fun s => (String.length s <= n)%nat) cells ->
  String.length (join (map (rjust n) cells)) = (n * length cells)%nat.
Proof.
  induction 1 as [|s cells Hs Hcells IH]; simpl; [lia|].
  rewrite length_append, length_rjust, IH. lia.
Qed.

Lemma length_prefix (n : nat) (s : string) :
  (String.length (prefix n s) <= n)%nat.
Proof.
  revert s. induction n as [|n IH]; intros [|c s]; simpl; try lia.
  specialize (IH s). lia.
Qed.

(** A line of [print_app] whose cells fit their fields has 90 characters
    plus 7 for each branch cell. *)
Lemma length_print_app (order app current latest : string)
    (revs : list string) (units : string) :
  (String.length order <= 2)%nat -> (String.length app <= 30)%nat ->
  (String.length current <= 40)%nat -> (String.length latest <= 7)%nat ->
  Forall (fun s => (String.length s <= 7)%nat) revs ->
  (String.length units <= 5)%nat ->
  String.length (print_app order app current latest revs units)
    = (90 + 7 * length revs)%nat.
Proof.
  intros Ho Ha Hc Hl Hrevs Hu. unfold print_app.
  rewrite !length_append, !length_rjust, !length_ljust,
    (length_join_rjust 7 revs Hrevs). simpl. lia.
Qed.

(** The order column of a row of [main] has two characters at most. *)
Lemma length_row_order (branch_to_revision : doc) (item : string * app_data) :
  (String.length (row_order (make_row branch_to_revision (make_app item)))
   <= 2)%nat.
Proof.
  unfold make_row. cbn [row_order]. rewrite make_app_order, order_of_position.
  destruct (position _ _) as [j|] eqn:Hj; simpl; [|done].
  apply position_range in Hj. change (length _) with 52%nat in Hj.
  destruct (j =? ORDER_MAX)%Z; [done|].
  assert (Hall : Forall (fun j => (String.length (str j) <= 2)%nat)
                        (seqZ 0 52)).
  { apply (bool_decide_unpack _). vm_compute. exact I. }
  rewrite Forall_forall in Hall. apply Hall. apply elem_of_seqZ. lia.
Qed.

(** X11. The table lines up: the title has 125 characters, and so has the line
    of every application whose name has 30 characters at most, whose latest
    revision and branch cells have 7 at most and whose number of units has
    5 digits at most. The order and the charm columns always fit: an order
    has two characters at most and the charm address is cut at 40. *)
Theorem report_lines_align (branch_to_revision : doc)
    (item : string * app_data) :
  let r := make_row branch_to_revision (make_app item) in
  (String.length item.1 <= 30)%nat ->
  (String.length (row_latest r) <= 7)%nat ->
  Forall (fun s => (String.length s <= 7)%nat) (row_revs r) ->
  (String.length (row_units r) <= 5)%nat ->
  String.length (print_row r) = 125%nat /\
  String.length title_line = 125%nat.
Proof.
  intros r Hname Hlatest Hrevs Hunits. split; [|reflexivity].
  unfold print_row. rewrite length_print_app; try done.
  - assert (Hlen : length (row_revs r) = 5%nat).
    { subst r. unfold make_row. cbn [row_revs]. unfold mark_revs.
      destruct (rev_truthy _); by rewrite ?length_map. }
    rewrite Hlen. reflexivity.
  - apply length_row_order.
  - subst r. by destruct item.
  - subst r. unfold make_row. cbn [row_current]. apply length_prefix.
Qed.

Lemma report_lines_align_witness :
  String.length
    (print_row (make_row [("keystone", [("20.05", "310")])]
       (make_app ("keystone-api-application-name",
                  AppData "keystone"
                    "cs:keystone-310-with-a-very-long-address-that-is-cut-off"
                    (RevInt 310) (Some "cs:keystone-312") 3))))
  = 125%nat.
Proof.
  apply report_lines_align.
  - vm_compute. lia.
  - vm_compute. lia.
  - apply (bool_decide_unpack _). vm_compute. exact I.
  - vm_compute. lia.
Defined.

(** ** The branch -> commit pass *)

(** What the comprehension holds for a label: untouched when no item has
    it. *)
Lemma branch_commit_fold_other (items : list ref_item) (acc : Dict.t string)
    (k : string) :
  k ∉ map (fun b => rsplit_last "/" (ref b)) items ->
  Dict.get k (foldl (fun d branch =>
                Dict.set (rsplit_last "/" (ref branch)) (sha branch) d)
              acc items) = Dict.get k acc.
Proof.
  revert acc. induction items as [|b items IH]; intros acc; simpl; [done|].
  rewrite not_elem_of_cons. intros [Hne Hnot].
  rewrite IH by done. by rewrite dict_get_set_ne.
Qed.

Lemma branch_commit_fold_keys (items : list ref_item) (acc : Dict.t string)
    (k : string) :
  is_Some (Dict.get k (foldl (fun d branch =>
                Dict.set (rsplit_last "/" (ref branch)) (sha branch) d)
              acc items)) ->
  is_Some (Dict.get k acc) \/
  k ∈ map (fun b => rsplit_last "/" (ref b)) items.
Proof.
  revert acc. induction items as [|b items IH]; intros acc; simpl;
    [by left|].
  intros Hk. destruct (IH _ Hk) as [Hacc|Hin].
  - rewrite dict_get_set in Hacc. case_bool_decide as Heq; [|by left].
    right. rewrite <- Heq. by left.
  - right. by right.
Qed.

(** X12. The branches [get_repo_branch_commit_map] returns. A key of the result
    is the last path segment of a reference of the answer, so it has no
    slash; and when no two references of the answer end in the same label,
    the reference [prefix/label] with commit [sha] gives
    [label -> sha]. With an empty answer the result is empty. *)
Theorem branch_labels_are_last_segments (items : list ref_item) :
  (forall k, is_Some (Dict.get k (branch_commit_map items)) ->
     contains "/" k = false /\
     exists b, In b items /\ k = rsplit_last "/" (ref b)) /\
  (NoDup (map (fun b => rsplit_last "/" (ref b)) items) ->
   forall prefix label commit,
     In (RefItem (prefix +:+ "/" +:+ label) commit) items ->
     contains "/" label = false ->
     Dict.get label (branch_commit_map items) = Some commit) /\
  (items = [] -> branch_commit_map items = []).
Proof.
  split; [|split; [|by intros ->]].
  - intros k Hk. unfold branch_commit_map in Hk.
    destruct (branch_commit_fold_keys items [] k Hk) as [[? ?]|Hin]; [done|].
    apply list_elem_of_fmap in Hin as (b & -> & Hb).
    split; [apply rsplit_last_no_sep|].
    exists b. split; [by apply list_elem_of_In|done].
  - unfold branch_commit_map. generalize (@nil (string * string)).
    induction items as [|b items IH]; intros acc Hnd prefix label commit Hin
      Hlabel; [done|].
    simpl in Hnd. apply NoDup_cons in Hnd as [Hnot Hnd]. simpl.
    destruct Hin as [->|Hin].
    + simpl in *.
      change (prefix +:+ "/" +:+ label) with (prefix +:+ String "/" label)
        in *.
      rewrite rsplit_last_app in * by done.
      rewrite branch_commit_fold_other by done. apply dict_get_set_eq.
    + by apply (IH _ Hnd prefix).
Qed.

Lemma branch_labels_are_last_segments_witness :
  Dict.get "20.05"
    (branch_commit_map
       [ RefItem "refs/heads/stable/20.02" "2ec5fe7a";
         RefItem "refs/heads/stable/20.05" "d4be2855" ])
  = Some "d4be2855".
Proof.
  apply (proj1 (proj2 (branch_labels_are_last_segments
           [ RefItem "refs/heads/stable/20.02" "2ec5fe7a";
             RefItem "refs/heads/stable/20.05" "d4be2855" ]))
           ltac:(apply (bool_decide_unpack _); vm_compute; exact I)
           "refs/heads/stable" "20.05" "d4be2855");
    [right; by left|reflexivity].
Defined.

(** On a list of references that have both fields, the comprehension on
    values gives the map of [branch_commit_map], its commits as values. *)
Lemma dict_set_images {A B : Type} (f : A -> B) (k : string) (v : A)
    (d : Dict.t A) :
  Dict.set k (f v) (map (prod_map id f) d) = map (prod_map id f) (Dict.set k v d).
Proof.
  induction d as [|[k' v'] d IH]; simpl; [done|].
  case_bool_decide; simpl; [done|]. f_equal. apply IH.
Qed.

Lemma branch_commit_items_refs (items : list ref_item)
    (branches : list Json.value) :
  Forall2 stands_for items branches ->
  branch_commit_items (Json.Arr branches)
    = Ok (commits_as_values (branch_commit_map items)).
Proof.
  unfold branch_commit_items, branch_commit_map. simpl.
  change (@nil (string * Json.value))
    with (commits_as_values (@nil (string * string))).
  generalize (@nil (string * string)). intros acc Hall. revert acc.
  induction Hall as [|b branch items branches [Href Hsha] Hall IH];
    intros acc; simpl; [done|].
  assert (Hitem : forall d,
    branch_commit_item d branch
    = Ok (Dict.set (rsplit_last "/" (ref b)) (Json.Str (sha b)) d)).
  { intros d. unfold branch_commit_item. rewrite Href. simpl.
    destruct (Json.subscript "object" branch) as [object|e]; [|done].
    simpl in *. by rewrite Hsha. }
  rewrite Hitem. cbn [mbind result_bind]. unfold commits_as_values.
  rewrite (dict_set_images Json.Str). apply IH.
Qed.

Lemma stands_for_ref_json (b : ref_item) : stands_for b (ref_json b).
Proof. done. Qed.

Lemma commit_strings_values (m : Dict.t string) :
  commit_strings (commits_as_values m) = Some m.
Proof.
  unfold commit_strings, commits_as_values. apply mapM_Some.
  induction m as [|[k c] m IH]; simpl; by constructor.
Qed.

Lemma branch_document_values (d : doc) :
  branch_document (document_as_values d) = Some d.
Proof.
  unfold branch_document, document_as_values. apply mapM_Some.
  induction d as [|[c m] d IH]; simpl; constructor; [|done].
  simpl. by rewrite commit_strings_values.
Qed.

(** The branch document has the keys of the dictionary it stands for. *)
Lemma branch_document_keys (data : Dict.t (Dict.t Json.value)) (d : doc) :
  branch_document data = Some d -> Dict.keys d = Dict.keys data.
Proof.
  unfold branch_document. revert d.
  induction data as [|[c m] data IH]; intros d; simpl.
  - by intros [= <-].
  - destruct (commit_strings m) as [m'|]; [|done]. simpl.
    destruct (mapM _ data) as [d'|]; [|done]. simpl.
    intros [= <-]. simpl. f_equal. by apply IH.
Qed.

Section BranchCommitFacts.

Context {World : Type} `{!Hosting World}.

Lemma branch_commit_of_keys (env : environ) (charms : list string)
    (data data' : Dict.t (Dict.t Json.value)) (w w' : World) :
  NoDup (Dict.keys data ++ charms) ->
  branch_commit_of env charms data w = (Ok data', w') ->
  Dict.keys data' = Dict.keys data ++ charms.
Proof.
  revert data w. induction charms as [|charm rest IH]; intros data w Hnd;
    simpl.
  - intros [= <- _]. by rewrite app_nil_r.
  - destruct (get_repo_branch_commit_map env _ _ _ w) as [[m|e] w1]; [|done].
    assert (Hnew : Dict.get charm data = None).
    { apply dict_get_None_keys. apply NoDup_app in Hnd as (_ & Hdisj & _).
      intros Hin. apply (Hdisj charm Hin). by left. }
    intros Hrest. apply IH in Hrest.
    + by rewrite Hrest, (dict_keys_set_new _ _ _ Hnew), <- app_assoc.
    + by rewrite (dict_keys_set_new _ _ _ Hnew), <- app_assoc.
Qed.

(** On a hosting side that answers every request with a list of references
    of the documented kind, the comprehension goes through, with strings
    for commits. *)
Lemma branch_commit_of_refs (env : environ) (charms : list string) (d : doc)
    (w : World) :
  (forall url a w0, exists items branches w1,
     requests_get_json url a w0 = (Ok (Json.Arr branches), w1) /\
     Forall2 stands_for items branches) ->
  exists d' w',
    branch_commit_of env charms (document_as_values d) w
    = (Ok (document_as_values d'), w').
Proof.
  intros Hrefs. revert d w.
  induction charms as [|charm rest IH]; intros d w; simpl.
  - by exists d, w.
  - unfold get_repo_branch_commit_map.
    destruct (Hrefs (refs_url "openstack" ("charm-" +:+ charm) "stable")
                (github_auth env) w)
      as (items & branches & w1 & Hanswer & Hall).
    rewrite Hanswer. cbn [mbind result_bind].
    rewrite (branch_commit_items_refs items branches Hall).
    unfold document_as_values. rewrite (dict_set_images commits_as_values).
    apply IH.
Qed.

(** How [update_branch_commit] ends, told from the comprehension. *)
Lemma update_branch_commit_returns (env : environ) (s s' : store)
    (w w' : World) :
  update_branch_commit env s w = Some (s', w', Ok tt) ->
  Dict.keys (FILE_BRANCH_COMMIT s') = OPENSTACK_CHAMRS /\
  FILE_REVISION_COMMIT s' = FILE_REVISION_COMMIT s /\
  FILE_BRANCH_REVISION s' = FILE_BRANCH_REVISION s.
Proof.
  unfold update_branch_commit.
  destruct (branch_commit_of env OPENSTACK_CHAMRS [] w) as [[data|e] w1]
    eqn:Hdata; [|done].
  destruct (branch_document data) as [d|] eqn:Hd; [|done]. simpl.
  intros [= <- _]. simpl. split; [|done].
  rewrite (branch_document_keys data d Hd).
  apply (branch_commit_of_keys env OPENSTACK_CHAMRS [] data w w1); [|done].
  apply (bool_decide_unpack _). vm_compute. exact I.
Qed.

(** X13. [update_branch_commit] and the answers of the hosting API. When
    the call returns, the branch document it has written has the
    components of the primary catalog, in the order of the catalog, and the
    two other documents are as they were. When it raises, no document is
    written. It does raise on an answer that is no list of references: on a
    dictionary with a key, as GitHub sends for an error such as its rate
    limit, with [TypeError], and on a reference without [object] with
    [KeyError]. It returns when every answer is a list of references that
    have a string for [ref] and a string for [sha]. *)
Theorem branch_document_has_the_catalog (env : environ) (s : store)
    (w : World) :
  ((forall url a w0, exists items branches w1,
      requests_get_json url a w0 = (Ok (Json.Arr branches), w1) /\
      Forall2 stands_for items branches) ->
   exists s' w', update_branch_commit env s w = Some (s', w', Ok tt)) /\
  (forall s' w', update_branch_commit env s w = Some (s', w', Ok tt) ->
     Dict.keys (FILE_BRANCH_COMMIT s') = OPENSTACK_CHAMRS /\
     FILE_REVISION_COMMIT s' = FILE_REVISION_COMMIT s /\
     FILE_BRANCH_REVISION s' = FILE_BRANCH_REVISION s) /\
  (forall s' w' e, update_branch_commit env s w = Some (s', w', Raise e) ->
     s' = s) /\
  (forall key v fields w1,
     requests_get_json (refs_url "openstack" "charm-barbican-vault" "stable")
                       (github_auth env) w
       = (Ok (Json.Obj ((key, v) :: fields)), w1) ->
     update_branch_commit env s w = Some (s, w1, Raise TypeError)) /\
  (forall fields r rest w1,
     requests_get_json (refs_url "openstack" "charm-barbican-vault" "stable")
                       (github_auth env) w
       = (Ok (Json.Arr (Json.Obj fields :: rest)), w1) ->
     Dict.get "ref" fields = Some (Json.Str r) ->
     Dict.get "object" fields = None ->
     update_branch_commit env s w = Some (s, w1, Raise (KeyError "object"))).
Proof.
  split; [|split; [|split; [|split]]].
  - intros Hrefs. unfold update_branch_commit.
    destruct (branch_commit_of_refs env OPENSTACK_CHAMRS [] w Hrefs)
      as (d' & w' & Hrun).
    change (document_as_values []) with (@nil (string * Dict.t Json.value))
      in Hrun.
    rewrite Hrun, branch_document_values. simpl. by eexists _, _.
  - intros s' w'. apply update_branch_commit_returns.
  - intros s' w' e. unfold update_branch_commit.
    destruct (branch_commit_of env OPENSTACK_CHAMRS [] w) as [[data|e'] w1].
    + by destruct (branch_document data).
    + by intros [= <- _ _].
  - intros key v fields w1 Hanswer. unfold update_branch_commit.
    cbn [OPENSTACK_CHAMRS branch_commit_of].
    unfold get_repo_branch_commit_map.
    change ("charm-" +:+ "barbican-vault") with "charm-barbican-vault".
    by rewrite Hanswer.
  - intros fields r rest w1 Hanswer Href Hobject.
    unfold update_branch_commit.
    cbn [OPENSTACK_CHAMRS branch_commit_of].
    unfold get_repo_branch_commit_map.
    change ("charm-" +:+ "barbican-vault") with "charm-barbican-vault".
    rewrite Hanswer. cbn [mbind result_bind branch_commit_items Json.iterate
                          for_each].
    unfold branch_commit_item, Json.subscript. rewrite Href, Hobject. done.
Qed.

End BranchCommitFacts.

(** On a hosting side with one branch for every repository the call
    returns with the catalog; under the rate limit it raises [TypeError] and
    the store is as it was. *)
Lemma branch_document_has_the_catalog_witness :
  (exists s',
     @update_branch_commit unit one_branch_each (Environ None None None)
       (Store [] [] "") tt = Some (s', tt, Ok tt) /\
     Dict.keys (FILE_BRANCH_COMMIT s') = OPENSTACK_CHAMRS) /\
  @update_branch_commit unit rate_limited (Environ None None None)
    (Store [("cinder", [("20.05", "c0")])] [] "") tt
    = Some (Store [("cinder", [("20.05", "c0")])] [] "", tt, Raise TypeError).
Proof.
  split.
  - destruct (proj1 (@branch_document_has_the_catalog unit one_branch_each
                       (Environ None None None) (Store [] [] "") tt))
      as (s' & [] & Hrun).
    { intros url a w0.
      exists [RefItem "refs/heads/stable/20.05" "c0"],
             [ref_json (RefItem "refs/heads/stable/20.05" "c0")], w0.
      split; [reflexivity|]. repeat constructor. }
    exists s'. split; [exact Hrun|].
    by apply (proj1 (proj2 (@branch_document_has_the_catalog unit
                one_branch_each (Environ None None None) (Store [] [] "") tt))
                s' tt).
  - eapply (proj1 (proj2 (proj2 (proj2 (@branch_document_has_the_catalog unit
              rate_limited (Environ None None None)
              (Store [("cinder", [("20.05", "c0")])] [] "") tt))))).
    reflexivity.
Defined.

(** ** The reconciler in place and over a map *)

Lemma dict_lookup_map (d : Dict.t string) (k : string) :
  (list_to_map d : gmap string string) !! k = Dict.get k d.
Proof.
  induction d as [|[k0 v0] d IH]; simpl; [done|].
  case_bool_decide as Hk.
  - subst k0. apply lookup_insert_eq.
  - by rewrite lookup_insert_ne.
Qed.

Lemma dict_set_map (k v : string) (d : Dict.t string) :
  (list_to_map (Dict.set k v d) : gmap string string)
    = <[k := v]> (list_to_map d).
Proof.
  apply map_eq. intros i. rewrite dict_lookup_map, dict_get_set.
  case_bool_decide as Hk.
  - subst i. by rewrite lookup_insert_eq.
  - by rewrite lookup_insert_ne, dict_lookup_map.
Qed.

Section InPlaceFacts.

Context {World : Type} `{!Registry World}.

Implicit Types (fr : InPlace.frame World) (charm : string).

Lemma as_map_fetch charm (rev : option string) fr :
  fetch charm rev (as_map fr) =
    ((InPlace.fetch charm rev fr).1, as_map (InPlace.fetch charm rev fr).2).
Proof.
  unfold fetch, InPlace.fetch. simpl.
  by destruct (get_revision_commit charm rev (InPlace.world fr)).
Qed.

Lemma as_map_walk_body charm n fr :
  walk_body charm n (as_map fr) =
    (as_map (InPlace.walk_body charm n fr).1,
     (InPlace.walk_body charm n fr).2).
Proof.
  unfold walk_body, InPlace.walk_body.
  rewrite as_map_fetch. simpl. rewrite dict_lookup_map.
  case_bool_decide; [done|].
  destruct (InPlace.fetch charm (Some (str n)) fr) as [[rev commit] fr'].
  simpl. destruct (is_hit (rev, commit)); simpl.
  - unfold as_map. simpl. by rewrite dict_set_map.
  - done.
Qed.

Lemma as_map_walk charm k fr :
  walk charm k (as_map fr) =
    (as_map (InPlace.walk charm k fr).1, (InPlace.walk charm k fr).2).
Proof.
  revert fr. induction k as [|m IH]; intros fr; [done|].
  cbn [walk InPlace.walk]. rewrite as_map_walk_body.
  destruct (InPlace.walk_body charm (Z.of_nat m) fr) as [fr' []]; simpl;
    [apply IH|done].
Qed.

Lemma as_map_latest_step charm (revs : Dict.t string) (w : World) :
  latest_step charm (list_to_map revs) w =
    ((InPlace.latest_step charm revs w).1,
     as_map (InPlace.latest_step charm revs w).2).
Proof.
  unfold latest_step, InPlace.latest_step.
  change (Frame (list_to_map revs) 0 0 w [])
    with (as_map (InPlace.Frame revs 0 0 w [])).
  rewrite as_map_fetch.
  destruct (InPlace.fetch charm None (InPlace.Frame revs 0 0 w []))
    as [[rev commit] fr']. simpl. rewrite dict_lookup_map.
  case_bool_decide; [done|].
  unfold as_map. simpl. by rewrite dict_set_map.
Qed.

(** The call in place is the call over the map of the dictionary: the same
    requests, the same counters, the same outcome, and a dictionary with
    the same entries. *)
Lemma as_map_update_charm_revisions charm (revs : Dict.t string) (w : World) :
  update_charm_revisions charm (list_to_map revs) w =
    (as_map (InPlace.update_charm_revisions charm revs w).1,
     (InPlace.update_charm_revisions charm revs w).2).
Proof.
  unfold update_charm_revisions, InPlace.update_charm_revisions.
  rewrite as_map_latest_step.
  destruct (InPlace.latest_step charm revs w) as [rev fr]. simpl.
  destruct (int rev) as [n_rev|e]; [|done].
  rewrite as_map_walk.
  by destruct (InPlace.walk charm (Z.to_nat n_rev) fr).
Qed.

End InPlaceFacts.

(** ** The revision -> commit pass *)

Section RevisionCommitFacts.

Context {World : Type} `{!Registry World}.

(** The counter of writes never goes down in the loop. *)
Lemma walk_body_changed_mono (charm : string) n (fr : frame World) :
  (changed fr <= changed (walk_body charm n fr).1)%Z.
Proof.
  destruct (decide (is_Some (revisions fr !! str n))) as [Hin|Hnew].
  { by rewrite walk_body_skip. }
  apply eq_None_not_Some in Hnew.
  destruct (is_hit (get_revision_commit charm (Some (str n)) (world fr)).1)
    eqn:Hhit.
  - rewrite walk_body_hit by done. simpl. lia.
  - by rewrite walk_body_miss.
Qed.

(** A dictionary that goes in empty comes back with a count of 1 at least:
    the first statement stores the latest revision. *)
Lemma update_charm_revisions_new_charm (charm : string) (w : World) n :
  (update_charm_revisions charm ∅ w).2 = Ok n -> (1 <= n)%Z.
Proof.
  intros Hn. apply update_charm_revisions_returns in Hn. rewrite Hn.
  apply (update_charm_revisions_frame (fun fr => (1 <= changed fr)%Z)).
  - rewrite latest_step_unfold. simpl. rewrite lookup_empty.
    by rewrite bool_decide_eq_false_2 by (by intros [? ?]).
  - intros k fr Hfr. pose proof (walk_body_changed_mono charm k fr). lia.
Qed.

(** No key of the dictionary is dropped. *)
Lemma update_charm_revisions_keeps_keys (charm : string)
    (revs : gmap string string) (w : World) (k : string) :
  is_Some (revs !! k) ->
  is_Some (revisions (update_charm_revisions charm revs w).1 !! k).
Proof.
  intros Hk.
  apply (update_charm_revisions_frame
           (fun fr => is_Some (revisions fr !! k))).
  - rewrite latest_step_unfold. simpl. case_bool_decide; [done|].
    rewrite lookup_insert_is_Some'. by right.
  - intros n fr. apply walk_body_key_persists.
Qed.

(** Over answers of the documented shape, on which the fetcher does not
    raise, the call raises only what [int] raises. *)
Lemma update_charm_revisions_raises (charm : string)
    (revs : gmap string string) (w : World) (e : exn) :
  (update_charm_revisions charm revs w).2 = Raise e ->
  exists msg, e = ValueError msg.
Proof.
  unfold update_charm_revisions.
  destruct (latest_step charm revs w) as [rev fr].
  destruct (int rev) as [n_rev|e0] eqn:Hint.
  - by destruct (walk charm (Z.to_nat n_rev) fr).
  - simpl. intros [= <-]. exists rev. by apply int_raise.
Qed.

(** What one turn of the loop of [update_revision_commit] does to the
    files. *)
Lemma update_revision_commit_charm_spec (charm : string) (s : store)
    (w : World) :
  let out := update_revision_commit_charm charm s w in
  FILE_BRANCH_COMMIT out.1.1 = FILE_BRANCH_COMMIT s /\
  FILE_BRANCH_REVISION out.1.1 = FILE_BRANCH_REVISION s /\
  (forall c, is_Some (Dict.get c (FILE_REVISION_COMMIT s)) ->
     is_Some (Dict.get c (FILE_REVISION_COMMIT out.1.1))) /\
  (forall c revs k, Dict.get c (FILE_REVISION_COMMIT s) = Some revs ->
     is_Some (Dict.get k revs) ->
     exists revs', Dict.get c (FILE_REVISION_COMMIT out.1.1) = Some revs' /\
                   is_Some (Dict.get k revs')) /\
  (out.2 = Ok tt ->
     is_Some (Dict.get charm (FILE_REVISION_COMMIT out.1.1))) /\
  (forall e, out.2 = Raise e -> exists msg, e = ValueError msg).
Proof.
  intros out. subst out. unfold update_revision_commit_charm.
  set (cur := if bool_decide (is_Some (Dict.get charm (FILE_REVISION_COMMIT s)))
              then FILE_REVISION_COMMIT s
              else Dict.set charm [] (FILE_REVISION_COMMIT s)).
  set (revs := default [] (Dict.get charm cur)).
  assert (Hcur : Dict.get charm cur = Some revs).
  { subst revs cur. case_bool_decide as Hin.
    - by destruct Hin as [x ->].
    - by rewrite dict_get_set_eq. }
  assert (Hother : forall c, c <> charm ->
            Dict.get c cur = Dict.get c (FILE_REVISION_COMMIT s)).
  { intros c Hc. subst cur. case_bool_decide; [done|].
    by rewrite dict_get_set_ne. }
  pose proof (as_map_update_charm_revisions charm revs w) as Hsim.
  destruct (InPlace.update_charm_revisions charm revs w) as [fr res] eqn:Hrun.
  simpl in Hsim.
  destruct res as [n|e]; simpl.
  - destruct (Z.eqb_spec n 0) as [->|Hn]; simpl.
    + repeat split; try done.
      * intros c revs0 k Hc Hk. by exists revs0.
      * intros _. destruct (decide (is_Some
          (Dict.get charm (FILE_REVISION_COMMIT s)))) as [Hin|Hnew]; [done|].
        assert (Hempty : revs = []).
        { subst revs cur. rewrite bool_decide_eq_false_2 by done.
          by rewrite dict_get_set_eq. }
        rewrite Hempty in Hsim. simpl in Hsim.
        pose proof (update_charm_revisions_new_charm charm w 0) as Hone.
        rewrite Hsim in Hone. specialize (Hone eq_refl). lia.
    + repeat split; try done.
      * intros c Hc. rewrite dict_get_set. case_bool_decide; [by eexists|].
        by rewrite Hother.
      * intros c revs0 k Hc Hk. rewrite dict_get_set.
        case_bool_decide as Heq.
        -- subst c. eexists. split; [done|].
           assert (revs0 = revs) as ->.
           { subst revs cur. case_bool_decide as Hin.
             - by rewrite Hc.
             - destruct Hin. by rewrite Hc. }
           pose proof (update_charm_revisions_keeps_keys charm
                         (list_to_map revs) w k) as Hkeep.
           rewrite Hsim in Hkeep. simpl in Hkeep.
           rewrite !dict_lookup_map in Hkeep. by apply Hkeep.
        -- rewrite Hother by done. by exists revs0.
      * intros _. rewrite dict_get_set_eq. by eexists.
  - repeat split; try done.
    + intros c revs0 k Hc Hk. by exists revs0.
    + intros e0 [= <-].
      apply (update_charm_revisions_raises charm (list_to_map revs) w).
      by rewrite Hsim.
Qed.

(** The loop over a list of charms. *)
Lemma update_revision_commit_over_spec (charms : list string) (s : store)
    (w : World) :
  let out := update_revision_commit_over charms s w in
  FILE_BRANCH_COMMIT out.1.1 = FILE_BRANCH_COMMIT s /\
  FILE_BRANCH_REVISION out.1.1 = FILE_BRANCH_REVISION s /\
  (forall c, is_Some (Dict.get c (FILE_REVISION_COMMIT s)) ->
     is_Some (Dict.get c (FILE_REVISION_COMMIT out.1.1))) /\
  (forall c revs k, Dict.get c (FILE_REVISION_COMMIT s) = Some revs ->
     is_Some (Dict.get k revs) ->
     exists revs', Dict.get c (FILE_REVISION_COMMIT out.1.1) = Some revs' /\
                   is_Some (Dict.get k revs')) /\
  (out.2 = Ok tt ->
     forall c, In c charms ->
       is_Some (Dict.get c (FILE_REVISION_COMMIT out.1.1))) /\
  (forall e, out.2 = Raise e -> exists msg, e = ValueError msg).
Proof.
  revert s w. induction charms as [|charm rest IH]; intros s w; simpl.
  - repeat split; try done. intros c revs k Hc Hk. by exists revs.
  - pose proof (update_revision_commit_charm_spec charm s w) as Hone.
    cbv zeta in Hone.
    destruct (update_revision_commit_charm charm s w) as [[s1 w1] r1].
    simpl in Hone. destruct Hone as (Hb & Hr & Hcomp & Hkeys & Hok & Hexn).
    destruct r1 as [[]|e]; simpl.
    + specialize (IH s1 w1). cbv zeta in IH.
      destruct (update_revision_commit_over rest s1 w1) as [[s2 w2] r2].
      simpl in *. destruct IH as (Hb2 & Hr2 & Hcomp2 & Hkeys2 & Hok2 & Hexn2).
      repeat split; try congruence; try done.
      * intros c Hc. by apply Hcomp2, Hcomp.
      * intros c revs k Hc Hk.
        destruct (Hkeys c revs k Hc Hk) as (revs1 & Hc1 & Hk1).
        by apply (Hkeys2 c revs1 k).
      * intros Hr2ok c [<-|Hin]; [|by apply Hok2].
        apply Hcomp2. by apply Hok.
    + repeat split; try done.
Qed.

(** X14. When [update_revision_commit] returns, every component of the primary
    catalog is a key of the revision document: a component that was not
    there has got its latest revision at least, so the count was not 0 and
    the document was saved. *)
Theorem revision_document_covers_the_catalog (s : store) (w : World) :
  (update_revision_commit s w).2 = Ok tt ->
  forall c, In c OPENSTACK_CHAMRS ->
    is_Some (Dict.get c (FILE_REVISION_COMMIT (update_revision_commit s w).1.1)).
Proof.
  intros Hok c Hc.
  by apply (update_revision_commit_over_spec OPENSTACK_CHAMRS s w).
Qed.

(** X15. [update_revision_commit] only adds to the revision document, whether
    it returns or raises: a component that was there is there, and so is
    every revision of it; the two other documents are as they were. *)
Theorem revision_document_only_grows (s : store) (w : World) :
  let out := update_revision_commit s w in
  FILE_BRANCH_COMMIT out.1.1 = FILE_BRANCH_COMMIT s /\
  FILE_BRANCH_REVISION out.1.1 = FILE_BRANCH_REVISION s /\
  (forall c revs k, Dict.get c (FILE_REVISION_COMMIT s) = Some revs ->
     is_Some (Dict.get k revs) ->
     exists revs', Dict.get c (FILE_REVISION_COMMIT out.1.1) = Some revs' /\
                   is_Some (Dict.get k revs')).
Proof.
  intros out. subst out.
  pose proof (update_revision_commit_over_spec OPENSTACK_CHAMRS s w) as H.
  cbv zeta in H. fold (update_revision_commit s w) in H.
  destruct H as (Hb & Hr & _ & Hkeys & _ & _). repeat split; done.
Qed.

End RevisionCommitFacts.

Lemma revision_document_covers_the_catalog_witness :
  is_Some (Dict.get "cinder"
    (FILE_REVISION_COMMIT
       (@update_revision_commit unit catalog_at_revision_zero
          (Store [] [] "") tt).1.1)).
Proof.
  apply (@revision_document_covers_the_catalog unit catalog_at_revision_zero
           (Store [] [] "") tt).
  - vm_compute. reflexivity.
  - apply list_elem_of_In. apply (bool_decide_unpack _). vm_compute. exact I.
Defined.

(** A run that returns and adds to the document: the revision that was
    stored for [barbican-vault] is there at the end, beside the two the run
    has fetched, and the thirty other charms have got their entry. *)
Lemma revision_document_only_grows_witness :
  let s := Store [] [("barbican-vault", [("1", "old")]);
                     ("my-charm", [("7", "c7")])] "" in
  let out := @update_revision_commit unit catalog_with_history s tt in
  (exists revs',
     Dict.get "barbican-vault" (FILE_REVISION_COMMIT out.1.1) = Some revs' /\
     is_Some (Dict.get "1" revs')) /\
  out.2 = Ok tt /\
  Dict.get "barbican-vault" (FILE_REVISION_COMMIT out.1.1)
    = Some [("1", "old"); ("2", "b2"); ("0", "b0")] /\
  length (FILE_REVISION_COMMIT out.1.1) = 32%nat.
Proof.
  intros s out. split.
  - apply (proj2 (proj2 (@revision_document_only_grows unit
             catalog_with_history s tt)) "barbican-vault" [("1", "old")] "1");
      [reflexivity|by eexists].
  - vm_compute. done.
Defined.

(** ** The full refresh *)

Lemma dict_In_set {V : Type} (k k' : string) (v v' : V) (d : Dict.t V) :
  In (k, v) (Dict.set k' v' d) -> In (k, v) d \/ (k = k' /\ v = v').
Proof.
  induction d as [|[k0 v0] d IH]; simpl.
  - intros [[= <- <-]|[]]. by right.
  - case_bool_decide as Hk; simpl.
    + intros [[= <- <-]|Hin]; [right; by subst|left; by right].
    + intros [Heq|Hin]; [left; by left|].
      destruct (IH Hin) as [?|?]; [left; by right|by right].
Qed.

(** The text of a number that is not negative has no hyphen. *)
Lemma str_no_hyphen (n : Z) : (0 <= n)%Z -> contains "-" (str n) = false.
Proof.
  intros Hn. destruct n as [|p|p]; [done| |lia].
  unfold str. simpl. pose proof (Unsigned.to_uint_nonnil p) as Hp.
  assert (Hdigits : forall d, contains "-" (NilEmpty.string_of_uint d) = false).
  { induction d; simpl; done. }
  specialize (Hdigits (Pos.to_uint p)). by destruct (Pos.to_uint p).
Qed.

Section InPlaceKeys.

Context {World : Type} `{!Registry World}.

(** With a registry whose successful answers name the revision asked for,
    the loop in place writes keys that [int] accepts. *)
Lemma inplace_walk_body_parse (charm : string) (n : Z)
    (fr : InPlace.frame World) :
  (0 <= n)%Z ->
  (forall m w', (0 <= m)%Z ->
     is_hit (get_revision_commit charm (Some (str m)) w').1 = true ->
     (get_revision_commit charm (Some (str m)) w').1.1 = str m) ->
  (forall rev commit, In (rev, commit) (InPlace.revisions fr) ->
     exists m, int rev = Ok m) ->
  forall rev commit,
    In (rev, commit) (InPlace.revisions (InPlace.walk_body charm n fr).1) ->
    exists m, int rev = Ok m.
Proof.
  intros Hn Hecho Hparse. unfold InPlace.walk_body.
  case_bool_decide; [done|]. unfold InPlace.fetch.
  pose proof (Hecho n (InPlace.world fr) Hn) as Hthis.
  destruct (get_revision_commit charm (Some (str n)) (InPlace.world fr))
    as [[rev' commit'] w']. simpl in *.
  destruct (is_hit (rev', commit')) eqn:Hhit; simpl; [|done].
  intros rev commit Hin. apply dict_In_set in Hin as [Hin|[-> ->]];
    [by eapply Hparse|].
  rewrite Hthis by done. exists n. apply int_str.
Qed.

Lemma inplace_walk_parse (charm : string) (k : nat)
    (fr : InPlace.frame World) :
  (forall m w', (0 <= m)%Z ->
     is_hit (get_revision_commit charm (Some (str m)) w').1 = true ->
     (get_revision_commit charm (Some (str m)) w').1.1 = str m) ->
  (forall rev commit, In (rev, commit) (InPlace.revisions fr) ->
     exists m, int rev = Ok m) ->
  forall rev commit,
    In (rev, commit) (InPlace.revisions (InPlace.walk charm k fr).1) ->
    exists m, int rev = Ok m.
Proof.
  intros Hecho. revert fr. induction k as [|m IH]; intros fr Hparse; [done|].
  cbn [InPlace.walk].
  pose proof (inplace_walk_body_parse charm (Z.of_nat m) fr
                (Nat2Z.is_nonneg m) Hecho Hparse) as Hbody.
  destruct (InPlace.walk_body charm (Z.of_nat m) fr) as [fr' []]; simpl in *;
    [by apply IH|done].
Qed.

Lemma inplace_latest_step_unfold (charm : string) (revs : Dict.t string)
    (w : World) :
  let rc := (get_revision_commit charm None w).1 in
  InPlace.latest_step charm revs w =
    (rc.1,
     InPlace.Frame
       (if bool_decide (is_Some (Dict.get rc.1 revs)) then revs
        else Dict.set rc.1 rc.2 revs)
       (if bool_decide (is_Some (Dict.get rc.1 revs)) then 0 else 1) 0
       (get_revision_commit charm None w).2 [(charm, None)]).
Proof.
  intros rc. subst rc. unfold InPlace.latest_step, InPlace.fetch. simpl.
  destruct (get_revision_commit charm None w) as [[rev0 commit0] w0]. simpl.
  by case_bool_decide.
Qed.

Lemma inplace_update_parse (charm : string) (revs : Dict.t string)
    (w : World) (n : Z) :
  (forall m w', (0 <= m)%Z ->
     is_hit (get_revision_commit charm (Some (str m)) w').1 = true ->
     (get_revision_commit charm (Some (str m)) w').1.1 = str m) ->
  (forall rev commit, In (rev, commit) revs -> exists m, int rev = Ok m) ->
  (InPlace.update_charm_revisions charm revs w).2 = Ok n ->
  forall rev commit,
    In (rev, commit)
       (InPlace.revisions (InPlace.update_charm_revisions charm revs w).1) ->
    exists m, int rev = Ok m.
Proof.
  intros Hecho Hparse. unfold InPlace.update_charm_revisions.
  assert (Hfirst : forall rev commit,
    int (InPlace.latest_step charm revs w).1 <> Raise (ValueError
      (InPlace.latest_step charm revs w).1) ->
    In (rev, commit) (InPlace.revisions (InPlace.latest_step charm revs w).2) ->
    exists m, int rev = Ok m).
  { rewrite inplace_latest_step_unfold. cbn zeta.
    destruct (get_revision_commit charm None w) as [[rev0 commit0] w0].
    simpl. intros rev commit Hint. case_bool_decide; simpl; [by apply Hparse|].
    intros Hin. apply dict_In_set in Hin as [Hin|[-> ->]];
      [by eapply Hparse|].
    destruct (int rev0) as [m|e] eqn:Hrev0; [by exists m|].
    destruct Hint. f_equal. by apply int_raise. }
  destruct (InPlace.latest_step charm revs w) as [rev0 fr0]. simpl in *.
  destruct (int rev0) as [n_rev|e] eqn:Hrev0; [|done].
  pose proof (inplace_walk_parse charm (Z.to_nat n_rev) fr0 Hecho) as Hwalk.
  destruct (InPlace.walk charm (Z.to_nat n_rev) fr0) as [fr' fl]. simpl in *.
  intros _. apply Hwalk. intros rev commit. by apply Hfirst.
Qed.

(** One turn of the second pass keeps the revision keys readable. *)
Lemma update_revision_commit_charm_parse (charm : string) (s : store)
    (w : World) :
  (forall c m w', (0 <= m)%Z ->
     is_hit (get_revision_commit c (Some (str m)) w').1 = true ->
     (get_revision_commit c (Some (str m)) w').1.1 = str m) ->
  (forall c revs rev commit, In (c, revs) (FILE_REVISION_COMMIT s) ->
     In (rev, commit) revs -> exists m, int rev = Ok m) ->
  forall c revs rev commit,
    In (c, revs)
       (FILE_REVISION_COMMIT (update_revision_commit_charm charm s w).1.1) ->
    In (rev, commit) revs -> exists m, int rev = Ok m.
Proof.
  intros Hecho Hparse. unfold update_revision_commit_charm.
  set (cur := if bool_decide (is_Some (Dict.get charm (FILE_REVISION_COMMIT s)))
              then FILE_REVISION_COMMIT s
              else Dict.set charm [] (FILE_REVISION_COMMIT s)).
  assert (Hcur : forall c revs rev commit, In (c, revs) cur ->
            In (rev, commit) revs -> exists m, int rev = Ok m).
  { subst cur. case_bool_decide; [done|].
    intros c revs rev commit Hin Hrev.
    apply dict_In_set in Hin as [Hin|[-> ->]]; [by eapply Hparse|done]. }
  set (revs0 := default [] (Dict.get charm cur)).
  assert (Hrevs0 : forall rev commit, In (rev, commit) revs0 ->
            exists m, int rev = Ok m).
  { subst revs0. destruct (Dict.get charm cur) as [revs|] eqn:Hget; [|done].
    apply dict_get_Some_In in Hget. intros rev commit. by apply (Hcur charm). }
  pose proof (fun n => inplace_update_parse charm revs0 w n (Hecho charm)
                         Hrevs0) as Hrun.
  destruct (InPlace.update_charm_revisions charm revs0 w) as [fr res].
  simpl in *. destruct res as [n|e]; simpl; [|done].
  destruct (n =? 0)%Z; simpl; [done|].
  intros c revs rev commit Hin Hrev.
  apply dict_In_set in Hin as [Hin|[-> ->]]; [by eapply Hcur|].
  by eapply (Hrun n).
Qed.

Lemma update_revision_commit_over_parse (charms : list string) (s : store)
    (w : World) :
  (forall c m w', (0 <= m)%Z ->
     is_hit (get_revision_commit c (Some (str m)) w').1 = true ->
     (get_revision_commit c (Some (str m)) w').1.1 = str m) ->
  (forall c revs rev commit, In (c, revs) (FILE_REVISION_COMMIT s) ->
     In (rev, commit) revs -> exists m, int rev = Ok m) ->
  forall c revs rev commit,
    In (c, revs)
       (FILE_REVISION_COMMIT (update_revision_commit_over charms s w).1.1) ->
    In (rev, commit) revs -> exists m, int rev = Ok m.
Proof.
  intros Hecho. revert s w. induction charms as [|charm rest IH];
    intros s w Hparse; [done|].
  cbn [update_revision_commit_over].
  pose proof (update_revision_commit_charm_parse charm s w Hecho Hparse)
    as Hone.
  destruct (update_revision_commit_charm charm s w) as [[s1 w1] r1].
  simpl in Hone. destruct r1 as [[]|e]; simpl; [|done].
  by apply IH.
Qed.

End InPlaceKeys.

Section FullRefresh.

Context {World : Type} `{!Registry World} `{!Hosting World}.

(** How a full refresh ends once its first pass has returned: as the second
    pass when that one raises, and otherwise as the third pass, which then
    returns or raises the [ValueError] of a revision key that [int]
    rejects. *)
Lemma full_refresh_cases (env : environ) (s s1 : store) (w w1 : World) :
  update_branch_commit env s w = Some (s1, w1, Ok tt) ->
  let out := update_revision_commit s1 w1 in
  (forall e, out.2 = Raise e ->
     update_all env s w = Some (out.1.1, out.1.2, Raise e)) /\
  (out.2 = Ok tt ->
     update_all env s w
       = Some ((update_branch_revision out.1.1).1, out.1.2,
               (update_branch_revision out.1.1).2) /\
     ((update_branch_revision out.1.1).2 = Ok tt \/
      exists c revisions rev commit,
        In (c, revisions) (FILE_REVISION_COMMIT out.1.1) /\
        In (rev, commit) revisions /\
        int rev = Raise (ValueError rev) /\
        (update_branch_revision out.1.1).2 = Raise (ValueError rev))).
Proof.
  intros Hfirst out. subst out. unfold update_all. rewrite Hfirst.
  cbn [mbind option_bind].
  pose proof (update_branch_commit_returns env s s1 w w1 Hfirst)
    as (Hcat & _ & _).
  pose proof (update_revision_commit_over_spec OPENSTACK_CHAMRS s1 w1) as HB.
  cbv zeta in HB. fold (update_revision_commit s1 w1) in HB.
  destruct (update_revision_commit s1 w1) as [[s2 w2] r2]. simpl in *.
  destruct HB as (Hb & _ & _ & _ & Hcover & Hexn).
  destruct r2 as [[]|e]; simpl; (split; [by intros ? [= <-]|]); [|done].
  intros _. specialize (Hcover eq_refl).
  split; [by destruct (update_branch_revision s2)|].
  rewrite update_branch_revision_unfold.
  pose proof (charms_commit_revision_outcome_from (FILE_REVISION_COMMIT s2) [])
    as Hone.
  fold (charms_commit_revision (FILE_REVISION_COMMIT s2)) in Hone.
  destruct (charms_commit_revision (FILE_REVISION_COMMIT s2)) as [cr|e]
    eqn:Hcr.
  - pose proof (charms_branch_revision_from cr (FILE_BRANCH_COMMIT s2) [])
      as Hsecond.
    fold (charms_branch_revision cr (FILE_BRANCH_COMMIT s2)) in Hsecond.
    destruct (charms_branch_revision cr (FILE_BRANCH_COMMIT s2))
      as [data|[msg|c| | | |msg]]; simpl; try done; [by left|].
    destruct Hsecond as (bs & Hin & _ & Hnone). simpl in Hnone.
    assert (Hc : In c OPENSTACK_CHAMRS).
    { rewrite <- Hcat, <- Hb. apply list_elem_of_In.
      unfold Dict.keys. apply list_elem_of_fmap. exists (c, bs).
      split; [done|]. by apply list_elem_of_In. }
    apply Hcover in Hc.
    apply (charms_commit_revision_keys _ cr c Hcr) in Hc.
    rewrite Hnone in Hc. by destruct Hc.
  - simpl. right.
    destruct Hone as (c & revisions & rev & commit & Hin & Hrev & He).
    pose proof (int_raise _ _ He) as ->.
    by exists c, revisions, rev, commit.
Qed.

(** X16. In a full refresh whose first two passes return, the third pass
    never raises [KeyError]: it returns, or it raises the [ValueError] of
    [int] on a revision key of the revision document. The third pass finds
    every component of the branch document in the revision document,
    because the first two passes run over the same catalog. The refresh
    ends as its third pass does. *)
Theorem full_refresh_never_key_error (env : environ) (s s1 s2 : store)
    (w w1 w2 : World) :
  update_branch_commit env s w = Some (s1, w1, Ok tt) ->
  update_revision_commit s1 w1 = (s2, w2, Ok tt) ->
  update_all env s w
    = Some ((update_branch_revision s2).1, w2, (update_branch_revision s2).2) /\
  ((update_branch_revision s2).2 = Ok tt \/
   exists c revisions rev commit,
     In (c, revisions) (FILE_REVISION_COMMIT s2) /\
     In (rev, commit) revisions /\
     int rev = Raise (ValueError rev) /\
     (update_branch_revision s2).2 = Raise (ValueError rev)).
Proof.
  intros Hfirst Hsecond.
  destruct (full_refresh_cases env s s1 w w1 Hfirst) as [_ Hok].
  cbv zeta in Hok. rewrite Hsecond in Hok. by apply Hok.
Qed.

(** X17. A full refresh whose first two passes return succeeds as a whole,
    provided the revision keys that were stored before are integers and
    every successful answer of the registry to a request for revision [n]
    names revision [n]: the keys the second pass adds are then integers
    too, so the third pass has nothing to raise. *)
Theorem full_refresh_succeeds (env : environ) (s s1 s2 : store)
    (w w1 w2 : World) :
  (forall c m w', (0 <= m)%Z ->
     is_hit (get_revision_commit c (Some (str m)) w').1 = true ->
     (get_revision_commit c (Some (str m)) w').1.1 = str m) ->
  (forall c revs rev commit, In (c, revs) (FILE_REVISION_COMMIT s) ->
     In (rev, commit) revs -> exists m, int rev = Ok m) ->
  update_branch_commit env s w = Some (s1, w1, Ok tt) ->
  update_revision_commit s1 w1 = (s2, w2, Ok tt) ->
  update_all env s w = Some ((update_branch_revision s2).1, w2, Ok tt).
Proof.
  intros Hecho Hparse Hfirst Hsecond.
  destruct (full_refresh_cases env s s1 w w1 Hfirst) as [_ Hok].
  cbv zeta in Hok. rewrite Hsecond in Hok.
  destruct (Hok eq_refl) as [Hall Hthird]. simpl in Hall, Hthird.
  destruct Hthird
    as [Hthird|(c & revisions & rev & commit & Hin & Hrev & He & _)];
    [by rewrite Hall, Hthird|].
  pose proof (update_branch_commit_returns env s s1 w w1 Hfirst)
    as (_ & Hrcm & _).
  rewrite <- Hrcm in Hparse.
  pose proof (update_revision_commit_over_parse OPENSTACK_CHAMRS s1 w1
                Hecho Hparse c revisions rev commit) as Hint.
  fold (update_revision_commit s1 w1) in Hint. rewrite Hsecond in Hint.
  destruct (Hint Hin Hrev) as [m Hm]. congruence.
Qed.

End FullRefresh.

(** A table whose entries echo answers every successful request for a
    numbered revision with that revision. *)
Lemma table_registry_echo (entries : list (string * meta_any))
    (text : Dict.t string) (c : string) (m : Z) (w' : unit) :
  forallb echoes entries = true ->
  (0 <= m)%Z ->
  let R := table_registry
             (map (fun entry => (meta_url entry.1, entry.2)) entries) text in
  is_hit (@get_revision_commit unit R c (Some (str m)) w').1 = true ->
  (@get_revision_commit unit R c (Some (str m)) w').1.1 = str m.
Proof.
  intros Hall Hm R. subst R.
  assert (Hname : request_name c (Some (str m)) = c +:+ String "-" (str m)).
  { unfold request_name. pose proof (str_nonempty m). by destruct (str m). }
  assert (Hlookup : forall data,
    Dict.get (meta_url (c +:+ String "-" (str m)))
      (map (fun entry : string * meta_any => (meta_url entry.1, entry.2))
           entries) = Some data ->
    echoes (c +:+ String "-" (str m), data) = true).
  { induction entries as [|[name d] entries IH]; intros data; [done|].
    simpl in Hall. apply andb_prop in Hall as [Hthis Hrest].
    cbn [map Dict.get fst snd]. case_bool_decide as Heq.
    - apply meta_url_inj in Heq. intros [= <-]. by rewrite <- Heq.
    - by apply IH. }
  unfold get_revision_commit. rewrite Hname.
  cbn [get_url_output_json table_registry].
  destruct (Dict.get _ _) as [data|]; [|done].
  pose proof (Hlookup data eq_refl) as Hget. clear Hlookup.
  unfold echoes in Hget. cbn [fst snd] in Hget.
  rewrite rsplit_last_app in Hget by (by apply str_no_hyphen).
  rewrite int_str in Hget. unfold answered_rev in Hget.
  change (default (MetaAny None []) (Some data)) with data.
  destruct (Id data) as [i|]; [|done].
  destruct (truthy i && contains "-" i); [|done].
  apply bool_decide_eq_true_1 in Hget. intros _.
  destruct (truthy _); [done|].
  by destruct (get_url_output_text _ _).
Qed.

(** A store with a revision key that is no number: the first two passes
    return, and the third raises the [ValueError] of that key. *)
Lemma full_refresh_never_key_error_witness :
  exists s3,
    @update_all unit catalog_with_history one_branch_each
      (Environ None None None) (Store [] [("cinder", [("1o", "x")])] "") tt
    = Some (s3, tt, Raise (ValueError "1o")).
Proof.
  set (env := Environ None None None).
  set (s := Store [] [("cinder", [("1o", "x")])] "").
  set (s1 := (default (s, tt, Ok tt)
                (@update_branch_commit unit one_branch_each env s tt)).1.1).
  set (s2 := (@update_revision_commit unit catalog_with_history s1 tt).1.1).
  destruct (@full_refresh_never_key_error unit catalog_with_history
              one_branch_each env s s1 s2 tt tt tt) as [Hall _].
  - vm_compute. reflexivity.
  - vm_compute. reflexivity.
  - exists (update_branch_revision s2).1. rewrite Hall.
    vm_compute. reflexivity.
Defined.

(** A full refresh over a store that holds revision 1 of [barbican-vault],
    against a registry on which the walk for that charm fetches revision 0
    with success: the refresh returns. *)
Lemma full_refresh_succeeds_witness :
  exists s3,
    @update_all unit catalog_with_history one_branch_each
      (Environ None None None)
      (Store [] [("barbican-vault", [("1", "old")])] "") tt
    = Some (s3, tt, Ok tt) /\
    Dict.get "barbican-vault" (FILE_REVISION_COMMIT s3)
    = Some [("1", "old"); ("2", "b2"); ("0", "b0")].
Proof.
  set (env := Environ None None None).
  set (s := Store [] [("barbican-vault", [("1", "old")])] "").
  set (s1 := (default (s, tt, Ok tt)
                (@update_branch_commit unit one_branch_each env s tt)).1.1).
  set (s2 := (@update_revision_commit unit catalog_with_history s1 tt).1.1).
  exists (update_branch_revision s2).1. split.
  - apply (@full_refresh_succeeds unit catalog_with_history one_branch_each
             env s s1 s2 tt tt tt).
    + intros c m w'. apply table_registry_echo. vm_compute. reflexivity.
    + intros c revs rev commit [[= <- <-]|[]] [[= <- <-]|[]]. by exists 1%Z.
    + vm_compute. reflexivity.
    + vm_compute. reflexivity.
  - vm_compute. reflexivity.
Defined.

(** ** The fetcher: the repo-info document *)

Lemma split_once_app sep k v :
  contains sep k = false -> split_once sep (k +:+ String sep v) = (k, v).
Proof.
  induction k as [|c k IH]; simpl.
  - by rewrite Ascii.eqb_refl.
  - rewrite (Ascii.eqb_sym sep c). destruct (Ascii.eqb c sep); [done|].
    simpl. intros Hk. by rewrite IH.
Qed.

(** Lines that are no [commit-sha-1] line are passed over. *)
Lemma repo_info_commit_skip (before rest : list string) :
  (forall l, In l before ->
     contains ":" (strip l) = false \/
     (split_once ":" (strip l)).1 <> "commit-sha-1") ->
  repo_info_commit (before ++ rest) = repo_info_commit rest.
Proof.
  induction before as [|l before IH]; intros Hskip; [done|]. simpl.
  destruct (Hskip l (or_introl eq_refl)) as [Hno|Hkey].
  - rewrite Hno. apply IH. intros l' Hin. apply Hskip. by right.
  - destruct (contains ":" (strip l));
      [|apply IH; intros l' Hin; apply Hskip; by right].
    destruct (split_once ":" (strip l)) as [key value]. simpl in Hkey.
    rewrite bool_decide_eq_false_2 by done.
    apply IH. intros l' Hin. apply Hskip. by right.
Qed.

Section Fallback.

Context {World : Type} `{!Registry World}.

(** X18. The fall-back of [get_revision_commit]. When the answer names a
    revision [r] and its metadata has no commit, a second request goes to
    the repo-info document of [charm-r], and the commit returned is the
    value of the first line of that document whose key is [commit-sha-1],
    stripped of white space; the lines before it are passed over. *)
Theorem fallback_reads_the_commit_line (charm : string)
    (rev : option string) (w : World) (r line value : string)
    (before after : list string) :
  let answer := get_url_output_json (meta_url (request_name charm rev)) w in
  let document := get_url_output_text (repo_info_url charm r) answer.2 in
  answered_rev answer.1 = Some r ->
  hd "" (vcs_revisions answer.1) = "" ->
  splitlines (strip document.1) = before ++ line :: after ->
  (forall l, In l before ->
     contains ":" (strip l) = false \/
     (split_once ":" (strip l)).1 <> "commit-sha-1") ->
  strip line = "commit-sha-1:" +:+ value ->
  get_revision_commit charm rev w = ((r, strip value), document.2).
Proof.
  intros answer document Hrev Hmeta Hlines Hbefore Hline.
  subst document answer. unfold get_revision_commit.
  unfold answered_rev in Hrev.
  destruct (get_url_output_json (meta_url (request_name charm rev)) w)
    as [data w1]. simpl in *.
  destruct (Id data) as [id|]; [|done].
  destruct (truthy id && contains "-" id); [|done].
  injection Hrev as Hrev. rewrite Hrev.
  assert (Hhead : match vcs_revisions data with
                  | [] => ""
                  | c :: _ => c
                  end = "").
  { by destruct (vcs_revisions data). }
  rewrite Hhead. simpl.
  destruct (get_url_output_text (repo_info_url charm r) w1) as [text w2].
  simpl in *. rewrite Hlines, repo_info_commit_skip by done.
  simpl. rewrite Hline.
  change ("commit-sha-1:" +:+ value)
    with ("commit-sha-1" +:+ String ":" value).
  rewrite contains_app, split_once_app by done.
  by rewrite bool_decide_eq_true_2.
Qed.

End Fallback.

Lemma fallback_reads_the_commit_line_witness :
  @get_revision_commit unit commit_in_repo_info "barbican-vault" (Some "4") tt
  = (("4", "a52f533b54abce67fb3df642cda5695568fbfb90"), tt).
Proof.
  apply (@fallback_reads_the_commit_line unit commit_in_repo_info
           "barbican-vault" (Some "4") tt "4"
           "commit-sha-1: a52f533b54abce67fb3df642cda5695568fbfb90"
           " a52f533b54abce67fb3df642cda5695568fbfb90"
           ["note: built charm"] ["commit-short: a52f533"; "branch: HEAD"]).
  - reflexivity.
  - reflexivity.
  - vm_compute. reflexivity.
  - intros l [<-|[]]. right. vm_compute. discriminate.
  - reflexivity.
Defined.

(** ** The report: its rows *)

(** X19. No application is lost or doubled: the rows of the report carry the
    names of the applications of the status document, each name as often as
    the document has it, and the printed report has two lines more than
    there are applications. *)
Theorem report_has_every_application (applications : Dict.t app_data)
    (branch_to_revision : doc) :
  map row_app (report applications branch_to_revision)
    ≡ₚ Dict.keys applications /\
  length (report_lines applications branch_to_revision)
    = S (S (length applications)).
Proof.
  assert (Hnames : map row_app (report applications branch_to_revision)
                   = map name (report_apps applications)).
  { unfold report. rewrite map_map. by apply map_ext. }
  split.
  - rewrite Hnames. unfold report_apps.
    rewrite (sorted_by_order_perm (map make_app applications)).
    rewrite map_map. unfold Dict.keys.
    replace (map (fun x => name (make_app x)) applications)
      with (applications.*1); [done|].
    apply map_ext. by intros [? ?].
  - unfold report_lines, report, report_apps. simpl.
    rewrite !length_map.
    by rewrite (Permutation_length
                  (sorted_by_order_perm (map make_app applications))),
               length_map.
Qed.
